(** * AwesomeTTS: the service router ([awesometts/classes/router.py])

    A shallow embedding of the [Router] class and of the [_Pool] it owns,
    followed by the properties of dispatch, caching and single-flight
    execution that hold of it.

    Python values that the router only passes around (option values, what
    [str] prints for them, how they compare) are abstracted by the
    [PyValues] interface.  Dictionaries whose item order is observable
    (the caller's options) are association lists with distinct keys;
    dictionaries that are only looked up (the service table, the alias
    table, the pool's callbacks) are [gmap]s.

    The second part adds what the package gives the router
    ([TO_NORMALIZED] and [STRIP_WHITESPACE] of [awesometts/__init__.py])
    and the router's caller during reviews ([Reviewer.play_html] of
    [awesometts/classes/gui/reviewer.py]), with further properties of
    the router itself. *)

From Stdlib Require Import String Ascii OrderedTypeEx.
From stdpp Require Import gmap strings list sorting.

Local Open Scope string_scope.

(** ** Python values and exceptions *)

(** The exceptions that travel through the router.  All of them are
    [StandardError]s in Python 2; [BusyError] is [Router.BusyError]. *)
Inductive exn : Type :=
  | ValueError (msg : string)
  | EnvironmentError (msg : string)
  | BusyError (msg : string)
  | AssertionError (msg : string)
  | TypeError (msg : string)
  | IndexError (msg : string)
  | KeyError (msg : string)
  | StandardError (msg : string).


(** What the router needs to know about the values found in option
    dictionaries, and the digest it borrows from [hashlib]. *)
Class PyValues := {
  value : Type;
  (** [a == b] *)
  value_eqb : value -> value -> bool;
  (** [a < b]; [a > b] is read as [b < a] *)
  value_ltb : value -> value -> bool;
  (** [str(v)], also what ["%s" % v] prints *)
  str : value -> string;
  (** ["%d" % v]; [None] when the value is not a number (a [TypeError]) *)
  fmt_d : value -> option string;
  (** the value as an item of [", ".join(...)]; [None] when it is not a
      string (a [TypeError]) *)
  as_str : value -> option string;
  (** [hashlib.sha1(s).hexdigest()] *)
  sha1_hexdigest : string -> string;
}.

(** ** Dictionaries with observable item order *)

Module Dict.
Section Dict.
Context {V : Type}.

(** [d.items()], in the order the dictionary happens to hold them *)
Definition t := list (string * V).

Fixpoint get (k : string) (d : t) : option V :=
  match d with
  | [] => None
  | (k', v) :: d' => if String.eqb k k' then Some v else get k d'
  end.

(** [d[k] = v]: overwrite in place, or add a new item *)
Fixpoint set (k : string) (v : V) (d : t) : t :=
  match d with
  | [] => [(k, v)]
  | (k', v') :: d' =>
      if String.eqb k k' then (k, v) :: d' else (k', v') :: set k v d'
  end.

(** [{k: v for k, v in l}]: later items win *)
Definition of_items (l : list (string * V)) : t :=
  foldl (fun d kv => set kv.1 kv.2 d) [] l.

Definition keys (d : t) : list string := d.*1.
End Dict.
Arguments t : clear implicits.
End Dict.

(** ** [sorted] *)

Section Sorted.
Context {A : Type} (lt : A -> A -> bool).

(** A stable insertion: [x] goes before the first element that is
    greater than it. *)
Fixpoint insert_sorted (x : A) (l : list A) : list A :=
  match l with
  | [] => [x]
  | y :: l' => if lt x y then x :: y :: l' else y :: insert_sorted x l'
  end.

(** [sorted(l)], comparing with [lt] only, as [list.sort] does.  The
    elements are inserted from the right so that equal elements keep
    their order. *)
Definition sorted (l : list A) : list A := foldr insert_sorted [] l.
End Sorted.

(** ** The cache path *)

(** [posixpath.join(a, b)] *)
Definition os_path_join (a b : string) : string :=
  if String.prefix "/" b then b
  else if (String.eqb a "" || String.eqb (substring (String.length a - 1) 1 a) "/")%bool
       then a +:+ b
       else a +:+ "/" +:+ b.

Section Router.
Context `{PyValues}.

(** [(k1, v1) < (k2, v2)] on tuples: the first components decide unless
    they are equal. *)
Definition item_ltb (a b : string * value) : bool :=
  if String.eqb a.1 b.1 then value_ltb a.2 b.2 else String.ltb a.1 b.1.

Definition hash_input (svc_id text : string) (options : Dict.t value) : string :=
  String.concat "/" [
    text;
    svc_id;
    String.concat ";"
      (map (fun kv : string * value => String.concat "=" [kv.1; str kv.2])
           (sorted item_ltb options))
  ].

(** [Router._path_cache] *)
Definition _path_cache (cache_dir svc_id text : string)
    (options : Dict.t value) : string :=
  os_path_join cache_dir
    (String.concat "." [
       String.concat "-" [svc_id; sha1_hexdigest (hash_input svc_id text options)];
       "mp3"
     ]).

(** ** Option schemas *)

(** What a service's [options()] may put under ['values']: a list of
    [(value, description)] pairs, a tuple, or something else. *)
Inductive raw_values : Type :=
  | RList (items : list (value * string))
  | RTuple (elems : list value)
  | ROther.

(** An option dict as a service hands it out: any key may be missing. *)
Record raw_option : Type := RawOption {
  ro_key : option string;
  ro_label : option string;
  ro_values : option raw_values;
  ro_transform : option (value -> exn + value);
  ro_default : option value;
}.

Inductive domain : Type :=
  | DList (items : list (value * string))
  | DTuple (elems : list value).

(** An option dict that went through the assertions of
    [Router._fetch_options]: ['key'], ['label'], ['values'] and
    ['transform'] are there, ['default'] may be. *)
Record svc_option : Type := SvcOption {
  opt_key : string;
  opt_label : string;
  opt_values : domain;
  opt_transform : value -> exn + value;
  opt_default : option value;
}.

(** ** Services *)

(** A live service object: what its [options()] and [desc()] return. *)
Record instance : Type := Instance {
  inst_options : list raw_option;
  inst_desc : string;
}.

(** A service class: its [NAME] and [TRAITS], and what calling it with
    the bundle's [args] and [kwargs] does. *)
Record svc_class : Type := SvcClass {
  NAME : option string;
  TRAITS : option (list nat);
  construct : exn + instance;
}.

(** A service lookup dict.  ['instance'], ['options'] and ['desc'] are
    keys that appear later: [None] is a missing key, and
    [svc_instance = Some None] is ['instance'] set to [None]. *)
Record service : Type := Service {
  svc_cls : svc_class;
  svc_name : string;
  svc_traits : list nat;
  svc_instance : option (option instance);
  svc_options : option (list svc_option);
  svc_desc : option string;
}.

Definition set_instance (i : option instance) (s : service) : service :=
  Service (svc_cls s) (svc_name s) (svc_traits s) (Some i) (svc_options s) (svc_desc s).

Definition set_options (o : list svc_option) (s : service) : service :=
  Service (svc_cls s) (svc_name s) (svc_traits s) (svc_instance s) (Some o) (svc_desc s).

Definition append_option (o : svc_option) (s : service) : service :=
  match svc_options s with
  | Some os => set_options (os ++ [o])%list s
  | None => s
  end.

Definition set_desc (d : string) (s : service) : service :=
  Service (svc_cls s) (svc_name s) (svc_traits s) (svc_instance s) (svc_options s) (Some d).

(** The bundle handed to [Router.__init__]. *)
Record bundle : Type := Bundle {
  b_mappings : list (string * svc_class);
  b_aliases : list (string * string);
  b_normalize : string -> string;
  b_textize : string -> string;
}.

(** The bundle as the router keeps it. *)
Record services : Type := Services {
  aliases : gmap string string;
  avail : option (list (string * string));
  lookup : gmap string service;
  normalize : string -> string;
  textize : string -> string;
}.

(** ** Callbacks, the pool and the router *)

(** The caller's [callbacks] dict.  ['okay'] and ['fail'] are required;
    [cb_done] says whether ['done'] is there, [cb_fail_result] whether
    what [callbacks['fail'](exception)] returns is true.  [cb_id] names
    the caller, so that a trace tells whose callback was called. *)
Record callbacks : Type := Callbacks {
  cb_id : nat;
  cb_done : bool;
  cb_fail_result : exn -> bool;
}.

(** The [task] closure given to [_Pool.spawn]. *)
Record task : Type := Task {
  t_svc_id : string;
  t_text : string;
  t_options : Dict.t value;
  t_path : string;
}.

(** The [callback] closure given to [_Pool.spawn]. *)
Record completion : Type := Completion {
  c_path : string;
  c_callbacks : callbacks;
}.

Record pool : Type := Pool {
  _next_id : nat;
  _callbacks : gmap nat completion;
  _workers : gmap nat task;
}.

Record router : Type := Router {
  _busy : list string;
  _cache_dir : string;
  _pool : pool;
  _services : services;
}.

(** What the router does to the world around it. *)
Inductive event : Type :=
  | EvLookup (svc_id : string)       (* [self._services.lookup[svc_id]] *)
  | EvInit (svc_id : string)         (* [service['class'](...)] *)
  | EvOptions (svc_id : string)      (* [service['instance'].options()] *)
  | EvDesc (svc_id : string)         (* [service['instance'].desc()] *)
  | EvExists (path : string)         (* [os.path.exists(path)] *)
  | EvSpawn (worker_id : nat) (t : task)  (* a worker thread is started *)
  | EvDone (cb : nat)                (* [callbacks['done']()] *)
  | EvOkay (cb : nat) (path : string)     (* [callbacks['okay'](path)] *)
  | EvFail (cb : nat) (e : exn).     (* [callbacks['fail'](exception)] *)

(** ** A monad for the methods: router state, exceptions, events *)

Record outcome (A : Type) : Type := Outcome {
  result : exn + A;
  final : router;
  emitted : list event;
}.
Arguments Outcome {A} _ _ _.
Arguments result {A} _.
Arguments final {A} _.
Arguments emitted {A} _.

Definition M (A : Type) : Type := router -> outcome A.

Definition ret {A} (a : A) : M A := fun r => Outcome (inr a) r [].

Definition raise {A} (e : exn) : M A := fun r => Outcome (inl e) r [].

Definition bind {A B} (m : M A) (f : A -> M B) : M B := fun r =>
  let o := m r in
  match result o with
  | inl e => Outcome (inl e) (final o) (emitted o)
  | inr a =>
      let o' := f a (final o) in
      Outcome (result o') (final o') (emitted o ++ emitted o')
  end.

(** [try: m except StandardError as e: ...], with the exception as a value *)
Definition attempt {A} (m : M A) : M (exn + A) := fun r =>
  let o := m r in Outcome (inr (result o)) (final o) (emitted o).

Definition get : M router := fun r => Outcome (inr r) r [].

Definition modify (f : router -> router) : M unit := fun r => Outcome (inr tt) (f r) [].

Definition emit (e : event) : M unit := fun r => Outcome (inr tt) r [e].

Definition lift {A} (x : exn + A) : M A := fun r => Outcome x r [].

Notation "x <- m ;; k" := (bind m (fun x => k))
  (at level 100, m at next level, right associativity).

Fixpoint for_each {A} (l : list A) (body : A -> M unit) : M unit :=
  match l with
  | [] => ret tt
  | x :: l' => _ <- body x ;; for_each l' body
  end.

Definition set_lookup (f : gmap string service -> gmap string service)
    (r : router) : router :=
  Router (_busy r) (_cache_dir r) (_pool r)
    (Services (aliases (_services r)) (avail (_services r))
       (f (lookup (_services r)))
       (normalize (_services r)) (textize (_services r))).

Definition set_avail (a : list (string * string)) (r : router) : router :=
  Router (_busy r) (_cache_dir r) (_pool r)
    (Services (aliases (_services r)) (Some a) (lookup (_services r))
       (normalize (_services r)) (textize (_services r))).

Definition set_busy (f : list string -> list string) (r : router) : router :=
  Router (f (_busy r)) (_cache_dir r) (_pool r) (_services r).

Definition set_pool (f : pool -> pool) (r : router) : router :=
  Router (_busy r) (_cache_dir r) (f (_pool r)) (_services r).

(** A service dict is shared with the lookup table: the methods below
    name it by its key there, and update it in the table. *)
Definition update_service (svc_id : string) (f : service -> service) : M unit :=
  modify (set_lookup (alter f svc_id)).

(** ** [Router.__init__] *)

Definition truthy_name (n : option string) : option string :=
  match n with
  | Some (String c s) => Some (String c s)
  | _ => None
  end.

Definition new_service (svc_id : string) (c : svc_class) : service :=
  Service c
    (match truthy_name (NAME c) with Some n => n | None => svc_id end)
    (match TRAITS c with Some (t :: ts) => t :: ts | _ => [] end)
    None None None.

Definition __init__ (b : bundle) (cache_dir : string) : router :=
  Router [] cache_dir (Pool 0 ∅ ∅)
    (Services
       (foldl (fun m a => <[b_normalize b a.1 := b_normalize b a.2]> m) ∅ (b_aliases b))
       None
       (foldl (fun m s => <[b_normalize b s.1 := new_service s.1 s.2]> m) ∅ (b_mappings b))
       (b_normalize b) (b_textize b)).

(** ** The registry: [_load_service], [_fetch_service] *)

(** [Router._load_service] *)
Definition _load_service (svc_id : string) : M unit :=
  r <- get ;;
  match lookup (_services r) !! svc_id with
  | None => ret tt
  | Some service =>
      match svc_instance service with
      | Some _ => ret tt
      | None =>
          _ <- emit (EvInit svc_id) ;;
          match construct (svc_cls service) with
          | inr i => update_service svc_id (set_instance (Some i))
          | inl _ => update_service svc_id (set_instance None)
          end
      end
  end.

(** The first two statements of [_fetch_service]: the id is normalized,
    then replaced by what the alias table says. *)
Definition resolve_id (r : router) (svc_id : string) : string :=
  let svc_id := normalize (_services r) svc_id in
  match aliases (_services r) !! svc_id with
  | Some official => official
  | None => svc_id
  end.

(** [Router._fetch_service]; the service dict it returns is the one at
    the returned key. *)
Definition _fetch_service (svc_id : string) : M (string * service) :=
  r <- get ;;
  let svc_id := resolve_id r svc_id in
  _ <- emit (EvLookup svc_id) ;;
  match lookup (_services r) !! svc_id with
  | None => raise (ValueError ("There is no '" +:+ svc_id +:+ "' service"))
  | Some _ =>
      _ <- _load_service svc_id ;;
      r' <- get ;;
      match lookup (_services r') !! svc_id with
      | None => raise (KeyError svc_id)
      | Some service =>
          match svc_instance service with
          | Some (Some _) => ret (svc_id, service)
          | _ =>
              raise (EnvironmentError
                ("The " +:+ svc_name service +:+ " service is not currently available"))
          end
      end
  end.

(** ** The option schema: [_fetch_options] *)

Definition endswith_colon (s : string) : bool :=
  String.eqb (substring (String.length s - 1) 1 s) ":".

Definition annotate_default (d : value) (items : list (value * string))
    : list (value * string) :=
  map (fun item : value * string =>
         if negb (value_eqb item.1 d) then item
         else (item.1, item.2 +:+ " [default]"))
      items.

(** The body of the loop of [_fetch_options] up to the [append]: the
    assertions in their order, then the label and the default marker. *)
Definition check_option (norm : string -> string) (svc_id : string)
    (option : raw_option) : exn + svc_option :=
  match ro_key option with
  | None => inl (AssertionError ("missing option key for " +:+ svc_id))
  | Some key =>
  if negb (String.eqb (norm key) key)
  then inl (AssertionError ("bad " +:+ svc_id +:+ " key " +:+ key)) else
  match ro_label option with
  | None => inl (AssertionError ("missing " +:+ key +:+ " label for " +:+ svc_id))
  | Some label =>
  match ro_values option with
  | None => inl (AssertionError ("missing " +:+ key +:+ " values for " +:+ svc_id))
  | Some values =>
  let bad_values :=
    AssertionError (key +:+ " values for " +:+ svc_id +:+ " should be list or 2-3-tuple") in
  match
    match values with
    | RList items => inr (DList items)
    | RTuple elems =>
        if bool_decide (length elems ∈ seq 2 2) then inr (DTuple elems)
        else inl bad_values
    | ROther => inl bad_values
    end
  with
  | inl e => inl e
  | inr values =>
  match ro_transform option with
  | None => inl (AssertionError ("missing " +:+ key +:+ " transform for " +:+ svc_id))
  | Some transform =>
      let label := if endswith_colon label then label else label +:+ ":" in
      let values :=
        match ro_default option, values with
        | Some d, DList items => DList (annotate_default d items)
        | _, _ => values
        end in
      inr (SvcOption key label values transform (ro_default option))
  end end end end end.

(** The body of [if 'options' not in service:] in [_fetch_options] *)
Definition build_options (svc_id : string) (inst : instance) : M unit :=
  _ <- update_service svc_id (set_options []) ;;
  _ <- emit (EvOptions svc_id) ;;
  r <- get ;;
  for_each (inst_options inst) (fun option =>
    checked <- lift (check_option (normalize (_services r)) svc_id option) ;;
    update_service svc_id (append_option checked)).

(** [Router._fetch_options] *)
Definition _fetch_options (svc_id : string) : M (string * service) :=
  fetched <- _fetch_service svc_id ;;
  let svc_id := fetched.1 in
  _ <- match svc_options fetched.2, svc_instance fetched.2 with
       | None, Some (Some inst) => build_options svc_id inst
       | _, _ => ret tt
       end ;;
  r <- get ;;
  match lookup (_services r) !! svc_id with
  | Some service => ret (svc_id, service)
  | None => raise (KeyError svc_id)
  end.

(** ** Validation: [_validate_text], [_validate_options],
       [_validate_service], [_validate_path] *)

(** [Router._validate_text] *)
Definition _validate_text (text : string) : M string :=
  r <- get ;;
  let text := textize (_services r) text in
  if String.eqb text "" then raise (ValueError "The input text must be set.")
  else ret text.

Definition invalid_value (raw : value) (key why : string) : string :=
  "invalid value '" +:+ str raw +:+ "' for '" +:+ key +:+ "' attribute (" +:+ why +:+ ")".

Definition not_an_option (raw : value) (key : string) (legal : list string) : string :=
  "'" +:+ str raw +:+ "' is not an option for '" +:+ key +:+ "' attribute (try "
    +:+ String.concat ", " legal +:+ ")".

Definition is_required (key : string) : string :=
  "'" +:+ key +:+ "' attribute is required".

(** One turn of the loop of [_validate_options], on the options dict and
    the problems so far.  An exception that the loop does not catch ends
    it. *)
Definition validate_option (svc_option : svc_option)
    (st : Dict.t value * list string) : exn + (Dict.t value * list string) :=
  let options := st.1 in
  let problems := st.2 in
  let key := opt_key svc_option in
  match Dict.get key options with
  | Some raw =>
      match opt_transform svc_option raw with
      | inl (ValueError why) => inr (options, (problems ++ [invalid_value raw key why])%list)
      | inl e => inl e
      | inr transformed_value =>
          match opt_values svc_option with
          | DTuple (lo :: hi :: _) =>
              if (value_ltb transformed_value lo || value_ltb hi transformed_value)%bool
              then
                match fmt_d lo, fmt_d hi with
                | Some slo, Some shi =>
                    inr (options,
                         (problems ++ [invalid_value raw key ("outside of " +:+ slo +:+ ".." +:+ shi)])%list)
                | _, _ => inl (TypeError "%d format: a number is required")
                end
              else inr (Dict.set key transformed_value options, problems)
          | DTuple _ => inl (IndexError "tuple index out of range")
          | DList items =>
              if existsb (fun item : value * string => value_eqb item.1 transformed_value) items
              then inr (Dict.set key transformed_value options, problems)
              else
                match mapM as_str items.*1 with
                | Some legal => inr (options, (problems ++ [not_an_option raw key legal])%list)
                | None => inl (TypeError "sequence item: expected string")
                end
          end
      end
  | None =>
      match opt_default svc_option with
      | Some d => inr (Dict.set key d options, problems)
      | None => inr (options, (problems ++ [is_required key])%list)
      end
  end.

(** [Router._validate_options]: the options dict as the loop leaves it,
    and the problems it returns. *)
Fixpoint _validate_options (options : Dict.t value) (problems : list string)
    (svc_options : list svc_option) : exn + (Dict.t value * list string) :=
  match svc_options with
  | [] => inr (options, problems)
  | svc_option :: rest =>
      match validate_option svc_option (options, problems) with
      | inl e => inl e
      | inr st => _validate_options st.1 st.2 rest
      end
  end.

(** The dict comprehension of [_validate_service]: keys normalized,
    unknown keys dropped. *)
Definition known_options (norm : string -> string) (svc_options : list svc_option)
    (options : Dict.t value) : Dict.t value :=
  Dict.of_items
    (filter (fun kv : string * value => kv.1 ∈ map opt_key svc_options)
            (map (fun kv : string * value => (norm kv.1, kv.2)) options)).

(** [Router._validate_service] *)
Definition _validate_service (svc_id : string) (options : Dict.t value)
    : M (string * service * Dict.t value) :=
  fetched <- _fetch_options svc_id ;;
  let svc_id := fetched.1 in
  let service := fetched.2 in
  r <- get ;;
  svc_options <- match svc_options service with
                 | Some os => ret os
                 | None => raise (KeyError "options")
                 end ;;
  let options := known_options (normalize (_services r)) svc_options options in
  validated <- lift (_validate_options options [] svc_options) ;;
  match validated.2 with
  | [] => ret (svc_id, service, validated.1)
  | problems =>
      raise (ValueError
        ("Running the '" +:+ svc_id +:+ "' (" +:+ svc_name service +:+ ") service failed: "
           +:+ String.concat "; " problems +:+ "."))
  end.

Definition already_busy (svc_id path : string) : string :=
  "The '" +:+ svc_id +:+ "' service is already busy processing " +:+ path +:+ ".".

(** [Router._validate_path] *)
Definition _validate_path (svc_id text : string) (options : Dict.t value) : M string :=
  r <- get ;;
  let path := _path_cache (_cache_dir r) svc_id text options in
  if bool_decide (path ∈ _busy r)
  then raise (BusyError (already_busy svc_id path))
  else ret path.

(** ** The pool: [_Pool.spawn], [_Pool._on_signal] *)

(** [_Pool.spawn] *)
Definition spawn (t : task) (callback : completion) : M unit :=
  _ <- modify (set_pool (fun p =>
         let id := S (_next_id p) in
         Pool id (<[id := callback]> (_callbacks p)) (<[id := t]> (_workers p)))) ;;
  r <- get ;;
  emit (EvSpawn (_next_id (_pool r)) t).

(** [if 'done' in callbacks: callbacks['done']()] *)
Definition call_done (cbs : callbacks) : M unit :=
  if cb_done cbs then emit (EvDone (cb_id cbs)) else ret tt.

(** [list.remove(x)]: the first occurrence goes *)
Fixpoint list_remove (x : string) (l : list string) : list string :=
  match l with
  | [] => []
  | y :: l' => if String.eqb x y then l' else y :: list_remove x l'
  end.

(** The [callback] lambda of [Router.__call__], called with the worker's
    exception ([None] when the task returned). *)
Definition call_completion (c : completion) (exception : option exn) : M unit :=
  let path := c_path c in
  let cbs := c_callbacks c in
  r <- get ;;
  _ <- (if bool_decide (path ∈ _busy r) then modify (set_busy (list_remove path))
        else raise (ValueError "list.remove(x): x not in list")) ;;
  _ <- call_done cbs ;;
  match exception with
  | Some e =>
      _ <- emit (EvFail (cb_id cbs) e) ;;
      if cb_fail_result cbs e then ret tt else emit (EvOkay (cb_id cbs) path)
  | None => emit (EvOkay (cb_id cbs) path)
  end.

(** [_Pool._on_signal] *)
Definition _on_signal (worker_id : nat) (exception : option exn) : M unit :=
  r <- get ;;
  match _callbacks (_pool r) !! worker_id with
  | None => raise (KeyError "worker_id")
  | Some callback =>
      _ <- call_completion callback exception ;;
      modify (set_pool (fun p =>
        Pool (_next_id p) (delete worker_id (_callbacks p)) (delete worker_id (_workers p))))
  end.

(** ** Dispatch: [Router.__call__] *)

(** The [try] block of [__call__].  [on_disk] is what [os.path.exists]
    answers while the call runs. *)
Definition parse_call (on_disk : string -> bool) (svc_id text : string)
    (options : Dict.t value) : M (task * bool) :=
  text <- _validate_text text ;;
  validated <- _validate_service svc_id options ;;
  let svc_id := validated.1.1 in
  let options := validated.2 in
  path <- _validate_path svc_id text options ;;
  _ <- emit (EvExists path) ;;
  ret (Task svc_id text options path, on_disk path).

(** [Router.__call__] *)
Definition __call__ (on_disk : string -> bool) (svc_id text : string)
    (options : Dict.t value) (cbs : callbacks) : M unit :=
  parsed <- attempt (parse_call on_disk svc_id text options) ;;
  match parsed with
  | inl exception =>
      _ <- call_done cbs ;;
      emit (EvFail (cb_id cbs) exception)
  | inr (t, cache_hit) =>
      let path := t_path t in
      if cache_hit : bool then
        _ <- call_done cbs ;;
        emit (EvOkay (cb_id cbs) path)
      else
        _ <- modify (set_busy (fun busy => (busy ++ [path])%list)) ;;
        spawn t (Completion path cbs)
  end.

(** ** Introspection: [by_trait], [get_services], [get_desc], [get_options] *)

(** [Router.by_trait] *)
Definition by_trait (trait : nat) (r : router) : list string :=
  map (fun kv : string * service => svc_name kv.2)
      (filter (fun kv : string * service => trait ∈ svc_traits kv.2)
              (map_to_list (lookup (_services r)))).

Definition lower_ascii (c : ascii) : ascii :=
  let n := nat_of_ascii c in
  if ((65 <=? n) && (n <=? 90))%nat then ascii_of_nat (n + 32) else c.

(** [str.lower] *)
Fixpoint lower (s : string) : string :=
  match s with
  | EmptyString => EmptyString
  | String c s' => String (lower_ascii c) (lower s')
  end.

(** [Router.get_services] *)
Definition get_services : M (list (string * string)) :=
  r <- get ;;
  match avail (_services r) with
  | Some (a :: rest) => ret (a :: rest)
  | _ =>
      _ <- for_each (map_to_list (lookup (_services r))).*1 _load_service ;;
      r' <- get ;;
      let found :=
        sorted (fun a b : string * string => String.ltb (lower a.2) (lower b.2))
          (omap (fun kv : string * service =>
                   match svc_instance kv.2 with
                   | Some (Some _) => Some (kv.1, svc_name kv.2)
                   | _ => None
                   end)
                (map_to_list (lookup (_services r')))) in
      _ <- modify (set_avail found) ;;
      ret found
  end.

(** [Router.get_desc] *)
Definition get_desc (svc_id : string) : M string :=
  fetched <- _fetch_service svc_id ;;
  match svc_desc fetched.2, svc_instance fetched.2 with
  | Some d, _ => ret d
  | None, Some (Some inst) =>
      _ <- emit (EvDesc fetched.1) ;;
      _ <- update_service fetched.1 (set_desc (inst_desc inst)) ;;
      ret (inst_desc inst)
  | None, _ => raise (KeyError "instance")
  end.

(** [Router.get_options] *)
Definition get_options (svc_id : string) : M (list svc_option) :=
  fetched <- _fetch_options svc_id ;;
  match svc_options fetched.2 with
  | Some os => ret os
  | None => raise (KeyError "options")
  end.

(** ** Everything that can happen to a router *)

(** A call of a public method, or a worker thread's signal reaching the
    pool. *)
Inductive op : Type :=
  | ByTrait (trait : nat)
  | GetServices
  | GetDesc (svc_id : string)
  | GetOptions (svc_id : string)
  | Call (on_disk : string -> bool) (svc_id text : string)
         (options : Dict.t value) (cbs : callbacks)
  | Signal (worker_id : nat) (exception : option exn).

Definition void {A} (m : M A) : M unit := _ <- m ;; ret tt.

Definition run_op (o : op) : M unit :=
  match o with
  | ByTrait trait => ret tt
  | GetServices => void get_services
  | GetDesc svc_id => void (get_desc svc_id)
  | GetOptions svc_id => void (get_options svc_id)
  | Call on_disk svc_id text options cbs => __call__ on_disk svc_id text options cbs
  | Signal worker_id exception => _on_signal worker_id exception
  end.

(** A run of operations; an exception ends the operation that raised it,
    not the run. *)
Definition run_ops (os : list op) : M unit :=
  for_each os (fun o => void (attempt (run_op o))).

End Router.

Arguments Outcome {_ A} _ _ _.
Arguments result {_ A} _.
Arguments final {_ A} _.
Arguments emitted {_ A} _.

Arguments bind : simpl never.
Arguments get : simpl never.
Arguments modify : simpl never.
Arguments emit : simpl never.
Arguments lift : simpl never.
Arguments attempt : simpl never.
Arguments _load_service : simpl never.
Arguments _fetch_service : simpl never.
Arguments _fetch_options : simpl never.
Arguments build_options : simpl never.
Arguments _validate_text : simpl never.
Arguments _validate_service : simpl never.
Arguments _validate_path : simpl never.
Arguments _path_cache : simpl never.
Arguments parse_call : simpl never.
Arguments __call__ : simpl never.
Arguments spawn : simpl never.
Arguments call_done : simpl never.
Arguments call_completion : simpl never.
Arguments _on_signal : simpl never.
Arguments get_desc : simpl never.
Arguments get_options : simpl never.
Arguments get_services : simpl never.
Arguments update_service : simpl never.

Notation "x <- m ;; k" := (bind m (fun x => k))
  (at level 100, m at next level, right associativity).

(** ** Vocabulary of the properties *)

Section Vocabulary.
Context `{PyValues}.

(** In state [r], the request [(svc_id, text, options)] passes validation
    without anything left to load, and [t] is the task it stands for:
    the normalized text, the service key, the validated options and the
    cache path. *)
Definition resolves (r : router) (svc_id text : string) (options : Dict.t value)
    (t : task) : Prop :=
  exists s inst os,
    t_text t = textize (_services r) text /\
    t_text t <> "" /\
    t_svc_id t = resolve_id r svc_id /\
    lookup (_services r) !! t_svc_id t = Some s /\
    svc_instance s = Some (Some inst) /\
    svc_options s = Some os /\
    _validate_options (known_options (normalize (_services r)) os options) [] os
      = inr (t_options t, []) /\
    t_path t = _path_cache (_cache_dir r) (t_svc_id t) (t_text t) (t_options t).

(** The loop of [_fetch_options] as a fold: the options appended to
    ['options'] when the loop ends, and the assertion that ended it, if
    one did. *)
Fixpoint check_options (norm : string -> string) (svc_id : string)
    (options : list raw_option) (acc : list svc_option)
    : (exn + unit) * list svc_option :=
  match options with
  | [] => (inr tt, acc)
  | option :: rest =>
      match check_option norm svc_id option with
      | inl e => (inl e, acc)
      | inr checked => check_options norm svc_id rest (acc ++ [checked])
      end
  end.

(** The events of [if 'done' in callbacks: callbacks['done']()] *)
Definition done_events (cbs : callbacks) : list event :=
  if cb_done cbs then [EvDone (cb_id cbs)] else [].

Definition is_callback (ev : event) : Prop :=
  match ev with
  | EvDone _ | EvOkay _ _ | EvFail _ _ => True
  | _ => False
  end.


Definition is_spawn (ev : event) : Prop :=
  match ev with
  | EvSpawn _ _ => True
  | _ => False
  end.


(** The in-flight list and the pool agree: no path is listed twice, each
    pending callback is for a listed path, no two are for the same path,
    and worker ids above [_next_id] are unused. *)
Definition consistent (r : router) : Prop :=
  NoDup (_busy r) /\
  (forall w c, _callbacks (_pool r) !! w = Some c ->
     c_path c ∈ _busy r /\ w <= _next_id (_pool r)) /\
  (forall w1 w2 c1 c2,
     _callbacks (_pool r) !! w1 = Some c1 ->
     _callbacks (_pool r) !! w2 = Some c2 ->
     c_path c1 = c_path c2 -> w1 = w2).

(** Run from [r], [m] ends in a state where [I] holds and emits only
    events in [E], whether it returns or raises. *)
Definition keeps_at {A} (I : router -> Prop) (E : event -> Prop) (m : M A)
    (r : router) : Prop :=
  I (final (m r)) /\ Forall E (emitted (m r)).

(** [m] keeps the invariant [I] and emits only events in [E]. *)
Definition keeps {A} (I : router -> Prop) (E : event -> Prop) (m : M A) : Prop :=
  forall r, I r -> keeps_at I E m r.

(** The service at [k] has its ['instance'] key, set to [i]. *)
Definition loaded (k : string) (i : option instance) (r : router) : Prop :=
  exists s, lookup (_services r) !! k = Some s /\ svc_instance s = Some i.


Definition any_event (ev : event) : Prop := True.

(** The events of the registry. *)
Definition is_registry (ev : event) : Prop :=
  match ev with
  | EvLookup _ | EvInit _ | EvOptions _ | EvDesc _ => True
  | _ => False
  end.

(** The events that neither call the caller back nor start a worker. *)
Definition is_internal (ev : event) : Prop :=
  match ev with
  | EvLookup _ | EvInit _ | EvOptions _ | EvDesc _ | EvExists _ => True
  | _ => False
  end.

(** [r'] is [r] with nothing settled undone: the configuration is the
    same, and a service keeps the ['instance'] and the ['options'] it
    has. *)
Definition settled (r r' : router) : Prop :=
  _cache_dir r' = _cache_dir r /\
  aliases (_services r') = aliases (_services r) /\
  normalize (_services r') = normalize (_services r) /\
  textize (_services r') = textize (_services r) /\
  forall k s, lookup (_services r) !! k = Some s ->
    exists s', lookup (_services r') !! k = Some s' /\
      (forall i, svc_instance s = Some i -> svc_instance s' = Some i) /\
      (forall os, svc_options s = Some os -> svc_options s' = Some os).

(** What the registry methods leave alone. *)
Definition same_frame (r0 r : router) : Prop :=
  _busy r = _busy r0 /\ _cache_dir r = _cache_dir r0 /\ _pool r = _pool r0 /\
  aliases (_services r) = aliases (_services r0) /\
  normalize (_services r) = normalize (_services r0) /\
  textize (_services r) = textize (_services r0).

(** An option that passes the assertions of [_fetch_options]. *)
Definition well_declared (norm : string -> string) (option : raw_option) : Prop :=
  (exists key, ro_key option = Some key /\ norm key = key) /\
  is_Some (ro_label option) /\
  ((exists items, ro_values option = Some (RList items)) \/
   (exists elems, ro_values option = Some (RTuple elems) /\
                  (length elems = 2 \/ length elems = 3))) /\
  is_Some (ro_transform option).

(** The order of two items of a dict: that of their keys. *)
Definition key_lt (a b : string * value) : Prop := String.ltb a.1 b.1 = true.

(** The router once [__call__] has put [t] in flight for [cbs]. *)
Definition in_flight (t : task) (cbs : callbacks) (r : router) : router :=
  set_pool (fun p =>
      let id := S (_next_id p) in
      Pool id (<[id := Completion (t_path t) cbs]> (_callbacks p)) (<[id := t]> (_workers p)))
    (set_busy (fun busy => busy ++ [t_path t])%list r).

Definition is_signal (w : nat) (o : op) : Prop :=
  match o with
  | Signal w' _ => w' = w
  | _ => False
  end.

(** [v] is a value that the option accepts: one of the listed values,
    or a value inside the range. *)
Definition legal (o : svc_option) (v : value) : Prop :=
  match opt_values o with
  | DList items => existsb (fun item : value * string => value_eqb item.1 v) items = true
  | DTuple (lo :: hi :: _) => value_ltb v lo = false /\ value_ltb hi v = false
  | DTuple _ => False
  end.

(** What [by_trait] reads of the service table: the names and traits that
    [__init__] wrote. *)
Definition static_view (r : router) : gmap string (string * list nat) :=
  (fun s => (svc_name s, svc_traits s)) <$> lookup (_services r).

(** An event of the registry that is about the service at [k]. *)
Definition about (k : string) (ev : event) : Prop :=
  match ev with
  | EvLookup k' | EvInit k' | EvOptions k' | EvDesc k' => k' = k
  | _ => False
  end.

(** Any event but one about the service at [k]. *)
Definition unrelated (k : string) (ev : event) : Prop := ~ about k ev.

(** [r] is [r0] as far as the service at [k] and the resolution of ids
    go. *)
Definition untouched (k : string) (r0 r : router) : Prop :=
  lookup (_services r) !! k = lookup (_services r0) !! k /\
  aliases (_services r) = aliases (_services r0) /\
  normalize (_services r) = normalize (_services r0).

(** The service at [k] has its ['options'] key. *)
Definition has_options (k : string) (r : router) : Prop :=
  exists s os, lookup (_services r) !! k = Some s /\ svc_options s = Some os.

(** Any event but a call of [options()] on the service at [k]. *)
Definition not_options (k : string) (ev : event) : Prop := ev <> EvOptions k.

(** Either [m], run from [r], does not call [options()] on the service
    at [k], or it leaves the service with its ['options'] key. *)
Definition options_once {A} (k : string) (m : M A) (r : router) : Prop :=
  Forall (not_options k) (emitted (m r)) \/ has_options k (final (m r)).

(** The ids of the workers started, in the order of their start. *)
Definition spawned (evs : list event) : list nat :=
  omap (fun ev => match ev with EvSpawn w _ => Some w | _ => None end) evs.

(** What the completion callback of [__call__] tells the caller. *)
Definition verdict (cbs : callbacks) (path : string) (exception : option exn)
    : list event :=
  match exception with
  | Some e =>
      EvFail (cb_id cbs) e ::
      (if cb_fail_result cbs e then [] else [EvOkay (cb_id cbs) path])
  | None => [EvOkay (cb_id cbs) path]
  end.

(** Every path in flight has a pending worker. *)
Definition covered (r : router) : Prop :=
  forall p, p ∈ _busy r ->
    exists w c, _callbacks (_pool r) !! w = Some c /\ c_path c = p.

(** The service that an operation names, once resolved in [r]. *)
Definition names (r : router) (o : op) : option string :=
  match o with
  | GetDesc svc_id | GetOptions svc_id | Call _ svc_id _ _ _ => Some (resolve_id r svc_id)
  | _ => None
  end.

End Vocabulary.

(** ** What the package gives the router ([awesometts/__init__.py])

    The add-on builds its router with [normalize=TO_NORMALIZED] and
    [textize=STRIP_ALL], and [STRIP_ALL] ends with [STRIP_WHITESPACE].
    Strings are Python 2 byte strings here, and the character classes
    those of the C locale. *)

(** [char.isalpha()] *)
Definition isalpha (c : ascii) : bool :=
  let n := nat_of_ascii c in
  (((65 <=? n) && (n <=? 90)) || ((97 <=? n) && (n <=? 122)))%nat.

(** [char.isdigit()] *)
Definition isdigit (c : ascii) : bool :=
  let n := nat_of_ascii c in ((48 <=? n) && (n <=? 57))%nat.

(** [TO_NORMALIZED] *)
Fixpoint TO_NORMALIZED (value : string) : string :=
  match value with
  | EmptyString => EmptyString
  | String char rest =>
      if (isalpha char || isdigit char)%bool
      then String (lower_ascii char) (TO_NORMALIZED rest)
      else TO_NORMALIZED rest
  end.

(** What [\s] matches, and what [strip()] strips: space, [\t], [\n],
    [\v], [\f] and [\r]. *)
Definition isspace (c : ascii) : bool :=
  let n := nat_of_ascii c in ((n =? 32) || ((9 <=? n) && (n <=? 13)))%nat.

(** [RE_WHITESPACE.sub(' ', text)]: every maximal run of whitespace
    becomes one space.  [in_run] says that the character before was
    whitespace. *)
Fixpoint sub_whitespace (in_run : bool) (text : string) : string :=
  match text with
  | EmptyString => EmptyString
  | String c rest =>
      if isspace c
      then if in_run then sub_whitespace true rest
           else String " " (sub_whitespace true rest)
      else String c (sub_whitespace false rest)
  end.

(** [s.lstrip()] *)
Fixpoint py_lstrip (s : string) : string :=
  match s with
  | EmptyString => EmptyString
  | String c rest => if isspace c then py_lstrip rest else s
  end.

(** [s.rstrip()] *)
Fixpoint py_rstrip (s : string) : string :=
  match s with
  | EmptyString => EmptyString
  | String c rest =>
      match py_rstrip rest with
      | EmptyString => if isspace c then EmptyString else String c EmptyString
      | stripped => String c stripped
      end
  end.

(** [s.strip()] *)
Definition py_strip (s : string) : string := py_rstrip (py_lstrip s).

(** [STRIP_WHITESPACE] *)
Definition STRIP_WHITESPACE (text : string) : string :=
  py_strip (sub_whitespace false text).

(** Digits and lowercase letters only. *)
Fixpoint plain (s : string) : bool :=
  match s with
  | EmptyString => true
  | String c rest =>
      let n := nat_of_ascii c in
      ((((48 <=? n) && (n <=? 57)) || ((97 <=? n) && (n <=? 122)))%nat && plain rest)%bool
  end.

Definition starts_with_space (s : string) : bool :=
  match s with
  | EmptyString => false
  | String c _ => isspace c
  end.

Fixpoint ends_with_space (s : string) : bool :=
  match s with
  | EmptyString => false
  | String c EmptyString => isspace c
  | String _ rest => ends_with_space rest
  end.

(** Whitespace is single spaces only. *)
Fixpoint single_spaced (s : string) : bool :=
  match s with
  | EmptyString => true
  | String c rest =>
      ((if isspace c then Ascii.eqb c " " && negb (starts_with_space rest) else true)
       && single_spaced rest)%bool
  end.

(** Words separated by single spaces, and nothing around them. *)
Definition tidy (s : string) : bool :=
  (single_spaced s && negb (starts_with_space s) && negb (ends_with_space s))%bool.

(** The characters that are not whitespace, in their order. *)
Fixpoint ink (s : string) : string :=
  match s with
  | EmptyString => EmptyString
  | String c rest => if isspace c then ink rest else String c (ink rest)
  end.

(** ** The reviewer ([awesometts/classes/gui/reviewer.py])

    [Reviewer.play_html] is the caller of the router during reviews.
    What BeautifulSoup finds in the HTML is given: the [<tts>] tags in
    their order. *)

Section Reviewer.
Context `{PyValues}.










End Reviewer.

(** ** A concrete world to run the router in

    Option values are integers and strings; the digest is a stand-in that
    returns its input, which keeps the paths below readable.  The [acme]
    service is the one of the usage scenarios: a [voice] chosen from a
    list and a [rate] in a range, neither with a default; [acme2] adds
    defaults; [broken] fails to initialize; [sloppy] declares an empty
    list of values. *)

Module Acme.

Inductive pyval : Type :=
  | PyInt (n : Z)
  | PyStr (s : string).

Definition pyval_eqb (a b : pyval) : bool :=
  match a, b with
  | PyInt x, PyInt y => Z.eqb x y
  | PyStr x, PyStr y => String.eqb x y
  | _, _ => false
  end.

(** Python 2 puts numbers before strings. *)
Definition pyval_ltb (a b : pyval) : bool :=
  match a, b with
  | PyInt x, PyInt y => Z.ltb x y
  | PyStr x, PyStr y => String.ltb x y
  | PyInt _, PyStr _ => true
  | PyStr _, PyInt _ => false
  end.

Definition digit_of (c : ascii) : option Z :=
  match c with
  | "0"%char => Some 0%Z | "1"%char => Some 1%Z | "2"%char => Some 2%Z
  | "3"%char => Some 3%Z | "4"%char => Some 4%Z | "5"%char => Some 5%Z
  | "6"%char => Some 6%Z | "7"%char => Some 7%Z | "8"%char => Some 8%Z
  | "9"%char => Some 9%Z
  | _ => None
  end.

Fixpoint digits_value (acc : Z) (s : string) : option Z :=
  match s with
  | EmptyString => Some acc
  | String c s' =>
      match digit_of c with
      | Some d => digits_value (10 * acc + d) s'
      | None => None
      end
  end.

Fixpoint decimal (fuel : nat) (n : Z) (acc : string) : string :=
  match fuel with
  | O => acc
  | S fuel' =>
      let acc' := String (ascii_of_nat (Z.to_nat (48 + n mod 10))) acc in
      if (n <? 10)%Z then acc' else decimal fuel' (n / 10) acc'
  end.

Definition pyval_str (v : pyval) : string :=
  match v with
  | PyInt n =>
      if (n <? 0)%Z then "-" +:+ decimal (Z.to_nat (- n)) (- n) ""
      else decimal (S (Z.to_nat n)) n ""
  | PyStr s => s
  end.

(** [int] as a transform *)
Definition to_int (v : pyval) : exn + pyval :=
  match v with
  | PyInt n => inr (PyInt n)
  | PyStr EmptyString => inl (ValueError "invalid literal for int() with base 10: ''")
  | PyStr s =>
      match digits_value 0 s with
      | Some n => inr (PyInt n)
      | None => inl (ValueError ("invalid literal for int() with base 10: '" +:+ s +:+ "'"))
      end
  end.

#[export] Instance values : PyValues := {|
  value := pyval;
  value_eqb := pyval_eqb;
  value_ltb := pyval_ltb;
  str := pyval_str;
  fmt_d := fun v => match v with PyInt _ => Some (pyval_str v) | PyStr _ => None end;
  as_str := fun v => match v with PyStr s => Some s | PyInt _ => None end;
  sha1_hexdigest := fun s => s;
|}.

Definition voice : raw_option :=
  RawOption (Some "voice") (Some "Voice")
    (Some (RList [(PyStr "en", "English"); (PyStr "fr", "French")]))
    (Some (fun v => inr v)) None.

Definition rate : raw_option :=
  RawOption (Some "rate") (Some "Rate:")
    (Some (RTuple [PyInt 1; PyInt 10])) (Some to_int) None.

Definition voice_en : raw_option :=
  RawOption (Some "voice") (Some "Voice")
    (Some (RList [(PyStr "en", "English"); (PyStr "fr", "French")]))
    (Some (fun v => inr v)) (Some (PyStr "en")).

Definition rate_5 : raw_option :=
  RawOption (Some "rate") (Some "Rate:")
    (Some (RTuple [PyInt 1; PyInt 10])) (Some to_int) (Some (PyInt 5)).

Definition no_choice : raw_option :=
  RawOption (Some "voice") (Some "Voice") (Some (RList [])) (Some (fun v => inr v)) None.

Definition keep_alnum_lower (s : string) : string :=
  let fix go (s : string) : string :=
    match s with
    | EmptyString => EmptyString
    | String c s' =>
        let n := nat_of_ascii c in
        if (((48 <=? n) && (n <=? 57)) || ((65 <=? n) && (n <=? 90))
            || ((97 <=? n) && (n <=? 122)))%nat
        then String (lower_ascii c) (go s')
        else go s'
    end in
  go s.

(** Drops leading spaces: all that is needed of [STRIP_ALL] here. *)
Fixpoint lstrip (s : string) : string :=
  match s with
  | String " " s' => lstrip s'
  | _ => s
  end.

Definition the_bundle : bundle :=
  Bundle
    [ ("acme", SvcClass (Some "Acme") None (inr (Instance [voice; rate] "Acme TTS")));
      ("acme2", SvcClass None None (inr (Instance [voice_en; rate_5] "Acme TTS, with defaults")));
      ("broken", SvcClass (Some "Broken") None (inl (EnvironmentError "no binary")));
      ("sloppy", SvcClass (Some "Sloppy") None (inr (Instance [no_choice] "One choice"))) ]
    [ ("a", "acme") ]
    keep_alnum_lower lstrip.

Definition fresh : router := __init__ the_bundle "cache".

Definition cold : string -> bool := fun _ => false.
Definition warm : string -> bool := fun _ => true.

Definition hello : Dict.t value := [("voice", PyStr "en"); ("rate", PyStr "5")].

(** A caller whose ['fail'] callback returns [None], as they all do. *)
Definition caller (id : nat) : callbacks := Callbacks id true (fun _ => false).

(** The task that [hello] stands for with the [acme] service. *)
Definition hello_task : task :=
  Task "acme" "Hello" [("voice", PyStr "en"); ("rate", PyInt 5)]
       "cache/acme-Hello/acme/rate=5;voice=en.mp3".

(** A request that leaves [rate] to its default, and its task. *)
Definition bonjour : Dict.t value := [("Voice", PyStr "fr")].

Definition bonjour_task : task :=
  Task "acme2" "Hello" [("voice", PyStr "fr"); ("rate", PyInt 5)]
       "cache/acme2-Hello/acme2/rate=5;voice=fr.mp3".

Definition acme_instance : instance := Instance [voice; rate] "Acme TTS".

Definition acme_schema : list svc_option :=
  [ SvcOption "voice" "Voice:" (DList [(PyStr "en", "English"); (PyStr "fr", "French")])
      (fun v => inr v) None;
    SvcOption "rate" "Rate:" (DTuple [PyInt 1; PyInt 10]) to_int None ].

Definition acme_ready : service :=
  Service (SvcClass (Some "Acme") None (inr acme_instance))
    "Acme" [] (Some (Some acme_instance)) (Some acme_schema) None.

Definition rate_5_checked : svc_option :=
  SvcOption "rate" "Rate:" (DTuple [PyInt 1; PyInt 10]) to_int (Some (PyInt 5)).

Definition acme2_schema : list svc_option :=
  [ SvcOption "voice" "Voice:"
      (DList [(PyStr "en", "English [default]"); (PyStr "fr", "French")])
      (fun v => inr v) (Some (PyStr "en"));
    rate_5_checked ].

Definition acme2_ready : service :=
  Service (SvcClass None None (inr (Instance [voice_en; rate_5] "Acme TTS, with defaults")))
    "acme2" [] (Some (Some (Instance [voice_en; rate_5] "Acme TTS, with defaults")))
    (Some acme2_schema) None.

Definition broken_class : svc_class :=
  SvcClass (Some "Broken") None (inl (EnvironmentError "no binary")).

Definition sloppy_instance : instance := Instance [no_choice] "One choice".

Definition sloppy_loaded : service :=
  Service (SvcClass (Some "Sloppy") None (inr sloppy_instance))
    "Sloppy" [] (Some (Some sloppy_instance)) None None.

(** What else goes on between two calls. *)
Definition meanwhile : list op :=
  [ GetServices; Call cold "acme2" "Hello" bonjour (caller 7); Signal 7 None;
    GetDesc "acme" ].

(** The [rate] of [acme], checked. *)
Definition rate_checked : svc_option :=
  SvcOption "rate" "Rate:" (DTuple [PyInt 1; PyInt 10]) to_int None.

(** The router once the options of [acme] have been asked for, and once
    [broken] has failed to initialize. *)
Definition acme_asked : router := final (get_options "acme" fresh).

Definition broken_tried : router := final (_load_service "broken" fresh).

Definition broken_failed : service :=
  Service broken_class "Broken" [] (Some None) None None.

(** [hello] spelled otherwise, [hello] with an option that [acme] does
    not declare, and [hello] without its [rate]. *)
Definition hello_shouted : Dict.t value := [("Voice", PyStr "en"); ("RATE", PyStr "5")].

Definition hello_and_more : Dict.t value := ("speed", PyStr "9") :: hello.

Definition hello_without_rate : Dict.t value := [("voice", PyStr "en")].

(** A service whose second option has no label, on its own in a
    router, initialized. *)
Definition unlabelled : raw_option :=
  RawOption (Some "pitch") None (Some (RTuple [PyInt 1; PyInt 2])) (Some to_int) None.

Definition half_instance : instance := Instance [voice; unlabelled] "Half a schema".

Definition half_class : svc_class := SvcClass (Some "Half") None (inr half_instance).

Definition half_started : router :=
  final (_load_service "half" (__init__ (Bundle [("half", half_class)] [] keep_alnum_lower lstrip) "cache")).

Definition half_loaded : service :=
  Service half_class "Half" [] (Some (Some half_instance)) None None.

Definition voice_checked : svc_option :=
  SvcOption "voice" "Voice:" (DList [(PyStr "en", "English"); (PyStr "fr", "French")])
    (fun v => inr v) None.





End Acme.

(** * Properties *)

(** ** Sorting the items of a dict *)

Section SortedItems.
Context `{PyValues}.

Lemma ltb_lt (a b : string) : String.ltb a b = true <-> String_as_OT.lt a b.
Proof.
  rewrite <- String_as_OT.cmp_lt. unfold String.ltb, String_as_OT.cmp.
  destruct (String.compare a b); split; congruence.
Qed.

Lemma ltb_trans (a b c : string) :
  String.ltb a b = true -> String.ltb b c = true -> String.ltb a c = true.
Proof. rewrite !ltb_lt. apply String_as_OT.lt_trans. Qed.

Lemma ltb_irrefl (a : string) : String.ltb a a = false.
Proof.
  destruct (String.ltb a a) eqn:E; [|done].
  apply ltb_lt, String_as_OT.lt_not_eq in E. by destruct E.
Qed.

Lemma ltb_connected (a b : string) :
  a <> b -> String.ltb a b = false -> String.ltb b a = true.
Proof.
  unfold String.ltb. rewrite (String.compare_antisym b a).
  destruct (String.compare a b) eqn:E; simpl; try done.
  intros Hne _. by apply String.compare_eq_iff in E.
Qed.

Lemma insert_sorted_perm {A} (lt : A -> A -> bool) x l :
  insert_sorted lt x l ≡ₚ x :: l.
Proof.
  induction l as [|y l IH]; simpl; [done|].
  destruct (lt x y); [done|]. rewrite IH. apply Permutation_swap.
Qed.

Lemma sorted_perm {A} (lt : A -> A -> bool) l : sorted lt l ≡ₚ l.
Proof.
  induction l as [|x l IH]; simpl; [done|].
  by rewrite insert_sorted_perm, IH.
Qed.

Lemma item_ltb_keys (a b : string * value) :
  a.1 <> b.1 -> item_ltb a b = String.ltb a.1 b.1.
Proof.
  intros Hne. unfold item_ltb.
  destruct (String.eqb_spec a.1 b.1); [done|done].
Qed.

Lemma insert_sorted_keys (x : string * value) l :
  x.1 ∉ l.*1 ->
  StronglySorted key_lt l -> StronglySorted key_lt (insert_sorted item_ltb x l).
Proof.
  induction l as [|y l IH]; simpl; intros Hx Hl.
  - repeat constructor.
  - apply not_elem_of_cons in Hx as [Hxy Hx].
    apply StronglySorted_inv in Hl as [Hl Hy].
    rewrite (item_ltb_keys x y Hxy).
    destruct (String.ltb x.1 y.1) eqn:E.
    + constructor; [by constructor|].
      constructor; [done|].
      eapply Forall_impl; [exact Hy|]. intros z Hz. by eapply ltb_trans.
    + constructor; [by apply IH|].
      rewrite insert_sorted_perm. constructor; [|done].
      by apply ltb_connected.
Qed.

Lemma sorted_keys (l : Dict.t value) :
  NoDup l.*1 -> StronglySorted key_lt (sorted item_ltb l).
Proof.
  induction l as [|x l IH]; simpl; intros Hnd; [constructor|].
  apply NoDup_cons in Hnd as [Hx Hnd].
  apply insert_sorted_keys; [|by apply IH].
  by rewrite (sorted_perm item_ltb l).
Qed.

Lemma sorted_items_perm (o1 o2 : Dict.t value) :
  NoDup o1.*1 -> o1 ≡ₚ o2 -> sorted item_ltb o1 = sorted item_ltb o2.
Proof.
  intros Hnd Hperm.
  apply (StronglySorted_unique_strong key_lt).
  - intros a b _ _ Hab Hba. unfold key_lt in *.
    pose proof (ltb_trans _ _ _ Hab Hba) as Haa.
    by rewrite ltb_irrefl in Haa.
  - by apply sorted_keys.
  - apply sorted_keys. by rewrite <- Hperm.
  - by rewrite !sorted_perm.
Qed.

(** C4. The cache path is a function of the cache directory, the service
    id, the text and the options as a set of items: two dicts that hold
    the same items in a different order get the same path. *)
Theorem path_cache_deterministic (cache_dir svc_id text : string)
    (options1 options2 : Dict.t value) :
  NoDup (Dict.keys options1) ->
  options1 ≡ₚ options2 ->
  _path_cache cache_dir svc_id text options1
  = _path_cache cache_dir svc_id text options2.
Proof.
  intros Hnd Hperm. unfold _path_cache, hash_input.
  by rewrite (sorted_items_perm options1 options2 Hnd Hperm).
Qed.

End SortedItems.

(** ** Invariants through the monad *)

Section Keeps.
Context `{PyValues} (I : router -> Prop) (E : event -> Prop).

Lemma keeps_ret {A} (a : A) : keeps I E (ret a).
Proof. intros r HI. by split. Qed.

Lemma keeps_raise {A} (e : exn) : keeps I E (raise (A:=A) e).
Proof. intros r HI. by split. Qed.

Lemma keeps_lift {A} (x : exn + A) : keeps I E (lift x).
Proof. intros r HI. by split. Qed.

Lemma keeps_get : keeps I E get.
Proof. intros r HI. by split. Qed.

Lemma keeps_emit ev : E ev -> keeps I E (emit ev).
Proof. intros Hev r HI. split; [done|]. by constructor. Qed.

Lemma keeps_modify f : (forall r, I r -> I (f r)) -> keeps I E (modify f).
Proof. intros Hf r HI. split; [by apply Hf|constructor]. Qed.

(** The rule for sequencing, with what is known of the first part's
    result and of the state it leaves. *)
Lemma keeps_at_bind {A B} (m : M A) (f : A -> M B) r :
  keeps_at I E m r ->
  (forall a, result (m r) = inr a -> I (final (m r)) ->
             keeps_at I E (f a) (final (m r))) ->
  keeps_at I E (bind m f) r.
Proof.
  intros [HI HE] Hf. unfold keeps_at, bind.
  destruct (result (m r)) as [e|a] eqn:Hres; simpl; [done|].
  destruct (Hf a eq_refl HI) as [HI' HE']. split; [done|].
  by apply Forall_app.
Qed.

Lemma keeps_bind {A B} (m : M A) (f : A -> M B) :
  keeps I E m -> (forall a, keeps I E (f a)) -> keeps I E (bind m f).
Proof.
  intros Hm Hf r HI. apply keeps_at_bind; [by apply Hm|].
  intros a _ HI'. by apply Hf.
Qed.

Lemma keeps_attempt {A} (m : M A) : keeps I E m -> keeps I E (attempt m).
Proof. intros Hm r HI. exact (Hm r HI). Qed.

Lemma keeps_void {A} (m : M A) : keeps I E m -> keeps I E (void m).
Proof. intros Hm. apply keeps_bind; [done|]. intros. apply keeps_ret. Qed.

Lemma keeps_for_each {A} (l : list A) (body : A -> M unit) :
  (forall x, x ∈ l -> keeps I E (body x)) -> keeps I E (for_each l body).
Proof.
  induction l as [|x l IH]; intros Hbody; simpl; [apply keeps_ret|].
  apply keeps_bind; [apply Hbody; left|].
  intros _. apply IH. intros y Hy. apply Hbody. by right.
Qed.

End Keeps.

Lemma keeps_weaken `{PyValues} {A} (I : router -> Prop) (E E' : event -> Prop) (m : M A) :
  (forall ev, E ev -> E' ev) -> keeps I E m -> keeps I E' m.
Proof.
  intros HE Hm r HI. destruct (Hm r HI) as [? Hev]. split; [done|].
  eapply Forall_impl; eauto.
Qed.

(** One step of a proof that a method keeps an invariant: follow the
    method's own structure. *)
Ltac keeps_step :=
  lazymatch goal with
  | |- keeps _ _ (bind _ _) => apply keeps_bind; [|intros ?]
  | |- keeps _ _ (ret _) => apply keeps_ret
  | |- keeps _ _ (raise _) => apply keeps_raise
  | |- keeps _ _ (lift _) => apply keeps_lift
  | |- keeps _ _ get => apply keeps_get
  | |- keeps _ _ (attempt _) => apply keeps_attempt
  | |- keeps _ _ (void _) => apply keeps_void
  | |- keeps _ _ (for_each _ _) => apply keeps_for_each; intros ? ?
  | |- keeps _ _ (emit _) => apply keeps_emit; try done
  | |- keeps _ _ (match ?x with _ => _ end) => destruct x eqn:?
  | |- keeps _ _ (let _ := _ in _) => cbv zeta
  end.

Ltac keeps_steps := repeat (keeps_step; simpl).

(** ** Running the monad *)

Section Running.
Context `{PyValues}.

Lemma outcome_eta {A} (o : outcome A) : Outcome (result o) (final o) (emitted o) = o.
Proof. by destruct o. Qed.

Lemma run_bind {A B} (m : M A) (f : A -> M B) r a r' ev :
  m r = Outcome (inr a) r' ev ->
  bind m f r = Outcome (result (f a r')) (final (f a r')) (ev ++ emitted (f a r')).
Proof. intros Hm. unfold bind. by rewrite Hm. Qed.

Lemma run_bind_raise {A B} (m : M A) (f : A -> M B) r e r' ev :
  m r = Outcome (inl e) r' ev -> bind m f r = Outcome (inl e) r' ev.
Proof. intros Hm. unfold bind. by rewrite Hm. Qed.

Lemma run_get {A} (f : router -> M A) r : bind get f r = f r r.
Proof. unfold bind, get. simpl. apply outcome_eta. Qed.

Lemma run_emit {A} ev (f : unit -> M A) r :
  bind (emit ev) f r
  = Outcome (result (f tt r)) (final (f tt r)) (ev :: emitted (f tt r)).
Proof. done. Qed.

Lemma run_modify {A} g (f : unit -> M A) r :
  bind (modify g) f r = f tt (g r).
Proof. unfold bind, modify. simpl. apply outcome_eta. Qed.

Lemma run_ret {A B} (a : A) (f : A -> M B) r : bind (ret a) f r = f a r.
Proof. unfold bind, ret. simpl. apply outcome_eta. Qed.

Lemma run_lift_inr {A B} (a : A) (f : A -> M B) r : bind (lift (inr a)) f r = f a r.
Proof. unfold bind, lift. simpl. apply outcome_eta. Qed.

Lemma run_lift_inl {A B} e (f : A -> M B) r :
  bind (lift (inl e)) f r = Outcome (inl e) r [].
Proof. done. Qed.

End Running.

(** ** The registry *)

Section Registry.
Context `{PyValues}.

Lemma _load_service_loaded k r s :
  lookup (_services r) !! k = Some s -> is_Some (svc_instance s) ->
  _load_service k r = Outcome (inr tt) r [].
Proof.
  intros Hk [i Hi]. unfold _load_service, bind, get. simpl.
  by rewrite Hk, Hi.
Qed.

Lemma _load_service_cold k r s :
  lookup (_services r) !! k = Some s -> svc_instance s = None ->
  _load_service k r
  = Outcome (inr tt)
      (set_lookup
         (alter (set_instance
                   match construct (svc_cls s) with
                   | inr i => Some i
                   | inl _ => None
                   end) k) r)
      [EvInit k].
Proof.
  intros Hk Hi. unfold _load_service, bind, get. simpl.
  rewrite Hk, Hi. simpl. by destruct (construct (svc_cls s)).
Qed.

Lemma _load_service_returns k r : result (_load_service k r) = inr tt.
Proof.
  destruct (lookup (_services r) !! k) as [s|] eqn:Hk.
  - destruct (svc_instance s) as [i|] eqn:Hi.
    + by erewrite _load_service_loaded.
    + by erewrite _load_service_cold.
  - unfold _load_service, bind, get. simpl. by rewrite Hk.
Qed.

(** *** What the registry methods keep, given what their steps keep *)

Section Generic.
Context (I : router -> Prop) (E : event -> Prop).
Hypothesis E_lookup : forall k, E (EvLookup k).
Hypothesis E_desc : forall k, E (EvDesc k).
Hypothesis I_load : forall k, keeps I E (_load_service k).
Hypothesis I_desc : forall k d, keeps I E (update_service k (set_desc d)).
Hypothesis I_avail : forall a r, I r -> I (set_avail a r).

Lemma generic_fetch_service svc_id : keeps I E (_fetch_service svc_id).
Proof. unfold _fetch_service. keeps_steps; auto. Qed.

Lemma generic_get_desc svc_id : keeps I E (get_desc svc_id).
Proof. unfold get_desc. keeps_steps; auto using generic_fetch_service. Qed.

Lemma generic_get_services : keeps I E get_services.
Proof.
  unfold get_services. keeps_steps; auto.
  all: apply keeps_modify; auto.
Qed.

Hypothesis I_fetch_options : forall svc_id, keeps I E (_fetch_options svc_id).

Lemma generic_validate_service svc_id options :
  keeps I E (_validate_service svc_id options).
Proof. unfold _validate_service. keeps_steps; auto. Qed.

Lemma generic_get_options svc_id : keeps I E (get_options svc_id).
Proof. unfold get_options. keeps_steps; auto. Qed.

End Generic.

Lemma append_option_instance c s :
  svc_instance (append_option c s) = svc_instance s.
Proof. unfold append_option. by destruct (svc_options s). Qed.

(** The same for [_fetch_options], when building the options cannot
    break the invariant. *)
Lemma generic_fetch_options (I : router -> Prop) (E : event -> Prop) svc_id :
  (forall k, E (EvOptions k)) ->
  keeps I E (_fetch_service svc_id) ->
  (forall k f, (forall s, svc_instance (f s) = svc_instance s) ->
               keeps I E (update_service k f)) ->
  keeps I E (_fetch_options svc_id).
Proof.
  intros E_options I_fetch I_update.
  unfold _fetch_options, build_options.
  keeps_steps; auto using append_option_instance.
Qed.

End Registry.

(** ** Dispatch and the pool: what every operation keeps *)

Section Operations.
Context `{PyValues} (I : router -> Prop) (E : event -> Prop).
Hypothesis E_exists : forall p, E (EvExists p).
Hypothesis E_spawn : forall w t, E (EvSpawn w t).
Hypothesis E_done : forall cb, E (EvDone cb).
Hypothesis E_okay : forall cb p, E (EvOkay cb p).
Hypothesis E_fail : forall cb e, E (EvFail cb e).
Hypothesis I_validate : forall svc_id options, keeps I E (_validate_service svc_id options).
Hypothesis I_desc : forall svc_id, keeps I E (get_desc svc_id).
Hypothesis I_options : forall svc_id, keeps I E (get_options svc_id).
Hypothesis I_services : keeps I E get_services.
Hypothesis I_busy : forall f r, I r -> I (set_busy f r).
Hypothesis I_pool : forall f r, I r -> I (set_pool f r).

Lemma generic_call_done cbs : keeps I E (call_done cbs).
Proof. unfold call_done. keeps_steps; auto. Qed.

Lemma generic_parse_call on_disk svc_id text options :
  keeps I E (parse_call on_disk svc_id text options).
Proof.
  unfold parse_call, _validate_text, _validate_path. keeps_steps; auto.
Qed.

Lemma generic_spawn t c : keeps I E (spawn t c).
Proof. unfold spawn. keeps_steps; auto. apply keeps_modify; auto. Qed.

Lemma generic_call on_disk svc_id text options cbs :
  keeps I E (__call__ on_disk svc_id text options cbs).
Proof.
  unfold __call__. keeps_steps;
    auto using generic_parse_call, generic_call_done, generic_spawn.
  apply keeps_modify; auto.
Qed.

Lemma generic_call_completion c exception : keeps I E (call_completion c exception).
Proof.
  unfold call_completion. keeps_steps; auto using generic_call_done.
  all: apply keeps_modify; auto.
Qed.

Lemma generic_on_signal w exception : keeps I E (_on_signal w exception).
Proof.
  unfold _on_signal. keeps_steps; auto using generic_call_completion.
  apply keeps_modify; auto.
Qed.

Lemma generic_run_op o : keeps I E (run_op o).
Proof.
  destruct o; simpl; keeps_steps; auto using generic_call, generic_on_signal.
Qed.

Lemma generic_run_ops os : keeps I E (run_ops os).
Proof. unfold run_ops. keeps_steps. apply generic_run_op. Qed.

End Operations.

(** ** C7: a service is initialized at most once *)

Section LoadedOnce.
Context `{PyValues} (k : string) (i : option instance).








End LoadedOnce.

Section InitializedOnce.
Context `{PyValues}.

Lemma _fetch_service_ready svc_id r s inst :
  lookup (_services r) !! resolve_id r svc_id = Some s ->
  svc_instance s = Some (Some inst) ->
  _fetch_service svc_id r
  = Outcome (inr (resolve_id r svc_id, s)) r [EvLookup (resolve_id r svc_id)].
Proof.
  intros Hk Hi. unfold _fetch_service.
  rewrite run_get, run_emit, Hk.
  erewrite run_bind by (eapply _load_service_loaded; eauto).
  rewrite run_get, Hk, Hi. done.
Qed.

Lemma _fetch_service_unavailable svc_id r s :
  lookup (_services r) !! resolve_id r svc_id = Some s ->
  svc_instance s = Some None ->
  _fetch_service svc_id r
  = Outcome
      (inl (EnvironmentError
              ("The " +:+ svc_name s +:+ " service is not currently available")))
      r [EvLookup (resolve_id r svc_id)].
Proof.
  intros Hk Hi. unfold _fetch_service.
  rewrite run_get, run_emit, Hk.
  erewrite run_bind by (eapply _load_service_loaded; eauto).
  rewrite run_get, Hk, Hi. done.
Qed.


End InitializedOnce.

(** ** What validation leaves alone *)

Section Frame.
Context `{PyValues} (r0 : router).

Lemma frame_refl : same_frame r0 r0.
Proof. by repeat split. Qed.

Lemma frame_update k f : keeps (same_frame r0) is_registry (update_service k f).
Proof. apply keeps_modify. by intros r (? & ? & ? & ? & ? & ?). Qed.

Lemma frame_load k : keeps (same_frame r0) is_registry (_load_service k).
Proof.
  intros r HI. unfold keeps_at.
  destruct (lookup (_services r) !! k) as [s|] eqn:Hk.
  - destruct (svc_instance s) as [i|] eqn:Hi.
    + erewrite _load_service_loaded by eauto. by split.
    + erewrite _load_service_cold by eauto. simpl. split.
      * by destruct HI as (? & ? & ? & ? & ? & ?).
      * by repeat constructor.
  - unfold _load_service. rewrite run_get, Hk. by split.
Qed.

Lemma frame_fetch_service svc_id : keeps (same_frame r0) is_registry (_fetch_service svc_id).
Proof. apply generic_fetch_service; auto using frame_load, frame_update. done. Qed.

Lemma frame_fetch_options svc_id : keeps (same_frame r0) is_registry (_fetch_options svc_id).
Proof.
  apply generic_fetch_options; auto using frame_fetch_service, frame_update. done.
Qed.

Lemma frame_validate_service svc_id options :
  keeps (same_frame r0) is_registry (_validate_service svc_id options).
Proof. apply generic_validate_service. apply frame_fetch_options. Qed.

Lemma registry_internal ev : is_registry ev -> is_internal ev.
Proof. by destruct ev. Qed.

Lemma frame_parse_call on_disk svc_id text options :
  keeps (same_frame r0) is_internal (parse_call on_disk svc_id text options).
Proof.
  apply generic_parse_call; [done|]. intros.
  eapply keeps_weaken; [apply registry_internal|apply frame_validate_service].
Qed.

End Frame.

(** ** What a successful validation establishes *)

Section Validation.
Context `{PyValues}.

Lemma _load_service_outcome k r :
  _load_service k r
  = Outcome (inr tt) (final (_load_service k r)) (emitted (_load_service k r)).
Proof. rewrite <- (_load_service_returns k r). symmetry. apply outcome_eta. Qed.

Lemma _fetch_service_inr svc_id r k s r' ev :
  _fetch_service svc_id r = Outcome (inr (k, s)) r' ev ->
  k = resolve_id r svc_id /\
  lookup (_services r') !! k = Some s /\
  exists inst, svc_instance s = Some (Some inst).
Proof.
  unfold _fetch_service. rewrite run_get, run_emit. cbn.
  destruct (lookup (_services r) !! resolve_id r svc_id) eqn:Hk; [|done].
  erewrite run_bind by apply _load_service_outcome. rewrite run_get.
  destruct (lookup (_services (final _)) !! _) as [s'|] eqn:Hk'; [|done].
  destruct (svc_instance s') as [[inst|]|] eqn:Hi; try done.
  cbn. intros [= <- <- <- _]. eauto.
Qed.

Lemma set_lookup_append k acc c r :
  set_lookup (alter (append_option c) k) (set_lookup (alter (set_options acc) k) r)
  = set_lookup (alter (set_options (acc ++ [c])) k) r.
Proof.
  unfold set_lookup. cbn. do 2 f_equal.
  rewrite alter_alter_eq. by apply alter_ext.
Qed.

Lemma for_each_build norm k options acc r :
  for_each options
    (fun option =>
       checked <- lift (check_option norm k option) ;;
       update_service k (append_option checked))
    (set_lookup (alter (set_options acc) k) r)
  = Outcome (check_options norm k options acc).1
      (set_lookup (alter (set_options (check_options norm k options acc).2) k) r)
      [].
Proof.
  revert acc. induction options as [|option rest IH]; intros acc; simpl; [done|].
  destruct (check_option norm k option) as [e|checked] eqn:Hc.
  - erewrite run_bind_raise by (by rewrite run_lift_inl). done.
  - erewrite run_bind.
    2:{ rewrite run_lift_inr. unfold update_service, modify.
        by rewrite set_lookup_append. }
    rewrite IH. done.
Qed.

Lemma build_options_run k inst r :
  build_options k inst r
  = Outcome (check_options (normalize (_services r)) k (inst_options inst) []).1
      (set_lookup
         (alter (set_options
                   (check_options (normalize (_services r)) k (inst_options inst) []).2)
                k) r)
      [EvOptions k].
Proof.
  unfold build_options, update_service.
  rewrite run_modify, run_emit, run_get. cbn. by rewrite for_each_build.
Qed.

Lemma _fetch_options_inr svc_id r k s r' ev :
  _fetch_options svc_id r = Outcome (inr (k, s)) r' ev ->
  k = resolve_id r svc_id /\
  lookup (_services r') !! k = Some s /\
  exists inst os, svc_instance s = Some (Some inst) /\ svc_options s = Some os.
Proof.
  unfold _fetch_options.
  destruct (_fetch_service svc_id r) as [[e|[k0 s0]] r1 ev1] eqn:Hfs.
  { erewrite run_bind_raise by exact Hfs. done. }
  erewrite run_bind by exact Hfs. cbn.
  destruct (_fetch_service_inr _ _ _ _ _ _ Hfs) as (-> & Hk0 & inst & Hi).
  destruct (svc_options s0) as [os|] eqn:Hos.
  - rewrite run_ret, run_get, Hk0. cbn. intros [= <- <- <- _]. eauto 6.
  - rewrite Hi. cbn.
    pose proof (build_options_run (resolve_id r svc_id) inst r1) as Hb.
    destruct (check_options _ _ _ _) as [[e|[]] acc]; cbn in Hb.
    + erewrite run_bind_raise by exact Hb. done.
    + erewrite run_bind by exact Hb. rewrite run_get. cbn.
      rewrite lookup_alter_eq, Hk0. cbn.
      intros [= <- <- <- _]. cbn. rewrite lookup_alter_eq, Hk0. cbn.
      split; [done|]. split; [done|]. eauto.
Qed.


Lemma _validate_service_inr svc_id options r k s opts r' ev :
  _validate_service svc_id options r = Outcome (inr (k, s, opts)) r' ev ->
  k = resolve_id r svc_id /\
  lookup (_services r') !! k = Some s /\
  exists inst os,
    svc_instance s = Some (Some inst) /\ svc_options s = Some os /\
    _validate_options (known_options (normalize (_services r')) os options) [] os
    = inr (opts, []).
Proof.
  unfold _validate_service.
  destruct (_fetch_options svc_id r) as [[e|[k0 s0]] r1 ev1] eqn:Hfo.
  { erewrite run_bind_raise by exact Hfo. done. }
  erewrite run_bind by exact Hfo. cbn. rewrite run_get.
  destruct (_fetch_options_inr _ _ _ _ _ _ Hfo) as (-> & Hk0 & inst & os & Hi & Hos).
  rewrite Hos, run_ret.
  destruct (_validate_options _ _ _) as [e|[opts' problems]] eqn:Hv.
  { rewrite run_lift_inl. done. }
  rewrite run_lift_inr. cbn. destruct problems; [|done].
  cbn. intros [= <- <- <- <- _]. eauto 10.
Qed.

Lemma _validate_text_run text r :
  _validate_text text r
  = if String.eqb (textize (_services r) text) ""
    then Outcome (inl (ValueError "The input text must be set.")) r []
    else Outcome (inr (textize (_services r) text)) r [].
Proof.
  unfold _validate_text. rewrite run_get. by destruct (String.eqb _ _).
Qed.

Lemma _validate_path_run svc_id text options r :
  _validate_path svc_id text options r
  = let path := _path_cache (_cache_dir r) svc_id text options in
    if bool_decide (path ∈ _busy r)
    then Outcome (inl (BusyError (already_busy svc_id path))) r []
    else Outcome (inr path) r [].
Proof.
  unfold _validate_path. rewrite run_get. cbn. by destruct (bool_decide _).
Qed.

Lemma resolve_id_frame r r' svc_id :
  same_frame r r' -> resolve_id r' svc_id = resolve_id r svc_id.
Proof. intros (_ & _ & _ & Ha & Hn & _). unfold resolve_id. by rewrite Ha, Hn. Qed.

(** A request that passes validation is resolved in the state validation
    leaves; its path was not in flight, and the disk was asked last. *)
Lemma parse_call_inr on_disk svc_id text options r t hit r' ev :
  parse_call on_disk svc_id text options r = Outcome (inr (t, hit)) r' ev ->
  resolves r' svc_id text options t /\
  hit = on_disk (t_path t) /\
  (t_path t ∉ _busy r) /\
  same_frame r r' /\
  exists pre, ev = (pre ++ [EvExists (t_path t)])%list /\ Forall is_registry pre.
Proof.
  intros Hpc.
  destruct (frame_parse_call r on_disk svc_id text options r (frame_refl r))
    as [Hframe _].
  rewrite Hpc in Hframe. cbn in Hframe.
  revert Hpc. unfold parse_call.
  pose proof (_validate_text_run text r) as Hvt.
  destruct (String.eqb_spec (textize (_services r) text) "") as [Htext|Htext].
  { erewrite run_bind_raise by exact Hvt. done. }
  erewrite run_bind by exact Hvt. cbn.
  destruct (_validate_service svc_id options r) as [[e|[[k s] opts]] r1 ev1] eqn:Hvs.
  { erewrite run_bind_raise by exact Hvs. done. }
  erewrite run_bind by exact Hvs. cbn.
  destruct (_validate_service_inr _ _ _ _ _ _ _ _ Hvs)
    as (-> & Hk & inst & os & Hi & Hos & Hv).
  destruct (frame_validate_service r svc_id options r (frame_refl r)) as [Hf1 Hev1].
  rewrite Hvs in Hf1, Hev1. cbn in Hf1, Hev1.
  pose proof (_validate_path_run (resolve_id r svc_id) (textize (_services r) text) opts r1)
    as Hvp. cbn in Hvp.
  destruct (bool_decide _) eqn:Hbusy.
  { erewrite run_bind_raise by exact Hvp. done. }
  erewrite run_bind by exact Hvp. rewrite run_emit. cbn.
  intros [= <- <- <- <-].
  apply bool_decide_eq_false in Hbusy.
  destruct Hf1 as (Hb & Hc & Hp & Ha & Hn & Ht).
  split; [|split; [done|split; [by rewrite <- Hb|split; [done|]]]].
  - exists s, inst, os. cbn. rewrite Ht.
    rewrite (resolve_id_frame r r1) by done. eauto 10.
  - by exists ev1.
Qed.

(** What [__call__] does once the [try] block is through. *)
Lemma call_done_run cbs r : call_done cbs r = Outcome (inr tt) r (done_events cbs).
Proof. unfold call_done, done_events. by destruct (cb_done cbs). Qed.

Lemma run_attempt {A B} (m : M A) (f : exn + A -> M B) r :
  bind (attempt m) f r
  = Outcome (result (f (result (m r)) (final (m r))))
      (final (f (result (m r)) (final (m r))))
      (emitted (m r) ++ emitted (f (result (m r)) (final (m r)))).
Proof. done. Qed.

Lemma call_fails on_disk svc_id text options cbs r e r' ev :
  parse_call on_disk svc_id text options r = Outcome (inl e) r' ev ->
  __call__ on_disk svc_id text options cbs r
  = Outcome (inr tt) r' (ev ++ done_events cbs ++ [EvFail (cb_id cbs) e]).
Proof.
  intros Hpc. unfold __call__. rewrite run_attempt, Hpc. cbn.
  erewrite run_bind by apply call_done_run. done.
Qed.

Lemma call_hits on_disk svc_id text options cbs r t r' ev :
  parse_call on_disk svc_id text options r = Outcome (inr (t, true)) r' ev ->
  __call__ on_disk svc_id text options cbs r
  = Outcome (inr tt) r' (ev ++ done_events cbs ++ [EvOkay (cb_id cbs) (t_path t)]).
Proof.
  intros Hpc. unfold __call__. rewrite run_attempt, Hpc. cbn.
  erewrite run_bind by apply call_done_run. done.
Qed.

Lemma call_misses on_disk svc_id text options cbs r t r' ev :
  parse_call on_disk svc_id text options r = Outcome (inr (t, false)) r' ev ->
  __call__ on_disk svc_id text options cbs r
  = Outcome (inr tt) (in_flight t cbs r')
      (ev ++ [EvSpawn (S (_next_id (_pool r'))) t]).
Proof.
  intros Hpc. unfold __call__. rewrite run_attempt, Hpc. cbn.
  rewrite run_modify. unfold spawn. rewrite run_modify, run_get. done.
Qed.

(** A request that fails validation never got to ask the disk. *)
Lemma parse_call_inl on_disk svc_id text options r e r' ev :
  parse_call on_disk svc_id text options r = Outcome (inl e) r' ev ->
  same_frame r r' /\ Forall is_registry ev.
Proof.
  unfold parse_call.
  pose proof (_validate_text_run text r) as Hvt.
  destruct (String.eqb_spec (textize (_services r) text) "") as [Htext|Htext].
  { erewrite run_bind_raise by exact Hvt. intros [= <- <- <-].
    split; [apply frame_refl|constructor]. }
  erewrite run_bind by exact Hvt. cbn.
  destruct (frame_validate_service r svc_id options r (frame_refl r)) as [Hf1 Hev1].
  destruct (_validate_service svc_id options r) as [[e1|[[k s] opts]] r1 ev1] eqn:Hvs;
    cbn in Hf1, Hev1.
  { erewrite run_bind_raise by exact Hvs. intros [= <- <- <-]. by split. }
  erewrite run_bind by exact Hvs. cbn.
  pose proof (_validate_path_run k (textize (_services r) text) opts r1) as Hvp.
  cbn in Hvp. destruct (bool_decide _).
  - erewrite run_bind_raise by exact Hvp. cbn. intros [= <- <- <-].
    rewrite app_nil_r. by split.
  - erewrite run_bind by exact Hvp. rewrite run_emit. done.
Qed.

End Validation.

(** ** Dispatch *)

Section Dispatch.
Context `{PyValues}.

(** C6. A text that normalizes to the empty string makes [__call__]
    return normally after calling [done] (if given) and then [fail] with
    the [ValueError] of [_validate_text]; the router is left as it was,
    and nothing was looked up, initialized or asked of the disk. *)
Theorem empty_text_fails on_disk svc_id text options cbs r :
  textize (_services r) text = "" ->
  __call__ on_disk svc_id text options cbs r
  = Outcome (inr tt) r
      (done_events cbs ++ [EvFail (cb_id cbs) (ValueError "The input text must be set.")]).
Proof.
  intros Htext.
  apply (call_fails on_disk svc_id text options cbs r _ r []).
  unfold parse_call. erewrite run_bind_raise; [done|].
  by rewrite _validate_text_run, Htext.
Qed.

(** C10. A call that reports a failure leaves the in-flight list and the
    pool as they were; the list changes only by the path of a task that
    the same call hands to the pool. *)
Theorem failure_keeps_in_flight on_disk svc_id text options cbs r :
  let o := __call__ on_disk svc_id text options cbs r in
  (forall e, EvFail (cb_id cbs) e ∈ emitted o ->
     _busy (final o) = _busy r /\ _pool (final o) = _pool r /\
     Forall (fun ev => ~ is_spawn ev) (emitted o)) /\
  (_busy (final o) = _busy r \/
   exists w t, EvSpawn w t ∈ emitted o /\ _busy (final o) = (_busy r ++ [t_path t])%list).
Proof.
  cbn zeta.
  destruct (parse_call on_disk svc_id text options r) as [[e|[t [|]]] r1 ev1] eqn:Hpc.
  - destruct (parse_call_inl _ _ _ _ _ _ _ _ Hpc) as [(Hb & _ & Hp & _) Hev].
    rewrite (call_fails _ _ _ _ cbs _ _ _ _ Hpc). cbn.
    split; [|by left]. intros _ _. split; [done|]. split; [done|].
    rewrite !Forall_app. split_and!.
    + eapply Forall_impl; [exact Hev|]. intros ev Hreg Hsp. by destruct ev.
    + unfold done_events. destruct (cb_done cbs); repeat constructor; auto.
    + repeat constructor; auto.
  - destruct (parse_call_inr _ _ _ _ _ _ _ _ _ Hpc)
      as (_ & _ & _ & (Hb & _ & Hp & _) & pre & -> & Hpre).
    rewrite (call_hits _ _ _ _ cbs _ _ _ _ Hpc). cbn.
    split; [|by left]. intros _ _. split; [done|]. split; [done|].
    rewrite !Forall_app. split_and!.
    + eapply Forall_impl; [exact Hpre|]. intros ev Hreg Hsp. by destruct ev.
    + repeat constructor; auto.
    + unfold done_events. destruct (cb_done cbs); repeat constructor; auto.
    + repeat constructor; auto.
  - destruct (parse_call_inr _ _ _ _ _ _ _ _ _ Hpc)
      as (_ & _ & _ & (Hb & _ & Hp & _) & pre & -> & Hpre).
    rewrite (call_misses _ _ _ _ cbs _ _ _ _ Hpc). cbn. split.
    + intros e Hin. exfalso.
      rewrite !elem_of_app, !list_elem_of_singleton in Hin.
      destruct Hin as [[Hin| [=]]| [=]].
      rewrite Forall_forall in Hpre. by apply Hpre in Hin.
    + right. eexists _, t. rewrite Hb. split; [|done].
      rewrite elem_of_app, list_elem_of_singleton. by right.
Qed.

Lemma exists_event_unique p q pre post :
  Forall is_registry pre ->
  Forall (fun ev => is_callback ev \/ is_spawn ev) post ->
  EvExists p ∈ ((pre ++ [EvExists q]) ++ post)%list -> p = q.
Proof.
  rewrite !Forall_forall. intros Hpre Hpost.
  rewrite !elem_of_app, list_elem_of_singleton.
  intros [[Hin|[= ->]]|Hin]; [|done|].
  - by apply Hpre in Hin.
  - apply Hpost in Hin. cbn in Hin. tauto.
Qed.

Lemma done_events_callbacks cbs :
  Forall (fun ev => is_callback ev \/ is_spawn ev) (done_events cbs).
Proof.
  unfold done_events. destruct (cb_done cbs); repeat constructor.
Qed.

(** C3, amended. When [__call__] gets to ask the disk about its path,
    which it does only after finding the path not in flight, and the
    file is there, the call returns after calling [done] (if given) and
    [okay] with that path; no worker is started, and the in-flight list
    and the pool are as they were. *)
Theorem cache_hit_when_not_in_flight on_disk svc_id text options cbs r p :
  EvExists p ∈ emitted (__call__ on_disk svc_id text options cbs r) ->
  on_disk p = true ->
  let o := __call__ on_disk svc_id text options cbs r in
  (exists t, resolves (final o) svc_id text options t /\ t_path t = p) /\
  (p ∉ _busy r) /\
  result o = inr tt /\
  (exists pre,
     emitted o = (pre ++ EvExists p :: done_events cbs ++ [EvOkay (cb_id cbs) p])%list /\
     Forall is_registry pre) /\
  _busy (final o) = _busy r /\
  _pool (final o) = _pool r.
Proof.
  cbn zeta.
  destruct (parse_call on_disk svc_id text options r) as [[e|[t hit]] r1 ev1] eqn:Hpc.
  - destruct (parse_call_inl _ _ _ _ _ _ _ _ Hpc) as [_ Hev].
    rewrite (call_fails _ _ _ _ cbs _ _ _ _ Hpc). cbn.
    rewrite !elem_of_app, list_elem_of_singleton. rewrite Forall_forall in Hev.
    intros [Hin|[Hin|[=]]]; [by apply Hev in Hin|].
    unfold done_events in Hin. destruct (cb_done cbs).
    + by apply list_elem_of_singleton in Hin.
    + by apply elem_of_nil in Hin.
  - destruct (parse_call_inr _ _ _ _ _ _ _ _ _ Hpc)
      as (Hres & -> & Hbusy & (Hb & _ & Hp & _) & pre & -> & Hpre).
    destruct (on_disk (t_path t)) eqn:Hdisk.
    + rewrite (call_hits _ _ _ _ cbs _ _ _ _ Hpc). cbn.
      intros Hin _.
      apply exists_event_unique in Hin as ->; [|done|].
      2:{ apply Forall_app. split; [apply done_events_callbacks|].
          repeat constructor. }
      split; [by exists t|]. split; [done|]. split; [done|].
      split; [|done]. exists pre. by rewrite <- app_assoc.
    + rewrite (call_misses _ _ _ _ cbs _ _ _ _ Hpc). cbn.
      intros Hin Hp'.
      apply exists_event_unique in Hin as ->; [congruence|done|].
      constructor; [by right|constructor].
Qed.

End Dispatch.

(** ** Option defaults *)

Section Defaults.
Context `{PyValues}.

Lemma dict_get_set_eq {V} k (v : V) d : Dict.get k (Dict.set k v d) = Some v.
Proof.
  induction d as [|[k' v'] d IH]; cbn.
  - by rewrite String.eqb_refl.
  - destruct (String.eqb k k') eqn:E; cbn; by rewrite ?String.eqb_refl, ?E.
Qed.

Lemma dict_get_set_ne {V} k k' (v : V) d :
  k <> k' -> Dict.get k (Dict.set k' v d) = Dict.get k d.
Proof.
  intros Hne. induction d as [|[k'' v''] d IH]; cbn.
  - by apply String.eqb_neq in Hne as ->.
  - destruct (String.eqb_spec k' k'') as [<-|Hne']; cbn.
    + by apply String.eqb_neq in Hne as ->.
    + by rewrite IH.
Qed.

Lemma dict_get_foldl_None {V} k (l : list (string * V)) d :
  Dict.get k d = None -> k ∉ l.*1 ->
  Dict.get k (foldl (fun d kv => Dict.set kv.1 kv.2 d) d l) = None.
Proof.
  revert d. induction l as [|[k' v'] l IH]; intros d Hd Hk; cbn; [done|].
  cbn in Hk. apply not_elem_of_cons in Hk as [Hne Hk].
  apply IH; [|done]. by rewrite dict_get_set_ne.
Qed.

(** An option the caller did not give is not among the known options. *)
Lemma known_options_omitted norm svc_options (options : Dict.t value) k :
  k ∉ map (fun kv : string * value => norm kv.1) options ->
  Dict.get k (known_options norm svc_options options) = None.
Proof.
  intros Hk. unfold known_options, Dict.of_items.
  apply dict_get_foldl_None; [done|].
  intros Hin. apply Hk.
  apply list_elem_of_fmap in Hin as ([k' v'] & -> & Hin).
  apply list_elem_of_filter in Hin as [_ Hin].
  apply list_elem_of_fmap in Hin as ([k'' v''] & [= -> ->] & Hin).
  apply list_elem_of_fmap. by exists (k'', v'').
Qed.

Lemma validate_option_other h st st' k :
  opt_key h <> k -> validate_option h st = inr st' ->
  Dict.get k st'.1 = Dict.get k st.1.
Proof.
  intros Hne. unfold validate_option.
  repeat case_match; intros [= <-]; cbn; try done;
    by rewrite dict_get_set_ne.
Qed.


Lemma _validate_options_other svc_options options problems validated k :
  k ∉ map opt_key svc_options ->
  _validate_options options problems svc_options = inr validated ->
  Dict.get k validated.1 = Dict.get k options.
Proof.
  revert options problems.
  induction svc_options as [|h rest IH]; intros options problems Hk; cbn.
  - by intros [= <-].
  - cbn in Hk. apply not_elem_of_cons in Hk as [Hne Hk].
    destruct (validate_option h (options, problems)) as [e|st] eqn:Hh; [done|].
    intros Hrest. rewrite (IH _ _ Hk Hrest).
    by apply (validate_option_other h (options, problems) st k).
Qed.



End Defaults.

(** ** Building the option schema *)

Section Schema.
Context `{PyValues}.

Lemma in_range_2_4 n : n ∈ seq 2 2 <-> n = 2 \/ n = 3.
Proof.
  cbn. rewrite !elem_of_cons, elem_of_nil. intuition.
Qed.

Lemma check_option_inr norm svc_id option c :
  check_option norm svc_id option = inr c ->
  well_declared norm option /\ ro_key option = Some (opt_key c).
Proof.
  unfold check_option, well_declared.
  destruct option as [[key|] [label|] [[items|elems|]|] [transform|] default]; cbn;
    try done; destruct (String.eqb_spec (norm key) key) as [Hn|Hn]; cbn; try done.
  - intros [= <-]. cbn. split; [|done]. split_and!; eauto.
  - destruct (bool_decide _) eqn:Hlen; [|done].
    apply bool_decide_eq_true, in_range_2_4 in Hlen.
    intros [= <-]. cbn. split; [|done]. split_and!; eauto.
  - by destruct (bool_decide _).
Qed.

Lemma check_option_inl norm svc_id option e :
  check_option norm svc_id option = inl e ->
  (exists msg, e = AssertionError msg) /\ ~ well_declared norm option.
Proof.
  unfold check_option, well_declared.
  destruct option as [[key|] [label|] [[items|elems|]|] [transform|] default]; cbn;
    try destruct (String.eqb_spec (norm key) key) as [Hn|Hn]; cbn;
    try destruct (bool_decide _) eqn:Hlen; try done;
    try (apply bool_decide_eq_false in Hlen; rewrite in_range_2_4 in Hlen);
    intros [= <-]; (split; [by eexists|]);
    intros ((key' & Hkey & Hnorm) & [label' Hlabel] & Hvalues & [transform' Htransform]);
    simplify_eq; try done.
  all: destruct Hvalues as [(items' & ?)|(elems' & ? & ?)]; simplify_eq; done.
Qed.

Lemma check_options_inr norm svc_id options acc acc' :
  check_options norm svc_id options acc = (inr tt, acc') ->
  Forall (well_declared norm) options /\
  map (fun c => Some (opt_key c)) acc'
  = (map (fun c => Some (opt_key c)) acc ++ map ro_key options)%list.
Proof.
  revert acc. induction options as [|option rest IH]; intros acc; cbn.
  - intros [= <-]. by rewrite app_nil_r.
  - destruct (check_option norm svc_id option) as [e|c] eqn:Hc; [done|].
    apply check_option_inr in Hc as [Hwd Hkey].
    intros Hrest. apply IH in Hrest as [Hall ->]. split; [by constructor|].
    by rewrite map_app, <- app_assoc, Hkey.
Qed.

Lemma check_options_inl norm svc_id options acc e acc' :
  check_options norm svc_id options acc = (inl e, acc') ->
  (exists msg, e = AssertionError msg) /\ ~ Forall (well_declared norm) options.
Proof.
  revert acc. induction options as [|option rest IH]; intros acc; cbn; [done|].
  destruct (check_option norm svc_id option) as [e'|c] eqn:Hc.
  - apply check_option_inl in Hc as [Hmsg Hwd]. intros [= <- <-].
    split; [done|]. intros Hall. by apply Forall_cons in Hall as [? _].
  - intros Hrest. apply IH in Hrest as [Hmsg Hall]. split; [done|].
    intros Hall'. by apply Forall_cons in Hall' as [_ ?].
Qed.

Lemma _fetch_options_builds svc_id r s inst :
  lookup (_services r) !! resolve_id r svc_id = Some s ->
  svc_instance s = Some (Some inst) ->
  svc_options s = None ->
  let k := resolve_id r svc_id in
  let checked := check_options (normalize (_services r)) k (inst_options inst) [] in
  let r' := set_lookup (alter (set_options checked.2) k) r in
  _fetch_options svc_id r
  = Outcome
      match checked.1 with
      | inl e => inl e
      | inr _ => inr (k, set_options checked.2 s)
      end
      r' [EvLookup k; EvOptions k].
Proof.
  intros Hk Hi Hos. cbn zeta. unfold _fetch_options.
  erewrite run_bind by (eapply _fetch_service_ready; eauto).
  cbn. rewrite Hos, Hi.
  pose proof (build_options_run (resolve_id r svc_id) inst r) as Hb.
  destruct (check_options _ _ _ _) as [[e|[]] acc] eqn:Hc; cbn in Hb |- *.
  - erewrite run_bind_raise by exact Hb. done.
  - erewrite run_bind by exact Hb. rewrite run_get. cbn.
    rewrite lookup_alter_eq, Hk. cbn. done.
Qed.

Lemma _fetch_options_ready svc_id r s inst os :
  lookup (_services r) !! resolve_id r svc_id = Some s ->
  svc_instance s = Some (Some inst) ->
  svc_options s = Some os ->
  _fetch_options svc_id r
  = Outcome (inr (resolve_id r svc_id, s)) r [EvLookup (resolve_id r svc_id)].
Proof.
  intros Hk Hi Hos. unfold _fetch_options.
  erewrite run_bind by (eapply _fetch_service_ready; eauto).
  cbn. rewrite Hos, run_ret, run_get, Hk. done.
Qed.

(** C9, amended. When [get_options] builds the schema of a service, it
    returns it only if every option declares a key (in normalized
    form), a label, values and a transform, and the values are a list,
    of any length, or a tuple of two or three elements; otherwise it
    raises an [AssertionError]. *)
Theorem schema_is_checked svc_id r s inst :
  lookup (_services r) !! resolve_id r svc_id = Some s ->
  svc_instance s = Some (Some inst) ->
  svc_options s = None ->
  match result (get_options svc_id r) with
  | inr os =>
      Forall (well_declared (normalize (_services r))) (inst_options inst) /\
      map (fun c => Some (opt_key c)) os = map ro_key (inst_options inst)
  | inl e =>
      (exists msg, e = AssertionError msg) /\
      ~ Forall (well_declared (normalize (_services r))) (inst_options inst)
  end.
Proof.
  intros Hk Hi Hos. unfold get_options.
  pose proof (_fetch_options_builds svc_id r s inst Hk Hi Hos) as Hfo.
  cbn zeta in Hfo.
  destruct (check_options _ _ _ _) as [[e|[]] acc] eqn:Hc; cbn in Hfo.
  - erewrite run_bind_raise by exact Hfo. cbn.
    by apply check_options_inl in Hc.
  - erewrite run_bind by exact Hfo. cbn.
    by apply check_options_inr in Hc.
Qed.

End Schema.

(** ** The pool and the in-flight list *)

Section InFlight.
Context `{PyValues}.

Lemma elem_of_list_remove x p l :
  NoDup l -> x ∈ list_remove p l <-> x ∈ l /\ x <> p.
Proof.
  induction l as [|y l IH]; cbn; intros Hnd.
  - rewrite elem_of_nil. tauto.
  - apply NoDup_cons in Hnd as [Hy Hnd].
    destruct (String.eqb_spec p y) as [->|Hne].
    + rewrite elem_of_cons. split.
      * intros Hx. split; [by right|]. by intros ->.
      * by intros [[->|Hx] Hne].
    + rewrite !elem_of_cons, IH by done. split.
      * intros [->|[Hx Hne']]; split; auto.
      * intros [[->|Hx] Hne']; auto.
Qed.

Lemma NoDup_list_remove p l : NoDup l -> NoDup (list_remove p l).
Proof.
  induction l as [|y l IH]; cbn; intros Hnd; [done|].
  apply NoDup_cons in Hnd as [Hy Hnd].
  destruct (String.eqb p y); [done|].
  apply NoDup_cons. split; [|by apply IH].
  rewrite elem_of_list_remove by done. tauto.
Qed.

(** The events of the completion callback: [done], then [fail] when the
    worker raised, then [okay] when it did not or when what [fail]
    returned is false. *)
Lemma call_completion_run c exception r :
  c_path c ∈ _busy r ->
  call_completion c exception r
  = Outcome (inr tt) (set_busy (list_remove (c_path c)) r)
      (done_events (c_callbacks c) ++
       match exception with
       | Some e =>
           EvFail (cb_id (c_callbacks c)) e ::
           (if cb_fail_result (c_callbacks c) e then []
            else [EvOkay (cb_id (c_callbacks c)) (c_path c)])
       | None => [EvOkay (cb_id (c_callbacks c)) (c_path c)]
       end).
Proof.
  intros Hbusy. unfold call_completion. rewrite run_get. cbn.
  rewrite bool_decide_eq_true_2 by done. rewrite run_modify.
  erewrite run_bind by apply call_done_run. cbn.
  destruct exception as [e|]; [|done].
  rewrite run_emit. by destruct (cb_fail_result _ _).
Qed.

Lemma _on_signal_run w exception r c :
  _callbacks (_pool r) !! w = Some c ->
  c_path c ∈ _busy r ->
  _on_signal w exception r
  = Outcome (inr tt)
      (set_pool (fun p => Pool (_next_id p) (delete w (_callbacks p)) (delete w (_workers p)))
         (set_busy (list_remove (c_path c)) r))
      (emitted (call_completion c exception r)).
Proof.
  intros Hw Hbusy. unfold _on_signal. rewrite run_get, Hw.
  erewrite run_bind by (by apply call_completion_run).
  rewrite (call_completion_run _ _ _ Hbusy). cbn.
  unfold modify. cbn. by rewrite app_nil_r.
Qed.

Lemma _on_signal_unknown w exception r :
  _callbacks (_pool r) !! w = None ->
  _on_signal w exception r = Outcome (inl (KeyError "worker_id")) r [].
Proof. intros Hw. unfold _on_signal. by rewrite run_get, Hw. Qed.

(** *** [consistent] is an invariant *)

Lemma consistent_frame r r' : same_frame r r' -> consistent r -> consistent r'.
Proof.
  intros (Hb & _ & Hp & _) (Hnd & Hin & Hinj). unfold consistent.
  rewrite Hb, Hp. done.
Qed.

Lemma consistent_in_flight t cbs r :
  consistent r -> t_path t ∉ _busy r -> consistent (in_flight t cbs r).
Proof.
  intros (Hnd & Hin & Hinj) Hfresh. unfold consistent, in_flight. cbn.
  split_and!.
  - apply NoDup_app. split_and!; [done| |apply NoDup_singleton].
    intros x Hx ->%list_elem_of_singleton. done.
  - intros w c. rewrite lookup_insert. case_decide as Hw.
    + intros [= <-]. cbn. subst w. split; [|done].
      rewrite elem_of_app, list_elem_of_singleton. by right.
    + intros Hc. destruct (Hin _ _ Hc) as [Hp Hle]. split; [|lia].
      rewrite elem_of_app. by left.
  - intros w1 w2 c1 c2. rewrite !lookup_insert.
    case_decide as Hw1; case_decide as Hw2.
    + congruence.
    + intros [= <-] Hc2 Hpath. cbn in Hpath.
      destruct (Hin _ _ Hc2) as [Hp _]. congruence.
    + intros Hc1 [= <-] Hpath. cbn in Hpath.
      destruct (Hin _ _ Hc1) as [Hp _]. congruence.
    + apply Hinj.
Qed.

Lemma consistent_signal w c r :
  consistent r -> _callbacks (_pool r) !! w = Some c ->
  consistent
    (set_pool (fun p => Pool (_next_id p) (delete w (_callbacks p)) (delete w (_workers p)))
       (set_busy (list_remove (c_path c)) r)).
Proof.
  intros (Hnd & Hin & Hinj) Hw. unfold consistent. cbn. split_and!.
  - by apply NoDup_list_remove.
  - intros w' c'. rewrite lookup_delete. case_decide as Hne; [done|].
    intros Hc'. destruct (Hin _ _ Hc') as [Hp Hle]. split; [|done].
    rewrite elem_of_list_remove by done. split; [done|].
    intros Hpath. apply Hne. symmetry. by eapply Hinj.
  - intros w1 w2 c1 c2. rewrite !lookup_delete.
    repeat case_decide; try done. apply Hinj.
Qed.

End InFlight.

(** ** What is settled stays settled *)

Section Settled.
Context `{PyValues} (r0 : router).

Lemma Forall_any_event (evs : list event) : Forall any_event evs.
Proof. by apply Forall_forall. Qed.

Lemma any_event_holds ev : any_event ev.
Proof. done. Qed.

Lemma settled_refl : settled r0 r0.
Proof. repeat split; try done. intros k s Hk. exists s. eauto. Qed.

Lemma settled_alter k f r :
  (forall s, lookup (_services r) !! k = Some s ->
     (forall i, svc_instance s = Some i -> svc_instance (f s) = Some i) /\
     (forall os, svc_options s = Some os -> svc_options (f s) = Some os)) ->
  settled r0 r -> settled r0 (set_lookup (alter f k) r).
Proof.
  intros Hf (Hc & Ha & Hn & Ht & Hl). unfold settled. cbn.
  split_and!; try done. intros k' s0 Hk'.
  destruct (Hl _ _ Hk') as (s & Hs & Hi & Ho).
  destruct (decide (k = k')) as [->|Hne].
  - rewrite lookup_alter_eq, Hs. cbn. eexists. split; [done|].
    destruct (Hf _ Hs) as [Hfi Hfo]. split; eauto.
  - rewrite lookup_alter_ne by done. eauto.
Qed.

Lemma settled_load k : keeps (settled r0) any_event (_load_service k).
Proof.
  intros r HI. split; [|apply Forall_any_event].
  destruct (lookup (_services r) !! k) as [s|] eqn:Hk.
  - destruct (svc_instance s) as [i|] eqn:Hi.
    + by erewrite _load_service_loaded by eauto.
    + erewrite _load_service_cold by eauto. cbn.
      apply settled_alter; [|done]. intros s' Hs'. split; [|done].
      intros i Hi'. congruence.
  - unfold _load_service. by rewrite run_get, Hk.
Qed.

Lemma settled_desc k d : keeps (settled r0) any_event (update_service k (set_desc d)).
Proof. apply keeps_modify. intros r. by apply settled_alter. Qed.

Lemma settled_fetch_service svc_id : keeps (settled r0) any_event (_fetch_service svc_id).
Proof. apply generic_fetch_service; auto using settled_load, any_event_holds. Qed.

Lemma settled_fetch_options svc_id : keeps (settled r0) any_event (_fetch_options svc_id).
Proof.
  intros r HI. split; [|apply Forall_any_event].
  destruct (settled_fetch_service svc_id r HI) as [HI1 _]. revert HI1.
  unfold _fetch_options.
  destruct (_fetch_service svc_id r) as [[e|[k0 s0]] r1 ev1] eqn:Hfs; cbn; intros HI1.
  { by erewrite run_bind_raise by exact Hfs. }
  erewrite run_bind by exact Hfs. cbn.
  destruct (_fetch_service_inr _ _ _ _ _ _ Hfs) as (-> & Hk0 & inst & Hi).
  rewrite Hi. destruct (svc_options s0) as [os|] eqn:Hos.
  - rewrite run_ret, run_get, Hk0. done.
  - pose proof (build_options_run (resolve_id r svc_id) inst r1) as Hb.
    assert (forall acc, settled r0
              (set_lookup (alter (set_options acc) (resolve_id r svc_id)) r1)) as Hset.
    { intros acc. apply settled_alter; [|done]. intros s Hs. split; [done|].
      intros os Hos'. congruence. }
    destruct (check_options _ _ _ _) as [[e|[]] acc]; cbn in Hb.
    + erewrite run_bind_raise by exact Hb. apply Hset.
    + erewrite run_bind by exact Hb. rewrite run_get. cbn.
      rewrite lookup_alter_eq, Hk0. cbn. apply Hset.
Qed.

Lemma settled_run_op o : keeps (settled r0) any_event (run_op o).
Proof.
  apply generic_run_op; auto using any_event_holds.
  - intros. apply generic_validate_service. apply settled_fetch_options.
  - intros. apply generic_get_desc;
      auto using settled_load, settled_desc, any_event_holds.
  - intros. apply generic_get_options. apply settled_fetch_options.
  - apply generic_get_services;
      auto using settled_load, settled_desc, any_event_holds.
Qed.

End Settled.

Section Resolved.
Context `{PyValues}.

Lemma resolves_settled r r' svc_id text options t :
  settled r r' -> resolves r svc_id text options t -> resolves r' svc_id text options t.
Proof.
  intros (Hc & Ha & Hn & Ht & Hl) (s & inst & os & H1 & H2 & H3 & H4 & H5 & H6 & H7 & H8).
  destruct (Hl _ _ H4) as (s' & Hs' & Hi' & Ho').
  exists s', inst, os. unfold resolve_id. rewrite Hc, Ha, Hn, Ht.
  split_and!; auto.
Qed.

Lemma _validate_service_resolved r svc_id text options t :
  resolves r svc_id text options t ->
  exists s,
    _validate_service svc_id options r
    = Outcome (inr (t_svc_id t, s, t_options t)) r [EvLookup (t_svc_id t)].
Proof.
  intros (s & inst & os & _ & _ & Hid & Hk & Hi & Hos & Hv & _).
  exists s. rewrite Hid in Hk |- *. unfold _validate_service.
  erewrite run_bind by (eapply _fetch_options_ready; eauto).
  cbn. rewrite run_get, Hos, run_ret, Hv, run_lift_inr. done.
Qed.

(** A resolved request goes through the [try] block without touching
    the router: it fails if its path is in flight, before the disk is
    asked, and otherwise reports what the disk says. *)
Lemma parse_call_resolved on_disk r svc_id text options t :
  resolves r svc_id text options t ->
  parse_call on_disk svc_id text options r
  = if bool_decide (t_path t ∈ _busy r)
    then Outcome (inl (BusyError (already_busy (t_svc_id t) (t_path t)))) r
           [EvLookup (t_svc_id t)]
    else Outcome (inr (t, on_disk (t_path t))) r
           [EvLookup (t_svc_id t); EvExists (t_path t)].
Proof.
  intros Hres. destruct (_validate_service_resolved _ _ _ _ _ Hres) as [s Hvs].
  destruct Hres as (_ & _ & _ & Htext & Hne & _ & _ & _ & _ & _ & Hpath).
  unfold parse_call.
  erewrite run_bind.
  2:{ rewrite _validate_text_run, <- Htext.
      by apply String.eqb_neq in Hne as ->. }
  erewrite run_bind by exact Hvs. cbn.
  pose proof (_validate_path_run (t_svc_id t) (t_text t) (t_options t) r) as Hvp.
  cbn in Hvp. rewrite <- Hpath in Hvp.
  destruct (bool_decide (t_path t ∈ _busy r)).
  - erewrite run_bind_raise by exact Hvp. done.
  - erewrite run_bind by exact Hvp. rewrite run_emit. cbn.
    by destruct t.
Qed.

End Resolved.

(** ** Single flight *)

Section SingleFlight.
Context `{PyValues}.

(** A call that starts a worker went through the whole [try] block, found
    the disk without the file, and put the task in flight. *)
Lemma call_spawns on_disk svc_id text options cbs r w t :
  EvSpawn w t ∈ emitted (__call__ on_disk svc_id text options cbs r) ->
  exists r1 pre,
    parse_call on_disk svc_id text options r
    = Outcome (inr (t, false)) r1 (pre ++ [EvExists (t_path t)]) /\
    Forall is_registry pre /\
    w = S (_next_id (_pool r1)) /\
    resolves r1 svc_id text options t /\
    (t_path t ∉ _busy r) /\
    same_frame r r1.
Proof.
  destruct (parse_call on_disk svc_id text options r) as [[e|[t' [|]]] r1 ev1] eqn:Hpc.
  - destruct (parse_call_inl _ _ _ _ _ _ _ _ Hpc) as [_ Hev].
    rewrite (call_fails _ _ _ _ cbs _ _ _ _ Hpc). cbn.
    rewrite !elem_of_app, list_elem_of_singleton. rewrite Forall_forall in Hev.
    intros [Hin|[Hin|[=]]]; [by apply Hev in Hin|].
    unfold done_events in Hin. destruct (cb_done cbs).
    + by apply list_elem_of_singleton in Hin.
    + by apply elem_of_nil in Hin.
  - destruct (parse_call_inr _ _ _ _ _ _ _ _ _ Hpc)
      as (_ & _ & _ & _ & pre & -> & Hpre).
    rewrite (call_hits _ _ _ _ cbs _ _ _ _ Hpc). cbn.
    rewrite !elem_of_app, !list_elem_of_singleton. rewrite Forall_forall in Hpre.
    intros [[Hin|[=]]|[Hin|[=]]]; [by apply Hpre in Hin|].
    unfold done_events in Hin. destruct (cb_done cbs).
    + by apply list_elem_of_singleton in Hin.
    + by apply elem_of_nil in Hin.
  - destruct (parse_call_inr _ _ _ _ _ _ _ _ _ Hpc)
      as (Hres & _ & Hbusy & Hframe & pre & -> & Hpre).
    rewrite (call_misses _ _ _ _ cbs _ _ _ _ Hpc). cbn.
    rewrite !elem_of_app, !list_elem_of_singleton.
    intros [[Hin|[=]]|[= -> ->]].
    { rewrite Forall_forall in Hpre. by apply Hpre in Hin. }
    exists r1, pre. split_and!; done.
Qed.

Lemma frame_registry_op r0 o :
  match o with Call _ _ _ _ _ | Signal _ _ => False | _ => True end ->
  keeps (same_frame r0) is_registry (run_op o).
Proof.
  destruct o as [trait| |svc_id|svc_id|on_disk svc_id text options cbs|w exception];
    intros Ho; [apply keeps_ret| | | |done|done]; cbn.
  - apply keeps_void. apply generic_get_services;
      auto using frame_load, frame_update; done.
  - apply keeps_void. apply generic_get_desc;
      auto using frame_load, frame_update; done.
  - apply keeps_void. apply generic_get_options. apply frame_fetch_options.
Qed.

Lemma run_op_consistent o r : consistent r -> consistent (final (run_op o r)).
Proof.
  intros Hr. destruct o as [trait| |svc_id|svc_id|on_disk svc_id text options cbs|w exception].
  1-4: match goal with
       | |- context [run_op ?o ?x] =>
           pose proof (frame_registry_op x o I x (frame_refl x)) as [Hframe _]
       end; by eapply consistent_frame.
  - cbn.
    destruct (parse_call on_disk svc_id text options r) as [[e|[t [|]]] r1 ev1] eqn:Hpc.
    + rewrite (call_fails _ _ _ _ cbs _ _ _ _ Hpc). cbn.
      destruct (parse_call_inl _ _ _ _ _ _ _ _ Hpc) as [Hframe _].
      by eapply consistent_frame.
    + rewrite (call_hits _ _ _ _ cbs _ _ _ _ Hpc). cbn.
      destruct (parse_call_inr _ _ _ _ _ _ _ _ _ Hpc) as (_ & _ & _ & Hframe & _).
      by eapply consistent_frame.
    + rewrite (call_misses _ _ _ _ cbs _ _ _ _ Hpc). cbn.
      destruct (parse_call_inr _ _ _ _ _ _ _ _ _ Hpc) as (_ & _ & Hbusy & Hframe & _).
      apply consistent_in_flight; [by eapply consistent_frame|].
      by destruct Hframe as (-> & _).
  - cbn. destruct (_callbacks (_pool r) !! w) as [c|] eqn:Hw.
    + destruct Hr as (Hnd & Hin & Hinj). destruct (Hin _ _ Hw) as [Hp _].
      rewrite (_on_signal_run _ _ _ _ Hw Hp). cbn.
      by apply consistent_signal.
    + by rewrite _on_signal_unknown.
Qed.

Lemma run_op_pending o r w c :
  consistent r -> _callbacks (_pool r) !! w = Some c -> ~ is_signal w o ->
  _callbacks (_pool (final (run_op o r))) !! w = Some c.
Proof.
  intros Hr Hw Hsig.
  destruct o as [trait| |svc_id|svc_id|on_disk svc_id text options cbs|w' exception].
  1-4: match goal with
       | |- context [run_op ?o ?x] =>
           pose proof (frame_registry_op x o I x (frame_refl x)) as [(_ & _ & -> & _) _]
       end; done.
  - cbn.
    destruct (parse_call on_disk svc_id text options r) as [[e|[t [|]]] r1 ev1] eqn:Hpc.
    + rewrite (call_fails _ _ _ _ cbs _ _ _ _ Hpc). cbn.
      by destruct (parse_call_inl _ _ _ _ _ _ _ _ Hpc) as [(_ & _ & -> & _) _].
    + rewrite (call_hits _ _ _ _ cbs _ _ _ _ Hpc). cbn.
      by destruct (parse_call_inr _ _ _ _ _ _ _ _ _ Hpc)
        as (_ & _ & _ & (_ & _ & -> & _) & _).
    + rewrite (call_misses _ _ _ _ cbs _ _ _ _ Hpc). cbn.
      destruct (parse_call_inr _ _ _ _ _ _ _ _ _ Hpc)
        as (_ & _ & _ & (_ & _ & -> & _) & _).
      destruct Hr as (_ & Hin & _). destruct (Hin _ _ Hw) as [_ Hle].
      rewrite lookup_insert_ne by lia. done.
  - cbn in Hsig |- *. destruct (_callbacks (_pool r) !! w') as [c'|] eqn:Hw'.
    + destruct Hr as (Hnd & Hin & Hinj). destruct (Hin _ _ Hw') as [Hp _].
      rewrite (_on_signal_run _ _ _ _ Hw' Hp). cbn.
      by rewrite lookup_delete_ne.
    + by rewrite _on_signal_unknown.
Qed.

(** No operation starts a worker for a path that is in flight. *)
Lemma run_op_spawn_fresh o r w t :
  consistent r -> EvSpawn w t ∈ emitted (run_op o r) -> t_path t ∉ _busy r.
Proof.
  intros Hr.
  destruct o as [trait| |svc_id|svc_id|on_disk svc_id text options cbs|w' exception].
  1-4: match goal with
       | |- context [run_op ?o ?x] =>
           pose proof (frame_registry_op x o I x (frame_refl x)) as [_ Hev]
       end; rewrite Forall_forall in Hev; intros Hin; by apply Hev in Hin.
  - cbn. intros Hin.
    by destruct (call_spawns _ _ _ _ _ _ _ _ Hin) as (_ & _ & _ & _ & _ & _ & ? & _).
  - cbn. intros Hin.
    assert (keeps (fun _ => True) (fun ev => ~ is_spawn ev) (_on_signal w' exception))
      as Hquiet by (apply generic_on_signal; auto).
    destruct (Hquiet r I) as [_ Hev]. rewrite Forall_forall in Hev.
    by apply Hev in Hin.
Qed.

Lemma run_ops_nil r : run_ops [] r = Outcome (inr tt) r [].
Proof. done. Qed.

Lemma run_ops_cons o os r :
  run_ops (o :: os) r
  = Outcome (result (run_ops os (final (run_op o r))))
      (final (run_ops os (final (run_op o r))))
      (emitted (run_op o r) ++ emitted (run_ops os (final (run_op o r)))).
Proof.
  unfold run_ops. cbn. unfold void.
  erewrite run_bind.
  2:{ erewrite run_bind by reflexivity. done. }
  cbn. by rewrite app_nil_r.
Qed.

(** While its signal has not come, a worker's callback stays pending and
    its path stays in flight; no other worker is started for that
    path. *)
Lemma run_ops_pending os r w c :
  consistent r -> _callbacks (_pool r) !! w = Some c ->
  Forall (fun o => ~ is_signal w o) os ->
  consistent (final (run_ops os r)) /\
  _callbacks (_pool (final (run_ops os r))) !! w = Some c /\
  (forall w' t', EvSpawn w' t' ∈ emitted (run_ops os r) -> t_path t' <> c_path c).
Proof.
  revert r. induction os as [|o os IH]; intros r Hr Hw Hos.
  - rewrite run_ops_nil. cbn. split_and!; try done.
    intros ?? Hin. by apply elem_of_nil in Hin.
  - apply Forall_cons in Hos as [Ho Hos]. rewrite run_ops_cons. cbn.
    destruct (IH (final (run_op o r))) as (Hr' & Hw' & Hfresh);
      auto using run_op_consistent, run_op_pending.
    split_and!; try done.
    intros w' t'. rewrite elem_of_app. intros [Hin|Hin]; [|by eapply Hfresh].
    apply (run_op_spawn_fresh _ _ _ _ Hr) in Hin.
    destruct Hr as (_ & Hp & _). destruct (Hp _ _ Hw) as [Hc _]. congruence.
Qed.

Lemma settled_run_ops r0 os : keeps (settled r0) any_event (run_ops os).
Proof.
  unfold run_ops. keeps_steps. apply settled_run_op.
Qed.

Lemma settled_in_flight t cbs r : settled r (in_flight t cbs r).
Proof. repeat split; try done. intros k s Hk. exists s. eauto. Qed.

(** What a call that started worker [w] leaves behind, whatever happens
    next short of [w]'s signal: a consistent router in which the request
    is still resolved and [w]'s callback still pending. *)
Lemma spawned_then on_disk svc_id text options cbs r w t os :
  consistent r ->
  EvSpawn w t ∈ emitted (__call__ on_disk svc_id text options cbs r) ->
  Forall (fun o => ~ is_signal w o) os ->
  let first := __call__ on_disk svc_id text options cbs r in
  let between := run_ops os (final first) in
  (exists pre, emitted first = (pre ++ [EvSpawn w t])%list /\ Forall is_internal pre) /\
  consistent (final between) /\
  _callbacks (_pool (final between)) !! w = Some (Completion (t_path t) cbs) /\
  resolves (final between) svc_id text options t /\
  (forall w' t', EvSpawn w' t' ∈ emitted between -> t_path t' <> t_path t).
Proof.
  intros Hr Hspawn Hos. cbn zeta.
  destruct (call_spawns _ _ _ _ _ _ _ _ Hspawn)
    as (r1 & pre & Hpc & Hpre & -> & Hres & Hfresh & Hframe).
  rewrite (call_misses _ _ _ _ cbs _ _ _ _ Hpc). cbn.
  assert (consistent (in_flight t cbs r1)) as Hr1.
  { apply consistent_in_flight; [by eapply consistent_frame|].
    by destruct Hframe as (-> & _). }
  assert (_callbacks (_pool (in_flight t cbs r1)) !! S (_next_id (_pool r1))
          = Some (Completion (t_path t) cbs)) as Hw.
  { cbn. by rewrite lookup_insert_eq. }
  destruct (run_ops_pending os _ _ _ Hr1 Hw Hos) as (Hr2 & Hw2 & Hothers).
  split_and!; try done.
  - exists (pre ++ [EvExists (t_path t)])%list. split; [done|].
    apply Forall_app. split; [|by repeat constructor].
    eapply Forall_impl; [exact Hpre|]. apply registry_internal.
  - eapply resolves_settled.
    + by apply (settled_run_ops (in_flight t cbs r1) os), settled_refl.
    + eapply resolves_settled; [apply settled_in_flight|done].
Qed.

(** C1. After a call has started a worker, and until that worker's signal
    reaches the pool, the path stays in the in-flight list, no operation
    starts another worker for it, and a second call with the same
    service id, text and options starts nothing: it calls [done] (if
    given) and then [fail] with a [BusyError], and leaves the router as
    it found it.  In any state, a call starts a worker only for a path
    that is not in the in-flight list. *)
Theorem single_flight on_disk1 on_disk2 svc_id text options cbs1 cbs2 r w t os :
  consistent r ->
  EvSpawn w t ∈ emitted (__call__ on_disk1 svc_id text options cbs1 r) ->
  Forall (fun o => ~ is_signal w o) os ->
  let first := __call__ on_disk1 svc_id text options cbs1 r in
  let between := run_ops os (final first) in
  let second := __call__ on_disk2 svc_id text options cbs2 (final between) in
  (exists pre, emitted first = (pre ++ [EvSpawn w t])%list /\ Forall is_internal pre) /\
  (t_path t ∈ _busy (final between)) /\
  (forall w' t', EvSpawn w' t' ∈ emitted between -> t_path t' <> t_path t) /\
  second
  = Outcome (inr tt) (final between)
      (EvLookup (t_svc_id t) :: done_events cbs2 ++
       [EvFail (cb_id cbs2) (BusyError (already_busy (t_svc_id t) (t_path t)))]) /\
  (forall on_disk' svc_id' text' options' cbs' r' w' t',
     EvSpawn w' t' ∈ emitted (__call__ on_disk' svc_id' text' options' cbs' r') ->
     t_path t' ∉ _busy r').
Proof.
  intros Hr Hspawn Hos. cbn zeta.
  destruct (spawned_then _ _ _ _ _ _ _ _ _ Hr Hspawn Hos)
    as (Hfirst & Hr2 & Hw2 & Hres & Hothers).
  assert (t_path t ∈ _busy (final (run_ops os
            (final (__call__ on_disk1 svc_id text options cbs1 r))))) as Hbusy.
  { destruct Hr2 as (_ & Hin & _). by destruct (Hin _ _ Hw2) as [? _]. }
  split_and!; try done.
  - pose proof (parse_call_resolved on_disk2 _ _ _ _ _ Hres) as Hpc.
    rewrite bool_decide_eq_true_2 in Hpc by done.
    by rewrite (call_fails _ _ _ _ cbs2 _ _ _ _ Hpc).
  - intros on_disk' svc_id' text' options' cbs' r' w' t' Hin.
    by destruct (call_spawns _ _ _ _ _ _ _ _ Hin) as (_ & _ & _ & _ & _ & _ & ? & _).
Qed.




End SingleFlight.

(** ** Every state the router can be in is consistent *)

Section Reachable.
Context `{PyValues}.

Lemma consistent_init b cache_dir : consistent (__init__ b cache_dir).
Proof.
  unfold consistent. cbn. split_and!.
  - constructor.
  - intros w c Hw. by rewrite lookup_empty in Hw.
  - intros w1 w2 c1 c2 Hw. by rewrite lookup_empty in Hw.
Qed.

Lemma consistent_run_ops os r : consistent r -> consistent (final (run_ops os r)).
Proof.
  revert r. induction os as [|o os IH]; intros r Hr; [done|].
  rewrite run_ops_cons. cbn. by apply IH, run_op_consistent.
Qed.

Lemma consistent_reachable b cache_dir os :
  consistent (final (run_ops os (__init__ b cache_dir))).
Proof. apply consistent_run_ops, consistent_init. Qed.

End Reachable.

(** ** The properties at work in the [Acme] world *)

Module AcmeRuns.
Import Acme.

(** Evaluate the trace of a run, then look the event up in it. *)
Ltac find_event :=
  lazymatch goal with
  | |- _ ∈ emitted ?o =>
      let evs := eval vm_compute in (emitted o) in
      change (emitted o) with evs;
      repeat first [apply list_elem_of_here | apply list_elem_of_further]
  end.

(** C2 fails on the code: when the worker raises and ['fail'] returns
    [None], the completion callback calls [fail] and then [okay]. *)
Lemma failed_run_calls_fail_then_okay :
  emitted
    (run_ops [Call cold "acme" "Hello" hello (caller 1);
              Signal 1 (Some (StandardError "boom"))] fresh)
  = [ EvLookup "acme"; EvInit "acme"; EvOptions "acme";
      EvExists (t_path hello_task); EvSpawn 1 hello_task;
      EvDone 1; EvFail 1 (StandardError "boom"); EvOkay 1 (t_path hello_task) ].
Proof. reflexivity. Qed.

(** C3 as stated fails on the code: the file of a request is on disk, its
    path is in flight, and the call ends in [fail] with a [BusyError]
    without the disk having been asked. *)
Lemma in_flight_checked_before_disk :
  let r := final (__call__ cold "acme" "Hello" hello (caller 1) fresh) in
  resolves r "acme" "Hello" hello hello_task /\
  warm (t_path hello_task) = true /\
  emitted (__call__ warm "acme" "Hello" hello (caller 2) r)
  = [ EvLookup "acme"; EvDone 2;
      EvFail 2 (BusyError (already_busy "acme" (t_path hello_task))) ].
Proof.
  cbv zeta. split; [|split; reflexivity].
  exists acme_ready, acme_instance, acme_schema.
  split_and!; try reflexivity. discriminate.
Qed.

(** C9 as stated fails on the code: a schema whose only option has an
    empty list of values is built and returned. *)
Lemma empty_list_of_values_accepted :
  match result (get_options "sloppy" fresh) with
  | inr os => map opt_values os = [DList []]
  | inl _ => False
  end.
Proof. reflexivity. Qed.

Lemma single_flight_witness :
  consistent fresh /\
  EvSpawn 1 hello_task ∈ emitted (__call__ cold "acme" "Hello" hello (caller 1) fresh) /\
  Forall (fun o => ~ is_signal 1 o) meanwhile /\
  __call__ warm "acme" "Hello" hello (caller 2)
    (final (run_ops meanwhile (final (__call__ cold "acme" "Hello" hello (caller 1) fresh))))
  = Outcome (inr tt)
      (final (run_ops meanwhile (final (__call__ cold "acme" "Hello" hello (caller 1) fresh))))
      (EvLookup "acme" :: done_events (caller 2) ++
       [EvFail 2 (BusyError (already_busy "acme" (t_path hello_task)))]).
Proof.
  assert (consistent fresh) as Hfresh by apply consistent_init.
  assert (EvSpawn 1 hello_task
          ∈ emitted (__call__ cold "acme" "Hello" hello (caller 1) fresh)) as Hspawn
    by find_event.
  assert (Forall (fun o => ~ is_signal 1 o) meanwhile) as Hmeanwhile
    by (repeat constructor; cbn; try tauto; lia).
  split; [exact Hfresh|]. split; [exact Hspawn|]. split; [exact Hmeanwhile|].
  exact (proj1 (proj2 (proj2 (proj2
    (single_flight cold warm "acme" "Hello" hello (caller 1) (caller 2) fresh 1
       hello_task meanwhile Hfresh Hspawn Hmeanwhile))))).
Defined.

Lemma cache_hit_when_not_in_flight_witness :
  EvExists (t_path hello_task)
    ∈ emitted (__call__ warm "acme" "Hello" hello (caller 1) fresh) /\
  warm (t_path hello_task) = true /\
  _busy (final (__call__ warm "acme" "Hello" hello (caller 1) fresh)) = _busy fresh.
Proof.
  assert (EvExists (t_path hello_task)
          ∈ emitted (__call__ warm "acme" "Hello" hello (caller 1) fresh)) as Hexists
    by find_event.
  split; [done|]. split; [done|].
  exact (proj1 (proj2 (proj2 (proj2 (proj2
    (cache_hit_when_not_in_flight warm "acme" "Hello" hello (caller 1) fresh
       (t_path hello_task) Hexists eq_refl)))))).
Defined.

Lemma path_cache_deterministic_witness :
  NoDup (Dict.keys hello) /\
  hello ≡ₚ reverse hello /\
  _path_cache "cache" "acme" "Hello" hello
  = _path_cache "cache" "acme" "Hello" (reverse hello).
Proof.
  assert (NoDup (Dict.keys hello)) as Hkeys
    by (apply (bool_decide_unpack _); reflexivity).
  assert (hello ≡ₚ reverse hello) as Hperm by apply Permutation_swap.
  split; [done|]. split; [done|].
  exact (path_cache_deterministic "cache" "acme" "Hello" hello (reverse hello) Hkeys Hperm).
Defined.


Lemma empty_text_fails_witness :
  textize (_services fresh) "   " = "" /\
  __call__ cold "acme" "   " hello (caller 1) fresh
  = Outcome (inr tt) fresh
      (done_events (caller 1) ++ [EvFail 1 (ValueError "The input text must be set.")]).
Proof.
  split; [done|].
  exact (empty_text_fails cold "acme" "   " hello (caller 1) fresh eq_refl).
Defined.



Lemma schema_is_checked_witness :
  let r := final (_load_service "sloppy" fresh) in
  lookup (_services r) !! resolve_id r "sloppy" = Some sloppy_loaded /\
  svc_instance sloppy_loaded = Some (Some sloppy_instance) /\
  svc_options sloppy_loaded = None /\
  Forall (well_declared (normalize (_services r))) (inst_options sloppy_instance).
Proof.
  cbv zeta.
  assert (lookup (_services (final (_load_service "sloppy" fresh)))
            !! resolve_id (final (_load_service "sloppy" fresh)) "sloppy"
          = Some sloppy_loaded) as Hloaded by reflexivity.
  split; [done|]. split; [done|]. split; [done|].
  pose proof (schema_is_checked "sloppy" (final (_load_service "sloppy" fresh))
                sloppy_loaded sloppy_instance Hloaded eq_refl eq_refl) as Hchecked.
  destruct (result (get_options "sloppy" (final (_load_service "sloppy" fresh))))
    as [e|os] eqn:Hresult.
  - exfalso.
    change (result (get_options "sloppy" (final (_load_service "sloppy" fresh))))
      with (inr (A:=exn) [SvcOption "voice" "Voice:" (DList []) (fun v : value => inr v) None])
      in Hresult.
    discriminate.
  - exact (proj1 Hchecked).
Defined.

Lemma failure_keeps_in_flight_witness :
  EvFail 1 (ValueError "There is no 'ghost' service")
    ∈ emitted (__call__ cold "ghost" "Hello" hello (caller 1) fresh) /\
  _busy (final (__call__ cold "ghost" "Hello" hello (caller 1) fresh)) = _busy fresh.
Proof.
  assert (EvFail 1 (ValueError "There is no 'ghost' service")
          ∈ emitted (__call__ cold "ghost" "Hello" hello (caller 1) fresh)) as Hfail
    by find_event.
  split; [done|].
  exact (proj1 (proj1
    (failure_keeps_in_flight cold "ghost" "Hello" hello (caller 1) fresh) _ Hfail)).
Defined.

End AcmeRuns.

(** * More of the router *)

(** ** Dispatch always returns *)

Section Returns.
Context `{PyValues}.


Lemma _fetch_service_unknown svc_id r :
  lookup (_services r) !! resolve_id r svc_id = None ->
  _fetch_service svc_id r
  = Outcome (inl (ValueError ("There is no '" +:+ resolve_id r svc_id +:+ "' service")))
      r [EvLookup (resolve_id r svc_id)].
Proof.
  intros Hk. unfold _fetch_service. by rewrite run_get, run_emit, Hk.
Qed.

(** X2. A call for a service id that, once normalized and looked up in the
    alias table, is not a key of the service table fails with the
    [ValueError] of [_fetch_service]; the router is left as it was and no
    service is initialized. *)
Theorem unknown_service_fails on_disk svc_id text options cbs r :
  textize (_services r) text <> "" ->
  lookup (_services r) !! resolve_id r svc_id = None ->
  __call__ on_disk svc_id text options cbs r
  = Outcome (inr tt) r
      (EvLookup (resolve_id r svc_id) :: done_events cbs ++
       [EvFail (cb_id cbs)
          (ValueError ("There is no '" +:+ resolve_id r svc_id +:+ "' service"))]).
Proof.
  intros Htext Hk.
  rewrite (call_fails on_disk svc_id text options cbs r
             (ValueError ("There is no '" +:+ resolve_id r svc_id +:+ "' service"))
             r [EvLookup (resolve_id r svc_id)]); [done|].
  unfold parse_call. erewrite run_bind.
  2:{ rewrite _validate_text_run. by apply String.eqb_neq in Htext as ->. }
  erewrite run_bind_raise; [done|].
  unfold _validate_service. erewrite run_bind_raise; [done|].
  unfold _fetch_options. erewrite run_bind_raise; [done|].
  by apply _fetch_service_unknown.
Qed.

(** X3. A call for a service whose initialization failed fails with the
    [EnvironmentError] of [_fetch_service], without another attempt. *)
Theorem unavailable_service_fails on_disk svc_id text options cbs r s :
  textize (_services r) text <> "" ->
  lookup (_services r) !! resolve_id r svc_id = Some s ->
  svc_instance s = Some None ->
  __call__ on_disk svc_id text options cbs r
  = Outcome (inr tt) r
      (EvLookup (resolve_id r svc_id) :: done_events cbs ++
       [EvFail (cb_id cbs)
          (EnvironmentError
             ("The " +:+ svc_name s +:+ " service is not currently available"))]).
Proof.
  intros Htext Hk Hi.
  rewrite (call_fails on_disk svc_id text options cbs r
             (EnvironmentError
                ("The " +:+ svc_name s +:+ " service is not currently available"))
             r [EvLookup (resolve_id r svc_id)]); [done|].
  unfold parse_call. erewrite run_bind.
  2:{ rewrite _validate_text_run. by apply String.eqb_neq in Htext as ->. }
  erewrite run_bind_raise; [done|].
  unfold _validate_service. erewrite run_bind_raise; [done|].
  unfold _fetch_options. erewrite run_bind_raise; [done|].
  by apply _fetch_service_unavailable.
Qed.

End Returns.

(** ** The in-flight entry is released *)

Section Released.
Context `{PyValues}.

Lemma settled_signal w p r :
  settled r
    (set_pool (fun q => Pool (_next_id q) (delete w (_callbacks q)) (delete w (_workers q)))
       (set_busy (list_remove p) r)).
Proof. repeat split; try done. intros k s Hk. exists s. eauto. Qed.

(** X4. When the signal of the worker that a call started reaches the pool,
    the path leaves the in-flight list and the callback leaves the pool:
    a second signal for that worker finds nothing to call, and the same
    request, dispatched again, is served from the cache or handed to a
    new worker instead of failing as busy. *)
Theorem completion_releases on_disk on_disk' svc_id text options cbs cbs' r w t os
    exception :
  consistent r ->
  EvSpawn w t ∈ emitted (__call__ on_disk svc_id text options cbs r) ->
  Forall (fun o => ~ is_signal w o) os ->
  let first := __call__ on_disk svc_id text options cbs r in
  let signal := _on_signal w exception (final (run_ops os (final first))) in
  result signal = inr tt /\
  (t_path t ∉ _busy (final signal)) /\
  _on_signal w exception (final signal)
  = Outcome (inl (KeyError "worker_id")) (final signal) [] /\
  __call__ on_disk' svc_id text options cbs' (final signal)
  = if on_disk' (t_path t)
    then Outcome (inr tt) (final signal)
           (EvLookup (t_svc_id t) :: EvExists (t_path t) :: done_events cbs' ++
            [EvOkay (cb_id cbs') (t_path t)])
    else Outcome (inr tt) (in_flight t cbs' (final signal))
           [EvLookup (t_svc_id t); EvExists (t_path t);
            EvSpawn (S (_next_id (_pool (final signal)))) t].
Proof.
  intros Hr Hspawn Hos. cbn zeta.
  destruct (spawned_then _ _ _ _ _ _ _ _ _ Hr Hspawn Hos)
    as (_ & Hr2 & Hw2 & Hres & _).
  set (r2 := final (run_ops os (final (__call__ on_disk svc_id text options cbs r)))) in *.
  assert (t_path t ∈ _busy r2) as Hbusy.
  { destruct Hr2 as (_ & Hin & _). by destruct (Hin _ _ Hw2) as [? _]. }
  rewrite (_on_signal_run _ _ _ _ Hw2 Hbusy). cbn.
  set (r3 := set_pool _ (set_busy _ r2)).
  assert (t_path t ∉ _busy r3) as Hfree.
  { subst r3. cbn. destruct Hr2 as (Hnd & _).
    rewrite elem_of_list_remove by done. tauto. }
  split; [done|]. split; [done|]. split.
  { apply _on_signal_unknown. subst r3. cbn. by rewrite lookup_delete_eq. }
  assert (resolves r3 svc_id text options t) as Hres3
    by (eapply resolves_settled; [apply settled_signal|done]).
  pose proof (parse_call_resolved on_disk' _ _ _ _ _ Hres3) as Hpc.
  rewrite bool_decide_eq_false_2 in Hpc by done.
  destruct (on_disk' (t_path t)).
  - by rewrite (call_hits _ _ _ _ cbs' _ _ _ _ Hpc).
  - by rewrite (call_misses _ _ _ _ cbs' _ _ _ _ Hpc).
Qed.

End Released.

(** ** What the registry remembers *)

Section Memo.
Context `{PyValues}.

Lemma get_desc_known svc_id r s inst d :
  lookup (_services r) !! resolve_id r svc_id = Some s ->
  svc_instance s = Some (Some inst) ->
  svc_desc s = Some d ->
  get_desc svc_id r = Outcome (inr d) r [EvLookup (resolve_id r svc_id)].
Proof.
  intros Hk Hi Hd. unfold get_desc.
  erewrite run_bind by (eapply _fetch_service_ready; eauto).
  cbn. by rewrite Hd.
Qed.

(** X5. Once [get_desc] has returned a description, it returns the same one
    again without asking the service and without changing the router. *)
Theorem get_desc_memoized svc_id r d :
  result (get_desc svc_id r) = inr d ->
  get_desc svc_id (final (get_desc svc_id r))
  = Outcome (inr d) (final (get_desc svc_id r)) [EvLookup (resolve_id r svc_id)].
Proof.
  unfold get_desc at 1 3 4.
  destruct (frame_fetch_service r svc_id r (frame_refl r)) as [Hframe _].
  destruct (_fetch_service svc_id r) as [[e|[k s]] r1 ev1] eqn:Hfs; cbn in Hframe.
  { erewrite run_bind_raise by exact Hfs. done. }
  erewrite run_bind by exact Hfs. cbn.
  destruct (_fetch_service_inr _ _ _ _ _ _ Hfs) as (-> & Hk & inst & Hi).
  rewrite Hi. rewrite <- (resolve_id_frame r r1) in Hk |- * by done.
  destruct (svc_desc s) as [d'|] eqn:Hd; cbn.
  - intros [= <-]. by eapply get_desc_known.
  - rewrite run_emit. unfold update_service. rewrite run_modify. cbn.
    intros [= <-].
    eapply (get_desc_known svc_id (set_lookup _ r1)); cbn.
    + change (resolve_id (set_lookup _ r1) svc_id) with (resolve_id r1 svc_id).
      by rewrite lookup_alter_eq, Hk.
    + done.
    + done.
Qed.

(** X6. Once [get_options] has returned a schema, it returns the same one
    again without asking the service and without changing the router. *)
Theorem get_options_memoized svc_id r os :
  result (get_options svc_id r) = inr os ->
  get_options svc_id (final (get_options svc_id r))
  = Outcome (inr os) (final (get_options svc_id r)) [EvLookup (resolve_id r svc_id)].
Proof.
  unfold get_options at 1 3 4.
  destruct (frame_fetch_options r svc_id r (frame_refl r)) as [Hframe _].
  destruct (_fetch_options svc_id r) as [[e|[k s]] r1 ev1] eqn:Hfo; cbn in Hframe.
  { erewrite run_bind_raise by exact Hfo. done. }
  erewrite run_bind by exact Hfo. cbn.
  destruct (_fetch_options_inr _ _ _ _ _ _ Hfo) as (-> & Hk & inst & os' & Hi & Hos).
  rewrite Hos. cbn. intros [= <-].
  rewrite <- (resolve_id_frame r r1) in Hk |- * by done.
  unfold get_options.
  erewrite run_bind by (eapply _fetch_options_ready; eauto).
  cbn. by rewrite Hos.
Qed.

(** X7. A schema that fails an assertion is rejected once only: the options
    that passed before the offending one stay under ['options'], and the
    next [get_options] returns them as the schema. *)
Theorem get_options_after_rejection svc_id r s inst e accepted :
  lookup (_services r) !! resolve_id r svc_id = Some s ->
  svc_instance s = Some (Some inst) ->
  svc_options s = None ->
  check_options (normalize (_services r)) (resolve_id r svc_id) (inst_options inst) []
  = (inl e, accepted) ->
  let k := resolve_id r svc_id in
  let r' := set_lookup (alter (set_options accepted) k) r in
  get_options svc_id r = Outcome (inl e) r' [EvLookup k; EvOptions k] /\
  get_options svc_id r' = Outcome (inr accepted) r' [EvLookup k].
Proof.
  intros Hk Hi Hos Hc. cbn zeta. split.
  - unfold get_options. erewrite run_bind_raise; [done|].
    rewrite (_fetch_options_builds svc_id r s inst Hk Hi Hos). by rewrite Hc.
  - unfold get_options.
    erewrite run_bind.
    2:{ eapply (_fetch_options_ready svc_id (set_lookup _ r) (set_options accepted s)).
        - change (resolve_id (set_lookup _ r) svc_id) with (resolve_id r svc_id). cbn.
          by rewrite lookup_alter_eq, Hk.
        - exact Hi.
        - done. }
    done.
Qed.

End Memo.

(** ** The list of available services *)

Section Available.
Context `{PyValues}.




(** The loop of [get_services]: it never raises, initializes what was
    not, and touches nothing else. *)
Lemma load_all ks r :
  exists r' evs,
    for_each ks _load_service r = Outcome (inr tt) r' evs /\
    same_frame r r' /\
    avail (_services r') = avail (_services r) /\
    (forall k, lookup (_services r) !! k = None -> lookup (_services r') !! k = None) /\
    (forall k s, lookup (_services r) !! k = Some s ->
       exists s', lookup (_services r') !! k = Some s' /\
         svc_name s' = svc_name s /\
         (forall i, svc_instance s = Some i -> s' = s) /\
         (k ∈ ks -> is_Some (svc_instance s'))) /\
    ((forall k s, k ∈ ks -> lookup (_services r) !! k = Some s -> is_Some (svc_instance s)) ->
     r' = r /\ evs = []).
Proof.
  revert r. induction ks as [|k ks IH]; intros r.
  - exists r, []. split; [done|]. split; [apply frame_refl|]. split; [done|].
    split; [done|]. split; [|done].
    intros k s Hk. exists s. split_and!; try done. by intros ?%elem_of_nil.
  - assert (exists r1 ev1,
        _load_service k r = Outcome (inr tt) r1 ev1 /\ same_frame r r1 /\
        avail (_services r1) = avail (_services r) /\
        (forall k', lookup (_services r) !! k' = None -> lookup (_services r1) !! k' = None) /\
        (forall k' s, lookup (_services r) !! k' = Some s ->
           exists s', lookup (_services r1) !! k' = Some s' /\
             svc_name s' = svc_name s /\
             (forall i, svc_instance s = Some i -> s' = s) /\
             (k' = k -> is_Some (svc_instance s'))) /\
        ((forall s, lookup (_services r) !! k = Some s -> is_Some (svc_instance s)) ->
         r1 = r /\ ev1 = [])) as (r1 & ev1 & Hload & Hf1 & Ha1 & Hn1 & Hs1 & Hid1).
    { destruct (lookup (_services r) !! k) as [s|] eqn:Hk.
      - destruct (svc_instance s) as [i|] eqn:Hi.
        + eexists _, _. split; [by eapply _load_service_loaded|].
          split; [apply frame_refl|]. split; [done|]. split; [done|]. split; [|done].
          intros k' s' Hk'. exists s'. split_and!; try done.
          intros ->. rewrite Hk in Hk'. injection Hk' as <-. by rewrite Hi.
        + eexists _, _. split; [by eapply _load_service_cold|].
          split; [by repeat split|]. split; [done|]. cbn. split; [|split].
          * intros k' Hk'. rewrite lookup_alter_ne; [done|]. congruence.
          * intros k' s' Hk'. destruct (decide (k = k')) as [<-|Hne].
            -- rewrite lookup_alter_eq, Hk. cbn. rewrite Hk in Hk'. injection Hk' as <-.
               eexists. split_and!; try done. intros i Hi'. congruence.
            -- rewrite lookup_alter_ne by done. exists s'. split_and!; try done.
               all: congruence.
          * intros Hall. destruct (Hall s eq_refl) as [i Hi']. congruence.
      - eexists _, _. split.
        { unfold _load_service. by rewrite run_get, Hk. }
        split; [apply frame_refl|]. split; [done|]. split; [done|]. split; [|done].
        intros k' s' Hk'. exists s'. split_and!; try done. congruence. }
    destruct (IH r1) as (r2 & ev2 & Hrest & Hf2 & Ha2 & Hn2 & Hs2 & Hid2).
    exists r2, (ev1 ++ ev2)%list. split.
    { cbn. erewrite run_bind by exact Hload. by rewrite Hrest. }
    split.
    { destruct Hf1 as (? & ? & ? & ? & ? & ?), Hf2 as (? & ? & ? & ? & ? & ?).
      repeat split; congruence. }
    split; [congruence|]. split; [auto|]. split.
    + intros k' s Hk'. destruct (Hs1 _ _ Hk') as (s1 & Hk1 & Hname1 & Hkeep1 & Hnew1).
      destruct (Hs2 _ _ Hk1) as (s2 & Hk2 & Hname2 & Hkeep2 & Hnew2).
      exists s2. split_and!; [done|congruence| |].
      * intros i Hi. pose proof (Hkeep1 _ Hi) as ->. exact (Hkeep2 _ Hi).
      * intros [->|Hin]%elem_of_cons; [|by apply Hnew2].
        destruct (Hnew1 eq_refl) as [i Hi]. rewrite (Hkeep2 _ Hi). by eexists.
    + intros Hall.
      destruct Hid1 as [-> ->]; [intros s Hk; apply (Hall k); [left|done]|].
      destruct Hid2 as [-> ->]; [|done].
      intros k' s Hin Hk'. apply (Hall k'); [by right|done].
Qed.

Lemma get_services_rebuilds r :
  avail (_services r) = None \/ avail (_services r) = Some [] ->
  get_services r
  = let loaded := for_each (map_to_list (lookup (_services r))).*1 _load_service r in
    let found :=
      sorted (fun a b : string * string => String.ltb (lower a.2) (lower b.2))
        (omap (fun kv : string * service =>
                 match svc_instance kv.2 with
                 | Some (Some _) => Some (kv.1, svc_name kv.2)
                 | _ => None
                 end)
              (map_to_list (lookup (_services (final loaded))))) in
    Outcome (inr found) (set_avail found (final loaded)) (emitted loaded).
Proof.
  intros Havail. cbn zeta. unfold get_services. rewrite run_get.
  destruct (load_all (map_to_list (lookup (_services r))).*1 r)
    as (r' & evs & Hloop & _).
  destruct Havail as [Ha|Ha]; rewrite Ha;
    erewrite run_bind by exact Hloop; rewrite run_get, run_modify;
    rewrite Hloop; cbn; by rewrite app_nil_r.
Qed.


Lemma get_services_rebuilt_again r found :
  avail (_services r) = None \/ avail (_services r) = Some [] ->
  result (get_services r) = inr found ->
  get_services (final (get_services r))
  = Outcome (inr found) (final (get_services r)) [].
Proof.
  intros Havail. rewrite get_services_rebuilds by done. cbn zeta.
  destruct (load_all (map_to_list (lookup (_services r))).*1 r)
    as (r' & evs & Hloop & _ & _ & Hnone' & Hsome & _).
  rewrite Hloop. cbn.
  set (l := sorted _ _). intros [= <-].
  destruct l as [|a rest] eqn:Hfound;
    [|unfold get_services; by rewrite run_get].
  rewrite get_services_rebuilds by (by right). cbn zeta.
  destruct (load_all (map_to_list (lookup (_services (set_avail [] r')))).*1
              (set_avail [] r'))
    as (r'' & evs' & Hloop' & _ & _ & _ & _ & Hid).
  destruct Hid as [-> ->].
  - intros k s' [[k' s''] [[= <-] Hin]]%list_elem_of_fmap Hk'.
    cbn in Hk'. apply elem_of_map_to_list in Hin. cbn in Hin.
    destruct (lookup (_services r) !! k) as [s|] eqn:Hk;
      [|by rewrite (Hnone' _ Hk) in Hk'].
    destruct (Hsome _ _ Hk) as (s1 & Hk1 & _ & _ & Hnew).
    rewrite Hk' in Hk1. injection Hk1 as <-. apply Hnew.
    apply list_elem_of_fmap. exists (k, s). split; [done|].
    by apply elem_of_map_to_list.
  - rewrite Hloop'. cbn.
    change (lookup (_services (set_avail [] r'))) with (lookup (_services r')).
    subst l. by rewrite Hfound.
Qed.

(** X9. What [get_services] returned, it returns again, without initializing
    anything and without changing the router. *)
Theorem get_services_memoized r found :
  result (get_services r) = inr found ->
  get_services (final (get_services r))
  = Outcome (inr found) (final (get_services r)) [].
Proof.
  destruct (avail (_services r)) as [[|a rest]|] eqn:Havail.
  - apply get_services_rebuilt_again. by right.
  - assert (get_services r = Outcome (inr (a :: rest)) r []) as Hmemo.
    { unfold get_services. by rewrite run_get, Havail. }
    rewrite Hmemo. cbn. intros [= <-]. exact Hmemo.
  - apply get_services_rebuilt_again. by left.
Qed.

End Available.

(** ** What validation lets through *)

Section Validated.
Context `{PyValues}.

Lemma dict_keys_set {V} k (v : V) d :
  Dict.keys (Dict.set k v d)
  = if bool_decide (k ∈ Dict.keys d) then Dict.keys d else (Dict.keys d ++ [k])%list.
Proof.
  unfold Dict.keys. induction d as [|[k' v'] d IH]; cbn; [done|].
  destruct (String.eqb_spec k k') as [<-|Hne]; cbn.
  - rewrite bool_decide_eq_true_2; [done|left].
  - rewrite IH. destruct (bool_decide (k ∈ d.*1)) eqn:Hk.
    + apply bool_decide_eq_true in Hk. rewrite bool_decide_eq_true_2; [done|by right].
    + apply bool_decide_eq_false in Hk. rewrite bool_decide_eq_false_2; [done|].
      intros [?|?]%elem_of_cons; congruence.
Qed.

Lemma elem_of_keys_set {V} x k (v : V) d :
  x ∈ Dict.keys (Dict.set k v d) <-> x = k \/ x ∈ Dict.keys d.
Proof.
  rewrite dict_keys_set. case_bool_decide as Hk.
  - split; [auto|]. by intros [->|?].
  - rewrite elem_of_app, list_elem_of_singleton. tauto.
Qed.

Lemma NoDup_keys_set {V} k (v : V) d :
  NoDup (Dict.keys d) -> NoDup (Dict.keys (Dict.set k v d)).
Proof.
  intros Hd. rewrite dict_keys_set. case_bool_decide as Hk; [done|].
  apply NoDup_app. split; [done|]. split; [|apply NoDup_singleton].
  intros x Hx ->%list_elem_of_singleton. done.
Qed.

Lemma keys_of_items {V} (l : list (string * V)) :
  NoDup (Dict.keys (Dict.of_items l)) /\
  forall x, x ∈ Dict.keys (Dict.of_items l) <-> x ∈ l.*1.
Proof.
  unfold Dict.of_items.
  assert (forall d : Dict.t V,
            NoDup (Dict.keys d) ->
            NoDup (Dict.keys (foldl (fun d kv => Dict.set kv.1 kv.2 d) d l)) /\
            forall x, x ∈ Dict.keys (foldl (fun d kv => Dict.set kv.1 kv.2 d) d l)
                      <-> x ∈ Dict.keys d \/ x ∈ l.*1) as Hgen.
  { induction l as [|[k v] l IH]; intros d Hd; cbn.
    - split; [done|]. intros x. rewrite elem_of_nil. tauto.
    - destruct (IH (Dict.set k v d)) as [Hnd Hin]; [by apply NoDup_keys_set|].
      split; [done|]. intros x. rewrite Hin, elem_of_keys_set, elem_of_cons. tauto. }
  destruct (Hgen []) as [Hnd Hin]; [constructor|]. split; [done|].
  intros x. rewrite Hin. cbn. rewrite elem_of_nil. tauto.
Qed.

(** The keys that [known_options] keeps are declared ones, each kept
    once. *)
Lemma known_options_keys norm svc_options (options : Dict.t value) :
  NoDup (Dict.keys (known_options norm svc_options options)) /\
  forall x, x ∈ Dict.keys (known_options norm svc_options options) ->
            x ∈ map opt_key svc_options.
Proof.
  unfold known_options.
  destruct (keys_of_items
              (filter (fun kv : string * value => kv.1 ∈ map opt_key svc_options)
                 (map (fun kv : string * value => (norm kv.1, kv.2)) options)))
    as [Hnd Hin].
  split; [done|]. intros x Hx. apply Hin in Hx.
  apply list_elem_of_fmap in Hx as ([k v] & -> & Hkv).
  by apply list_elem_of_filter in Hkv as [Hk _].
Qed.

(** One turn of the loop either adds a problem, or binds the option's
    key to a legal value: the default when the caller gave none, what
    ['transform'] made of the caller's value otherwise. *)
Lemma validate_option_turn h st st' :
  validate_option h st = inr st' ->
  (exists problem, st'.1 = st.1 /\ st'.2 = (st.2 ++ [problem])%list /\
     (Dict.get (opt_key h) st.1 = None -> problem = is_required (opt_key h))) \/
  (exists v, st'.1 = Dict.set (opt_key h) v st.1 /\ st'.2 = st.2 /\
     match Dict.get (opt_key h) st.1 with
     | Some raw => opt_transform h raw = inr v /\ legal h v
     | None => opt_default h = Some v
     end).
Proof.
  unfold validate_option, legal.
  destruct (Dict.get (opt_key h) st.1) as [raw|] eqn:Hget.
  - destruct (opt_transform h raw) as [[]|v] eqn:Ht; try done.
    { intros [= <-]. left. eexists. by split_and!. }
    destruct (opt_values h) as [items|[|lo [|hi elems]]] eqn:Hv; try done.
    + destruct (existsb _ items) eqn:Hex.
      * intros [= <-]. right. exists v. by split_and!.
      * destruct (mapM as_str items.*1); [|done].
        intros [= <-]. left. eexists. by split_and!.
    + destruct (value_ltb v lo) eqn:Hlo; cbn.
      * destruct (fmt_d lo), (fmt_d hi); try done.
        intros [= <-]. left. eexists. by split_and!.
      * destruct (value_ltb hi v) eqn:Hhi; cbn.
        -- destruct (fmt_d lo), (fmt_d hi); try done.
           intros [= <-]. left. eexists. by split_and!.
        -- intros [= <-]. right. exists v. by split_and!.
  - destruct (opt_default h) as [d|] eqn:Hd; intros [= <-].
    + right. exists d. by split_and!.
    + left. eexists. by split_and!.
Qed.

(** Problems are only ever added. *)
Lemma _validate_options_problems svc_options options problems validated :
  _validate_options options problems svc_options = inr validated ->
  exists more, validated.2 = (problems ++ more)%list.
Proof.
  revert options problems.
  induction svc_options as [|h rest IH]; intros options problems; cbn.
  - intros [= <-]. exists []. by rewrite app_nil_r.
  - destruct (validate_option h (options, problems)) as [e|st] eqn:Hh; [done|].
    intros Hrest. destruct (IH _ _ Hrest) as [more ->].
    destruct (validate_option_turn _ _ _ Hh) as [(p & _ & -> & _)|(v & _ & -> & _)]; cbn.
    + exists (p :: more). by rewrite <- app_assoc.
    + by exists more.
Qed.

(** An option that the schema declares once, without a default, and
    that the caller left out, is reported. *)
Lemma _validate_options_required svc_options options problems validated o :
  NoDup (map opt_key svc_options) ->
  o ∈ svc_options -> opt_default o = None ->
  Dict.get (opt_key o) options = None ->
  _validate_options options problems svc_options = inr validated ->
  is_required (opt_key o) ∈ validated.2.
Proof.
  revert options problems.
  induction svc_options as [|h rest IH]; intros options problems Hnd Ho Hd Hk; cbn.
  - by apply elem_of_nil in Ho.
  - cbn in Hnd. apply NoDup_cons in Hnd as [Hh Hnd].
    destruct (validate_option h (options, problems)) as [e|st] eqn:Hh'; [done|].
    intros Hrest. apply elem_of_cons in Ho as [->|Ho].
    + destruct (_validate_options_problems _ _ _ _ Hrest) as [more ->].
      destruct (validate_option_turn _ _ _ Hh') as [(p & _ & -> & Hp)|(v & _ & _ & Hv)];
        cbn in *.
      * rewrite (Hp Hk). rewrite !elem_of_app, list_elem_of_singleton. auto.
      * rewrite Hk in Hv. congruence.
    + apply (IH st.1 st.2 Hnd Ho Hd); [|done].
      rewrite (validate_option_other h (options, problems) st (opt_key o)); [done| |done].
      intros Heq. apply Hh. rewrite Heq. by apply list_elem_of_fmap_2.
Qed.

(** When the loop ends without a problem, the options are bound to the
    declared keys and to nothing else. *)
Lemma _validate_options_keys svc_options options problems validated :
  _validate_options options problems svc_options = inr validated ->
  validated.2 = problems ->
  (NoDup (Dict.keys options) -> NoDup (Dict.keys validated.1)) /\
  forall x, x ∈ Dict.keys validated.1 <-> x ∈ Dict.keys options \/ x ∈ map opt_key svc_options.
Proof.
  revert options problems.
  induction svc_options as [|h rest IH]; intros options problems; cbn.
  - intros [= <-] _. split; [done|]. intros x. rewrite elem_of_nil. tauto.
  - destruct (validate_option h (options, problems)) as [e|st] eqn:Hh; [done|].
    intros Hrest Hsame.
    destruct (_validate_options_problems _ _ _ _ Hrest) as [more Hmore].
    destruct (validate_option_turn _ _ _ Hh) as [(p & _ & Hp & _)|(v & Hv1 & Hv2 & _)];
      cbn in *.
    + rewrite Hmore, Hp, <- app_assoc in Hsame.
      rewrite <- (app_nil_r problems) in Hsame at 2.
      by apply app_inv_head in Hsame.
    + rewrite <- Hv2 in Hsame. destruct (IH _ _ Hrest Hsame) as [Hnd Hin].
      rewrite Hv1 in Hnd, Hin. split.
      * intros Hopts. by apply Hnd, NoDup_keys_set.
      * intros x. rewrite Hin, elem_of_keys_set, elem_of_cons. tauto.
Qed.

(** When the loop ends without a problem, what the caller gave for a key
    that the schema declares once went through the option's
    ['transform'], and the result, a legal value, is what the key is
    bound to. *)
Lemma _validate_options_supplied svc_options options problems validated o raw :
  NoDup (map opt_key svc_options) ->
  o ∈ svc_options ->
  Dict.get (opt_key o) options = Some raw ->
  _validate_options options problems svc_options = inr validated ->
  validated.2 = problems ->
  exists v, opt_transform o raw = inr v /\ legal o v /\
            Dict.get (opt_key o) validated.1 = Some v.
Proof.
  revert options problems.
  induction svc_options as [|h rest IH]; intros options problems Hnd Ho Hk; cbn.
  - by apply elem_of_nil in Ho.
  - cbn in Hnd. apply NoDup_cons in Hnd as [Hh Hnd].
    destruct (validate_option h (options, problems)) as [e|st] eqn:Hh'; [done|].
    intros Hrest Hsame.
    destruct (_validate_options_problems _ _ _ _ Hrest) as [more Hmore].
    destruct (validate_option_turn _ _ _ Hh') as [(p & _ & Hp & _)|(v & Hv1 & Hv2 & Hv)];
      cbn in *.
    { rewrite Hmore, Hp, <- app_assoc in Hsame.
      rewrite <- (app_nil_r problems) in Hsame at 2.
      by apply app_inv_head in Hsame. }
    rewrite <- Hv2 in Hsame.
    apply elem_of_cons in Ho as [->|Ho].
    + rewrite Hk in Hv. destruct Hv as [Ht Hl]. exists v. split_and!; try done.
      rewrite (_validate_options_other _ _ _ _ _ Hh Hrest), Hv1.
      apply dict_get_set_eq.
    + apply (IH st.1 st.2 Hnd Ho); [|done|done].
      rewrite (validate_option_other h (options, problems) st (opt_key o)); [done| |done].
      intros Heq. apply Hh. rewrite Heq. by apply list_elem_of_fmap_2.
Qed.

Lemma spawn_resolves on_disk svc_id text options cbs r w t :
  EvSpawn w t ∈ emitted (__call__ on_disk svc_id text options cbs r) ->
  exists r1,
    resolves r1 svc_id text options t /\ same_frame r r1 /\
    final (__call__ on_disk svc_id text options cbs r) = in_flight t cbs r1.
Proof.
  intros Hspawn.
  destruct (call_spawns _ _ _ _ _ _ _ _ Hspawn) as (r1 & pre & Hpc & _ & _ & Hres & _ & Hf).
  exists r1. split; [done|]. split; [done|].
  by rewrite (call_misses _ _ _ _ cbs _ _ _ _ Hpc).
Qed.

(** X10. The options of a task handed to the pool are bound to the keys that
    the service declares and to no other, each key once: what the caller
    gave under another key is gone, and no declared key is left out. *)
Theorem task_options_match_schema on_disk svc_id text options cbs r w t s os :
  EvSpawn w t ∈ emitted (__call__ on_disk svc_id text options cbs r) ->
  lookup (_services (final (__call__ on_disk svc_id text options cbs r))) !! t_svc_id t
    = Some s ->
  svc_options s = Some os ->
  NoDup (Dict.keys (t_options t)) /\
  forall k, k ∈ Dict.keys (t_options t) <-> k ∈ map opt_key os.
Proof.
  intros Hspawn. destruct (spawn_resolves _ _ _ _ _ _ _ _ Hspawn) as (r1 & Hres & _ & ->).
  destruct Hres as (s' & inst & os' & _ & _ & _ & Hs' & _ & Hos' & Hv & _).
  cbn. intros Hs Hos.
  rewrite Hs' in Hs. injection Hs as <-. rewrite Hos' in Hos. injection Hos as <-.
  destruct (_validate_options_keys _ _ _ _ Hv eq_refl) as [Hnd Hin]. cbn in Hnd, Hin.
  destruct (known_options_keys (normalize (_services r1)) os' options) as [Hknd Hkin].
  split; [by apply Hnd|]. intros k. rewrite Hin. split; [|auto].
  intros [Hk|Hk]; [by apply Hkin|done].
Qed.

(** X11. What the caller gave for a declared key reaches the task only after
    the option's ['transform'], and only as a value that the option
    accepts. *)
Theorem supplied_values_checked on_disk svc_id text options cbs r w t s os o raw :
  EvSpawn w t ∈ emitted (__call__ on_disk svc_id text options cbs r) ->
  lookup (_services (final (__call__ on_disk svc_id text options cbs r))) !! t_svc_id t
    = Some s ->
  svc_options s = Some os ->
  NoDup (map opt_key os) ->
  o ∈ os ->
  Dict.get (opt_key o) (known_options (normalize (_services r)) os options) = Some raw ->
  exists v, opt_transform o raw = inr v /\ legal o v /\
            Dict.get (opt_key o) (t_options t) = Some v.
Proof.
  intros Hspawn. destruct (spawn_resolves _ _ _ _ _ _ _ _ Hspawn) as (r1 & Hres & Hf & ->).
  destruct Hf as (_ & _ & _ & _ & Hn & _).
  destruct Hres as (s' & inst & os' & _ & _ & _ & Hs' & _ & Hos' & Hv & _).
  cbn. intros Hs Hos Hnd Ho Hk.
  rewrite Hs' in Hs. injection Hs as <-. rewrite Hos' in Hos. injection Hos as <-.
  rewrite Hn in Hv.
  apply (_validate_options_supplied _ _ _ _ _ _ Hnd Ho Hk Hv eq_refl).
Qed.

Lemma _validate_service_ready svc_id options r s inst os :
  lookup (_services r) !! resolve_id r svc_id = Some s ->
  svc_instance s = Some (Some inst) ->
  svc_options s = Some os ->
  _validate_service svc_id options r
  = Outcome
      match _validate_options (known_options (normalize (_services r)) os options) [] os with
      | inl e => inl e
      | inr (opts, []) => inr (resolve_id r svc_id, s, opts)
      | inr (_, problems) =>
          inl (ValueError
                 ("Running the '" +:+ resolve_id r svc_id +:+ "' (" +:+ svc_name s
                    +:+ ") service failed: " +:+ String.concat "; " problems +:+ "."))
      end
      r [EvLookup (resolve_id r svc_id)].
Proof.
  intros Hk Hi Hos. unfold _validate_service.
  erewrite run_bind by (eapply _fetch_options_ready; eauto).
  cbn. rewrite run_get, Hos, run_ret.
  destruct (_validate_options _ _ _) as [e|[opts [|p ps]]]; [done|..].
  - by rewrite run_lift_inr.
  - by rewrite run_lift_inr.
Qed.

(** X12. A call that leaves out an option that the service declares (once)
    without a default fails before the cache is looked at: ['fail'] gets
    the exception, nothing else happens, and when the exception is the
    one that lists the problems, the missing option is among them. *)
Theorem missing_required_fails on_disk svc_id text options cbs r s inst os o :
  textize (_services r) text <> "" ->
  lookup (_services r) !! resolve_id r svc_id = Some s ->
  svc_instance s = Some (Some inst) ->
  svc_options s = Some os ->
  NoDup (map opt_key os) ->
  o ∈ os ->
  opt_default o = None ->
  opt_key o ∉ map (fun kv : string * value => normalize (_services r) kv.1) options ->
  exists e,
    __call__ on_disk svc_id text options cbs r
    = Outcome (inr tt) r
        (EvLookup (resolve_id r svc_id) :: done_events cbs ++ [EvFail (cb_id cbs) e]) /\
    forall validated,
      _validate_options (known_options (normalize (_services r)) os options) [] os
        = inr validated ->
      is_required (opt_key o) ∈ validated.2 /\
      e = ValueError
            ("Running the '" +:+ resolve_id r svc_id +:+ "' (" +:+ svc_name s
               +:+ ") service failed: " +:+ String.concat "; " validated.2 +:+ ".").
Proof.
  intros Htext Hk Hi Hos Hnd Ho Hd Hmiss.
  pose proof (_validate_service_ready svc_id options r s inst os Hk Hi Hos) as Hvs.
  pose proof (known_options_omitted (normalize (_services r)) os options _ Hmiss) as Hget.
  assert (exists e,
            parse_call on_disk svc_id text options r
            = Outcome (inl e) r [EvLookup (resolve_id r svc_id)] /\
            forall validated,
              _validate_options (known_options (normalize (_services r)) os options) [] os
                = inr validated ->
              is_required (opt_key o) ∈ validated.2 /\
              e = ValueError
                    ("Running the '" +:+ resolve_id r svc_id +:+ "' (" +:+ svc_name s
                       +:+ ") service failed: " +:+ String.concat "; " validated.2 +:+ "."))
    as (e & Hpc & He).
  { unfold parse_call. erewrite run_bind.
    2:{ rewrite _validate_text_run. by apply String.eqb_neq in Htext as ->. }
    destruct (_validate_options _ _ _) as [e|[opts problems]] eqn:Hv.
    - exists e. split; [by erewrite run_bind_raise by exact Hvs|done].
    - pose proof (_validate_options_required _ _ _ _ _ Hnd Ho Hd Hget Hv) as Hin.
      cbn in Hin. destruct problems as [|p ps]; [by apply elem_of_nil in Hin|].
      eexists. split; [by erewrite run_bind_raise by exact Hvs|].
      by intros validated [= <-]. }
  exists e. split; [|done].
  by rewrite (call_fails _ _ _ _ cbs _ _ _ _ Hpc).
Qed.

End Validated.

(** ** What a request is, to the router *)

Section Spelling.
Context `{PyValues}.

Lemma bind_agree {A B} (m1 m2 : M A) (f1 f2 : A -> M B) r :
  m1 r = m2 r ->
  (forall a, result (m1 r) = inr a -> f1 a (final (m1 r)) = f2 a (final (m1 r))) ->
  bind m1 f1 r = bind m2 f2 r.
Proof.
  intros Hm Hf. unfold bind. rewrite <- Hm.
  destruct (m1 r) as [[e|a] r' ev]; cbn in *; [done|].
  by rewrite Hf.
Qed.

Lemma _fetch_service_agree id1 id2 r :
  resolve_id r id1 = resolve_id r id2 -> _fetch_service id1 r = _fetch_service id2 r.
Proof. intros Hid. unfold _fetch_service. rewrite !run_get. cbv zeta. by rewrite Hid. Qed.

Lemma _fetch_options_agree id1 id2 r :
  resolve_id r id1 = resolve_id r id2 -> _fetch_options id1 r = _fetch_options id2 r.
Proof.
  intros Hid. unfold _fetch_options.
  apply bind_agree; [by apply _fetch_service_agree|done].
Qed.

Lemma known_options_agree norm os (options1 options2 : Dict.t value) :
  map (fun kv : string * value => (norm kv.1, kv.2)) options1
  = map (fun kv : string * value => (norm kv.1, kv.2)) options2 ->
  known_options norm os options1 = known_options norm os options2.
Proof. intros Heq. unfold known_options. by rewrite Heq. Qed.

Lemma _validate_service_agree id1 id2 options1 options2 r :
  resolve_id r id1 = resolve_id r id2 ->
  (forall os,
     known_options (normalize (_services r)) os options1
     = known_options (normalize (_services r)) os options2) ->
  _validate_service id1 options1 r = _validate_service id2 options2 r.
Proof.
  intros Hid Hopts. unfold _validate_service.
  apply bind_agree; [by apply _fetch_options_agree|].
  intros [k s] _.
  destruct (frame_fetch_options r id1 r (frame_refl r)) as [(_ & _ & _ & _ & Hn & _) _].
  rewrite !run_get. cbn. rewrite Hn.
  destruct (svc_options s) as [os|]; [|done].
  rewrite !run_ret. by rewrite Hopts.
Qed.

Lemma call_agree on_disk id1 id2 text1 text2 options1 options2 cbs r :
  textize (_services r) text1 = textize (_services r) text2 ->
  _validate_service id1 options1 r = _validate_service id2 options2 r ->
  __call__ on_disk id1 text1 options1 cbs r = __call__ on_disk id2 text2 options2 cbs r.
Proof.
  intros Htext Hvs.
  assert (parse_call on_disk id1 text1 options1 r
          = parse_call on_disk id2 text2 options2 r) as Hpc.
  { unfold parse_call. apply bind_agree.
    { by rewrite !_validate_text_run, Htext. }
    intros text. rewrite _validate_text_run.
    destruct (String.eqb _ _); cbn [result final]; [discriminate|]. intros _.
    apply bind_agree; [exact Hvs|]. reflexivity. }
  unfold __call__. by rewrite !run_attempt, Hpc.
Qed.

(** X13. The router reads the service id, the text and the option keys of a
    request through [normalize], the aliases and [textize] only: two
    requests that these cannot tell apart get the same answer, the same
    events and leave the same router. *)
Theorem request_up_to_spelling on_disk id1 id2 text1 text2 options1 options2 cbs r :
  resolve_id r id1 = resolve_id r id2 ->
  textize (_services r) text1 = textize (_services r) text2 ->
  map (fun kv : string * value => (normalize (_services r) kv.1, kv.2)) options1
  = map (fun kv : string * value => (normalize (_services r) kv.1, kv.2)) options2 ->
  __call__ on_disk id1 text1 options1 cbs r = __call__ on_disk id2 text2 options2 cbs r.
Proof.
  intros Hid Htext Hopts. apply call_agree; [done|].
  apply _validate_service_agree; [done|].
  intros os. by apply known_options_agree.
Qed.

Lemma filter_known norm (keys : list string) (options : Dict.t value) :
  filter (fun kv : string * value => kv.1 ∈ keys)
    (map (fun kv : string * value => (norm kv.1, kv.2))
       (filter (fun kv : string * value => norm kv.1 ∈ keys) options))
  = filter (fun kv : string * value => kv.1 ∈ keys)
      (map (fun kv : string * value => (norm kv.1, kv.2)) options).
Proof.
  induction options as [|[k v] options IH]; [done|].
  cbn. destruct (decide (norm k ∈ keys)) as [Hk|Hk]; [|done].
  cbn. rewrite decide_True by done. f_equal. exact IH.
Qed.

(** X14. Options under keys that the service does not declare are dropped
    before anything looks at them: a request with them and the request
    without them are the same request. *)
Theorem undeclared_options_ignored on_disk svc_id text options cbs r s os :
  lookup (_services r) !! resolve_id r svc_id = Some s ->
  svc_options s = Some os ->
  __call__ on_disk svc_id text options cbs r
  = __call__ on_disk svc_id text
      (filter (fun kv : string * value =>
                 normalize (_services r) kv.1 ∈ map opt_key os) options)
      cbs r.
Proof.
  intros Hk Hos. apply call_agree; [done|].
  destruct (svc_instance s) as [[inst|]|] eqn:Hi.
  - rewrite !(_validate_service_ready _ _ _ _ _ _ Hk Hi Hos).
    unfold known_options. by rewrite filter_known.
  - unfold _validate_service, _fetch_options.
    pose proof (_fetch_service_unavailable _ _ _ Hk Hi) as Hfs.
    erewrite !run_bind_raise; first done.
    all: by erewrite run_bind_raise by exact Hfs.
  - unfold _validate_service.
    apply bind_agree; [done|].
    intros [k s'] Hres.
    destruct (_fetch_options svc_id r) as [res r' ev] eqn:Hfo. cbn in Hres. subst res.
    destruct (_fetch_options_inr _ _ _ _ _ _ Hfo) as (-> & Hk' & inst & os' & Hi' & Hos').
    destruct (frame_fetch_options r svc_id r (frame_refl r)) as [(_ & _ & _ & _ & Hn & _) _].
    rewrite Hfo in Hn. cbn in Hn.
    cbn. rewrite !run_get. cbn. rewrite Hos', !run_ret, Hn.
    assert (os' = os) as ->; [|unfold known_options; by rewrite filter_known].
    revert Hfo. unfold _fetch_options.
    destruct (_fetch_service svc_id r) as [[e|[k0 s0]] r1 ev1] eqn:Hfs.
    { by erewrite run_bind_raise by exact Hfs. }
    erewrite run_bind by exact Hfs. cbn.
    destruct (_fetch_service_inr _ _ _ _ _ _ Hfs) as (-> & Hk0 & inst0 & Hi0).
    assert (svc_options s0 = Some os) as Hos0.
    { destruct (settled_fetch_service r svc_id r (settled_refl r)) as [Hset _].
      rewrite Hfs in Hset. cbn in Hset.
      destruct Hset as (_ & _ & _ & _ & Hl).
      destruct (Hl _ _ Hk) as (s1 & Hs1 & _ & Ho1).
      rewrite Hk0 in Hs1. injection Hs1 as <-. by apply Ho1. }
    rewrite Hos0, run_ret, run_get, Hk0. cbn. intros [= <- <- <-]. congruence.
Qed.

End Spelling.

(** ** Names and traits *)

Section Static.
Context `{PyValues} (r0 : router).

Lemma static_view_alter k f r :
  (forall s, svc_name (f s) = svc_name s /\ svc_traits (f s) = svc_traits s) ->
  static_view (set_lookup (alter f k) r) = static_view r.
Proof.
  intros Hf. unfold static_view. cbn. apply map_eq. intros k'.
  rewrite !lookup_fmap. destruct (decide (k = k')) as [<-|Hne].
  - rewrite lookup_alter_eq. destruct (lookup (_services r) !! k) as [s|]; [|done].
    cbn. destruct (Hf s) as [-> ->]. done.
  - by rewrite lookup_alter_ne.
Qed.

Lemma static_update k f :
  (forall s, svc_name (f s) = svc_name s /\ svc_traits (f s) = svc_traits s) ->
  keeps (fun r => static_view r = static_view r0) any_event (update_service k f).
Proof. intros Hf. apply keeps_modify. intros r <-. by apply static_view_alter. Qed.

Lemma append_option_static c s :
  svc_name (append_option c s) = svc_name s /\ svc_traits (append_option c s) = svc_traits s.
Proof. unfold append_option. by destruct (svc_options s). Qed.

Lemma static_load k :
  keeps (fun r => static_view r = static_view r0) any_event (_load_service k).
Proof.
  intros r HI. split; [|apply Forall_any_event].
  destruct (lookup (_services r) !! k) as [s|] eqn:Hk.
  - destruct (svc_instance s) as [i|] eqn:Hi.
    + by erewrite _load_service_loaded by eauto.
    + erewrite _load_service_cold by eauto. cbn [final].
      rewrite <- HI. by apply static_view_alter.
  - unfold _load_service. by rewrite run_get, Hk.
Qed.

Lemma static_fetch_options svc_id :
  keeps (fun r => static_view r = static_view r0) any_event (_fetch_options svc_id).
Proof.
  unfold _fetch_options, build_options.
  keeps_steps;
    auto using any_event_holds, static_update, append_option_static.
  all: apply generic_fetch_service;
    auto using any_event_holds, static_load, static_update.
Qed.

Lemma static_run_ops os :
  keeps (fun r => static_view r = static_view r0) any_event (run_ops os).
Proof.
  apply generic_run_ops; auto using any_event_holds.
  - intros. apply generic_validate_service. apply static_fetch_options.
  - intros. apply generic_get_desc;
      auto using any_event_holds, static_load, static_update.
  - intros. apply generic_get_options. apply static_fetch_options.
  - apply generic_get_services;
      auto using any_event_holds, static_load, static_update.
Qed.

End Static.

Section Traits.
Context `{PyValues}.

Lemma by_trait_static trait r :
  by_trait trait r
  = map (fun kv : string * (string * list nat) => kv.2.1)
      (filter (fun kv : string * (string * list nat) => trait ∈ kv.2.2)
         (map_to_list (static_view r))).
Proof.
  unfold by_trait, static_view. rewrite map_to_list_fmap.
  induction (map_to_list (lookup (_services r))) as [|[k s] l IH]; [done|].
  cbn. destruct (decide (trait ∈ svc_traits s)); cbn; by f_equal.
Qed.

(** X15. What [by_trait] answers never changes: no operation adds a service,
    removes one, renames one or touches its traits. *)
Theorem by_trait_stable trait os r :
  by_trait trait (final (run_ops os r)) = by_trait trait r.
Proof.
  rewrite !by_trait_static.
  destruct (static_run_ops r os r eq_refl) as [-> _]. done.
Qed.

Lemma lookup_foldl_insert {A B} (f : A -> string) (g : A -> B) (l : list A)
    (m : gmap string B) k :
  match foldl (fun m a => <[f a := g a]> m) m l !! k with
  | Some v => (exists a, a ∈ l /\ f a = k /\ g a = v) \/ (m !! k = Some v /\ k ∉ map f l)
  | None => m !! k = None /\ k ∉ map f l
  end.
Proof.
  revert m. induction l as [|a l IH]; intros m; cbn.
  - destruct (m !! k) as [v|] eqn:Hk.
    + right. split; [done|]. apply not_elem_of_nil.
    + split; [done|]. apply not_elem_of_nil.
  - specialize (IH (<[f a := g a]> m)).
    destruct (foldl _ _ l !! k) as [v|].
    + destruct IH as [(a' & Ha' & Hf & Hg)|[Hm Hk]].
      * left. exists a'. split; [by right|done].
      * destruct (decide (f a = k)) as [Heq|Hne].
        -- left. exists a. rewrite <- Heq, lookup_insert_eq in Hm.
           injection Hm as <-. split; [left|done].
        -- right. rewrite lookup_insert_ne in Hm by done. split; [done|].
           rewrite not_elem_of_cons. split; [congruence|done].
    + destruct IH as [Hm Hk].
      destruct (decide (f a = k)) as [Heq|Hne].
      * by rewrite <- Heq, lookup_insert_eq in Hm.
      * rewrite lookup_insert_ne in Hm by done. split; [done|].
        rewrite not_elem_of_cons. split; [congruence|done].
Qed.

(** X16. A new router has every mapping registered under its normalized id,
    named by its class or else by its id as written, and has initialized
    nothing: no service has an instance, options or a description yet,
    the list of available services is to be built, and nothing is in
    flight. *)
Theorem init_registers b cache_dir :
  let r := __init__ b cache_dir in
  _busy r = [] /\ _callbacks (_pool r) = ∅ /\ avail (_services r) = None /\
  _cache_dir r = cache_dir /\
  normalize (_services r) = b_normalize b /\ textize (_services r) = b_textize b /\
  (forall k, is_Some (lookup (_services r) !! k)
             <-> k ∈ map (fun m => b_normalize b m.1) (b_mappings b)) /\
  (forall k s, lookup (_services r) !! k = Some s ->
     svc_instance s = None /\ svc_options s = None /\ svc_desc s = None /\
     exists svc_id c,
       (svc_id, c) ∈ b_mappings b /\ k = b_normalize b svc_id /\ svc_cls s = c /\
       svc_name s = match NAME c with
                    | Some (String a n) => String a n
                    | _ => svc_id
                    end) /\
  (forall k, is_Some (aliases (_services r) !! k)
             <-> k ∈ map (fun a => b_normalize b a.1) (b_aliases b)).
Proof.
  cbn. split_and!; try done.
  - intros k.
    pose proof (lookup_foldl_insert (fun m : string * svc_class => b_normalize b m.1)
                  (fun m => new_service m.1 m.2) (b_mappings b) ∅ k) as Hl.
    cbv beta in Hl.
    destruct (foldl _ _ _ !! k) as [s|].
    + split; [intros _|by eexists].
      destruct Hl as [(a & Ha & Hf & _)|[Hm _]]; [|by rewrite lookup_empty in Hm].
      apply list_elem_of_fmap. by exists a.
    + destruct Hl as [_ Hk]. split; [by intros [? ?]|done].
  - intros k s Hs.
    pose proof (lookup_foldl_insert (fun m : string * svc_class => b_normalize b m.1)
                  (fun m => new_service m.1 m.2) (b_mappings b) ∅ k) as Hl.
    cbv beta in Hl.
    rewrite Hs in Hl.
    destruct Hl as [([svc_id c] & Ha & Hf & <-)|[Hm _]]; [|by rewrite lookup_empty in Hm].
    split_and!; try done. exists svc_id, c. split_and!; try done.
    cbn. unfold truthy_name. by destruct (NAME c) as [[|]|].
  - intros k.
    pose proof (lookup_foldl_insert (fun a : string * string => b_normalize b a.1)
                  (fun a => b_normalize b a.2) (b_aliases b) ∅ k) as Hl.
    cbv beta in Hl.
    destruct (foldl _ _ _ !! k) as [s|].
    + split; [intros _|by eexists].
      destruct Hl as [(a & Ha & Hf & _)|[Hm _]]; [|by rewrite lookup_empty in Hm].
      apply list_elem_of_fmap. by exists a.
    + destruct Hl as [_ Hk]. split; [by intros [? ?]|done].
Qed.

End Traits.

(** ** One service at a time *)

Section Isolation.
Context `{PyValues} (k : string) (r0 : router).

Lemma keeps_at_get {A} (I : router -> Prop) (E : event -> Prop) (f : router -> M A) r :
  keeps_at I E (f r) r -> keeps_at I E (bind get f) r.
Proof. unfold keeps_at. by rewrite run_get. Qed.

Lemma untouched_refl : untouched k r0 r0.
Proof. by repeat split. Qed.

Lemma untouched_resolve r svc_id :
  untouched k r0 r -> resolve_id r svc_id = resolve_id r0 svc_id.
Proof. intros (_ & Ha & Hn). unfold resolve_id. by rewrite Ha, Hn. Qed.

Lemma untouched_update k0 f :
  k0 <> k -> keeps (untouched k r0) (unrelated k) (update_service k0 f).
Proof.
  intros Hne. apply keeps_modify. intros r (Hl & Ha & Hn).
  split; [|done]. cbn. by rewrite lookup_alter_ne.
Qed.

Lemma untouched_busy f r : untouched k r0 r -> untouched k r0 (set_busy f r).
Proof. done. Qed.

Lemma untouched_pool f r : untouched k r0 r -> untouched k r0 (set_pool f r).
Proof. done. Qed.

Lemma untouched_load k0 :
  k0 <> k -> keeps (untouched k r0) (unrelated k) (_load_service k0).
Proof.
  intros Hne r HI. unfold keeps_at.
  destruct (lookup (_services r) !! k0) as [s|] eqn:Hk.
  - destruct (svc_instance s) as [i|] eqn:Hi.
    + erewrite _load_service_loaded by eauto. by split.
    + erewrite _load_service_cold by eauto. cbn. split.
      * destruct HI as (Hl & Ha & Hn). split; [|done]. cbn. by rewrite lookup_alter_ne.
      * by repeat constructor.
  - unfold _load_service. rewrite run_get, Hk. by split.
Qed.

Lemma untouched_fetch_service svc_id :
  resolve_id r0 svc_id <> k ->
  keeps (untouched k r0) (unrelated k) (_fetch_service svc_id).
Proof.
  intros Hne r HI. unfold _fetch_service. apply keeps_at_get. cbv zeta.
  rewrite (untouched_resolve r svc_id HI).
  lazymatch goal with
  | |- keeps_at ?I ?E ?m _ => enough (keeps I E m) as Hm by exact (Hm r HI)
  end.
  keeps_steps; auto using untouched_load.
Qed.

Lemma untouched_fetched svc_id r (fetched : string * service) :
  untouched k r0 r ->
  result (_fetch_service svc_id r) = inr fetched ->
  fetched.1 = resolve_id r0 svc_id.
Proof.
  intros HI Hres.
  destruct (_fetch_service svc_id r) as [res r1 ev1] eqn:Hfs. cbn in Hres. subst res.
  destruct fetched as [k0 s0].
  destruct (_fetch_service_inr _ _ _ _ _ _ Hfs) as (-> & _).
  by apply untouched_resolve.
Qed.

Lemma untouched_fetch_options svc_id :
  resolve_id r0 svc_id <> k ->
  keeps (untouched k r0) (unrelated k) (_fetch_options svc_id).
Proof.
  intros Hne r HI. unfold _fetch_options.
  apply keeps_at_bind; [by apply untouched_fetch_service|].
  intros fetched Hres HI1.
  rewrite (untouched_fetched _ _ _ HI Hres).
  lazymatch goal with
  | |- keeps_at ?I ?E ?m ?r1 => enough (keeps I E m) as Hm by exact (Hm r1 HI1)
  end.
  unfold build_options. keeps_steps; auto using untouched_update.
Qed.

Lemma untouched_get_desc svc_id :
  resolve_id r0 svc_id <> k ->
  keeps (untouched k r0) (unrelated k) (get_desc svc_id).
Proof.
  intros Hne r HI. unfold get_desc.
  apply keeps_at_bind; [by apply untouched_fetch_service|].
  intros fetched Hres HI1.
  rewrite (untouched_fetched _ _ _ HI Hres).
  lazymatch goal with
  | |- keeps_at ?I ?E ?m ?r1 => enough (keeps I E m) as Hm by exact (Hm r1 HI1)
  end.
  keeps_steps; auto using untouched_update.
Qed.

Lemma untouched_call on_disk svc_id text options cbs :
  resolve_id r0 svc_id <> k ->
  keeps (untouched k r0) (unrelated k) (__call__ on_disk svc_id text options cbs).
Proof.
  intros Hne.
  unfold __call__, parse_call, _validate_text, _validate_path, _validate_service,
    spawn, call_done.
  keeps_steps; auto using untouched_fetch_options;
    try (unfold unrelated; cbn; tauto);
    try (apply keeps_modify; auto using untouched_busy, untouched_pool).
Qed.

Lemma untouched_on_signal w exception :
  keeps (untouched k r0) (unrelated k) (_on_signal w exception).
Proof.
  apply generic_on_signal; auto using untouched_busy, untouched_pool;
    intros; unfold unrelated; cbn; tauto.
Qed.

End Isolation.

(** X17. An operation that names a service leaves every other service as it
    is, and asks nothing of it: it is neither looked up nor initialized,
    and neither its options nor its description are read.  A worker's
    signal does so for every service. *)
Theorem other_services_untouched `{PyValues} o r k :
  match o with
  | GetServices => False
  | _ => names r o <> Some k
  end ->
  lookup (_services (final (run_op o r))) !! k = lookup (_services r) !! k /\
  Forall (unrelated k) (emitted (run_op o r)).
Proof.
  intros Ho.
  enough (keeps (untouched k r) (unrelated k) (run_op o)) as Hkeeps.
  { destruct (Hkeeps r (untouched_refl k r)) as [(Hl & _) Hev]. by split. }
  destruct o as [trait| |svc_id|svc_id|on_disk svc_id text options cbs|w exception];
    cbn in Ho |- *.
  - apply keeps_ret.
  - done.
  - apply keeps_void, untouched_get_desc. congruence.
  - apply keeps_void. unfold get_options.
    apply keeps_bind; [apply untouched_fetch_options; congruence|].
    intros fetched. keeps_steps.
  - apply untouched_call. congruence.
  - apply untouched_on_signal.
Qed.

(** ** The schema is read once *)

Section ReadOnce.
Context `{PyValues} (k : string).

Lemma has_options_alter k0 f r :
  (forall s, is_Some (svc_options s) -> is_Some (svc_options (f s))) ->
  has_options k r -> has_options k (set_lookup (alter f k0) r).
Proof.
  intros Hf (s & os & Hk & Hos). unfold has_options. cbn.
  destruct (decide (k0 = k)) as [->|Hne].
  - rewrite lookup_alter_eq, Hk. cbn.
    destruct (Hf s) as [os' Hos']; [by eexists|]. eauto.
  - rewrite lookup_alter_ne by done. eauto.
Qed.

Lemma has_options_load k0 : keeps (has_options k) (not_options k) (_load_service k0).
Proof.
  intros r HI. unfold keeps_at.
  destruct (lookup (_services r) !! k0) as [s|] eqn:Hk.
  - destruct (svc_instance s) as [i|] eqn:Hi.
    + erewrite _load_service_loaded by eauto. by split.
    + erewrite _load_service_cold by eauto. cbn. split.
      * by apply has_options_alter.
      * by repeat constructor.
  - unfold _load_service. rewrite run_get, Hk. by split.
Qed.

Lemma has_options_desc k0 d :
  keeps (has_options k) (not_options k) (update_service k0 (set_desc d)).
Proof. apply keeps_modify. intros r. by apply has_options_alter. Qed.

Lemma has_options_fetch_service svc_id :
  keeps (has_options k) (not_options k) (_fetch_service svc_id).
Proof. apply generic_fetch_service; auto using has_options_load. done. Qed.

(** With its ['options'] key there, [_fetch_options] does not build the
    options of a service. *)
Lemma has_options_fetch_options svc_id :
  keeps (has_options k) (not_options k) (_fetch_options svc_id).
Proof.
  intros r HI.
  destruct (has_options_fetch_service svc_id r HI) as [HI1 HE1]. revert HI1 HE1.
  unfold keeps_at, _fetch_options.
  destruct (_fetch_service svc_id r) as [[e|[k0 s0]] r1 ev1] eqn:Hfs; cbn; intros HI1 HE1.
  { by erewrite run_bind_raise by exact Hfs. }
  erewrite run_bind by exact Hfs. cbn.
  destruct (_fetch_service_inr _ _ _ _ _ _ Hfs) as (-> & Hk0 & inst & Hi).
  rewrite Hi. destruct (svc_options s0) as [os|] eqn:Hos.
  - rewrite run_ret, run_get, Hk0. cbn. by rewrite app_nil_r.
  - assert (resolve_id r svc_id <> k) as Hne.
    { intros Heq. destruct HI1 as (s & os & Hk & Hos'). rewrite Heq in Hk0. congruence. }
    pose proof (build_options_run (resolve_id r svc_id) inst r1) as Hb.
    assert (forall acc, has_options k
              (set_lookup (alter (set_options acc) (resolve_id r svc_id)) r1)) as Hset.
    { intros acc. by apply has_options_alter. }
    assert (Forall (not_options k) (ev1 ++ [EvOptions (resolve_id r svc_id)])) as Hev.
    { apply Forall_app. split; [done|]. repeat constructor.
      unfold not_options. congruence. }
    destruct (check_options _ _ _ _) as [[e|[]] acc]; cbn in Hb.
    + erewrite run_bind_raise by exact Hb. cbn. by split.
    + erewrite run_bind by exact Hb. rewrite run_get. cbn.
      rewrite lookup_alter_eq, Hk0. cbn. by split.
Qed.

Lemma has_options_run_ops os : keeps (has_options k) (not_options k) (run_ops os).
Proof.
  apply generic_run_ops; try done.
  - intros. apply generic_validate_service. apply has_options_fetch_options.
  - intros. apply generic_get_desc; auto using has_options_load, has_options_desc; done.
  - intros. apply generic_get_options. apply has_options_fetch_options.
  - apply generic_get_services; auto using has_options_load.
Qed.

(** What does not go through [_fetch_options] never calls [options()]. *)
Lemma quiet_load k0 : keeps (fun _ => True) (not_options k) (_load_service k0).
Proof.
  intros r _. split; [done|].
  destruct (lookup (_services r) !! k0) as [s|] eqn:Hk.
  - destruct (svc_instance s) as [i|] eqn:Hi.
    + by erewrite _load_service_loaded by eauto.
    + erewrite _load_service_cold by eauto. by repeat constructor.
  - unfold _load_service. by rewrite run_get, Hk.
Qed.

Lemma options_once_quiet {A} (m : M A) r :
  keeps (fun _ => True) (not_options k) m -> options_once k m r.
Proof. intros Hm. left. by apply Hm. Qed.

Lemma options_once_bind {A B} (m : M A) (f : A -> M B) r :
  options_once k m r ->
  (forall a, keeps (has_options k) any_event (f a)) ->
  (forall a, keeps (fun _ => True) (not_options k) (f a)) ->
  options_once k (bind m f) r.
Proof.
  unfold options_once, bind. intros Hm Hhas Hquiet.
  destruct (m r) as [[e|a] r1 ev1]; cbn in *; [done|].
  destruct Hm as [Hev|HI].
  - left. apply Forall_app. split; [done|]. by apply Hquiet.
  - right. by apply Hhas.
Qed.

Lemma options_once_after {A B} (m : M A) (f : A -> M B) r :
  keeps (fun _ => True) (not_options k) m ->
  (forall a r', options_once k (f a) r') ->
  options_once k (bind m f) r.
Proof.
  unfold options_once, bind. intros Hm Hf.
  destruct (Hm r I) as [_ Hev]. revert Hev.
  destruct (m r) as [[e|a] r1 ev1]; cbn; intros Hev; [by left|].
  destruct (Hf a r1) as [Hev'|HI]; [left|by right].
  by apply Forall_app.
Qed.

Lemma options_once_fetch_options svc_id r : options_once k (_fetch_options svc_id) r.
Proof.
  assert (keeps (fun _ => True) (not_options k) (_fetch_service svc_id)) as Hquiet.
  { apply generic_fetch_service; auto using quiet_load. done. }
  destruct (Hquiet r I) as [_ HE1]. revert HE1.
  unfold options_once, _fetch_options.
  destruct (_fetch_service svc_id r) as [[e|[k0 s0]] r1 ev1] eqn:Hfs; cbn; intros HE1.
  { erewrite run_bind_raise by exact Hfs. by left. }
  erewrite run_bind by exact Hfs. cbn.
  destruct (_fetch_service_inr _ _ _ _ _ _ Hfs) as (-> & Hk0 & inst & Hi).
  rewrite Hi. destruct (svc_options s0) as [os|] eqn:Hos.
  - rewrite run_ret, run_get, Hk0. cbn. left. by rewrite app_nil_r.
  - pose proof (build_options_run (resolve_id r svc_id) inst r1) as Hb.
    destruct (decide (resolve_id r svc_id = k)) as [Heq|Hne].
    + right. rewrite Heq in *.
      assert (forall acc, has_options k (set_lookup (alter (set_options acc) k) r1))
        as Hset.
      { intros acc. unfold has_options. cbn. rewrite lookup_alter_eq, Hk0. cbn. eauto. }
      destruct (check_options _ _ _ _) as [[e|[]] acc]; cbn in Hb.
      * erewrite run_bind_raise by exact Hb. apply Hset.
      * erewrite run_bind by exact Hb. rewrite run_get. cbn.
        rewrite lookup_alter_eq, Hk0. cbn. apply Hset.
    + left.
      assert (Forall (not_options k) (ev1 ++ [EvOptions (resolve_id r svc_id)])) as Hev.
      { apply Forall_app. split; [done|]. repeat constructor.
        unfold not_options. congruence. }
      destruct (check_options _ _ _ _) as [[e|[]] acc]; cbn in Hb.
      * by erewrite run_bind_raise by exact Hb.
      * erewrite run_bind by exact Hb. rewrite run_get. cbn.
        by rewrite lookup_alter_eq, Hk0.
Qed.

Lemma options_once_run_op o r : options_once k (run_op o) r.
Proof.
  destruct o as [trait| |svc_id|svc_id|on_disk svc_id text options cbs|w exception]; cbn.
  - by left.
  - apply options_once_quiet, keeps_void.
    apply generic_get_services; auto using quiet_load.
  - apply options_once_quiet, keeps_void.
    apply generic_get_desc; auto using quiet_load; try done.
  - unfold void, get_options.
    apply options_once_bind; [|intros; apply keeps_ret..].
    apply options_once_bind; [apply options_once_fetch_options|..];
      intros; keeps_steps.
  - unfold __call__.
    apply options_once_bind.
    + change (options_once k (parse_call on_disk svc_id text options) r).
      unfold parse_call.
      apply options_once_after; [unfold _validate_text; keeps_steps|].
      intros text' r'.
      apply options_once_bind.
      * unfold _validate_service.
        apply options_once_bind; [apply options_once_fetch_options|..];
          intros; keeps_steps.
      * intros. unfold _validate_path. keeps_steps.
      * intros. unfold _validate_path. keeps_steps.
    + intros. unfold call_done, spawn. keeps_steps; by apply keeps_modify.
    + intros. unfold call_done, spawn. keeps_steps; by apply keeps_modify.
  - apply options_once_quiet. by apply generic_on_signal.
Qed.

(** X18. Once an operation has called [options()] on a service, no later
    operation calls it again: the service has its ['options'] key from
    before the call, whether or not what [options()] returned passed the
    assertions. *)
Theorem options_read_once o os r :
  EvOptions k ∈ emitted (run_op o r) ->
  EvOptions k ∉ emitted (run_ops os (final (run_op o r))).
Proof.
  intros Hin.
  destruct (options_once_run_op o r) as [Hev|HI].
  - rewrite Forall_forall in Hev. by destruct (Hev _ Hin).
  - destruct (has_options_run_ops os _ HI) as [_ Hquiet].
    rewrite Forall_forall in Hquiet. intros Hin'. by destruct (Hquiet _ Hin').
Qed.

End ReadOnce.

(** * The package's [normalize] and [textize] *)

Section Package.

Lemma lower_ascii_alnum c :
  (isalpha c || isdigit c)%bool = true ->
  let n := nat_of_ascii (lower_ascii c) in
  (((48 <=? n) && (n <=? 57)) || ((97 <=? n) && (n <=? 122)))%nat = true.
Proof. destruct c as [[] [] [] [] [] [] [] []]; cbn; done. Qed.

Lemma plain_alnum c :
  (let n := nat_of_ascii c in
   (((48 <=? n) && (n <=? 57)) || ((97 <=? n) && (n <=? 122)))%nat) = true ->
  (isalpha c || isdigit c)%bool = true /\ lower_ascii c = c.
Proof. destruct c as [[] [] [] [] [] [] [] []]; cbn; done. Qed.

Lemma lower_ascii_class c :
  (isalpha (lower_ascii c) || isdigit (lower_ascii c))%bool = (isalpha c || isdigit c)%bool /\
  lower_ascii (lower_ascii c) = lower_ascii c.
Proof. destruct c as [[] [] [] [] [] [] [] []]; cbn; done. Qed.

Lemma TO_NORMALIZED_plain value : plain (TO_NORMALIZED value) = true.
Proof.
  induction value as [|c rest IH]; cbn; [done|].
  destruct (isalpha c || isdigit c)%bool eqn:Hc; [|done].
  cbn [plain]. apply andb_true_iff. split; [|done].
  by apply lower_ascii_alnum.
Qed.

Lemma TO_NORMALIZED_fixed s : plain s = true -> TO_NORMALIZED s = s.
Proof.
  induction s as [|c rest IH]; [done|].
  cbn [plain]. intros [Hc Hrest]%andb_true_iff.
  destruct (plain_alnum c Hc) as [Hclass Hlow].
  cbn [TO_NORMALIZED]. rewrite Hclass, Hlow. f_equal. by apply IH.
Qed.

(** X19. [TO_NORMALIZED] returns digits and lowercase letters only, and the
    strings it leaves alone are exactly those made of them: the option
    keys that a service may declare.  It does not see the case of its
    input. *)
Theorem TO_NORMALIZED_canonical value :
  plain (TO_NORMALIZED value) = true /\
  (TO_NORMALIZED value = value <-> plain value = true) /\
  TO_NORMALIZED (TO_NORMALIZED value) = TO_NORMALIZED value /\
  TO_NORMALIZED (lower value) = TO_NORMALIZED value.
Proof.
  split_and!.
  - apply TO_NORMALIZED_plain.
  - split; [|apply TO_NORMALIZED_fixed].
    intros Heq. rewrite <- Heq. apply TO_NORMALIZED_plain.
  - apply TO_NORMALIZED_fixed, TO_NORMALIZED_plain.
  - induction value as [|c rest IH]; [done|].
    cbn [lower TO_NORMALIZED].
    destruct (lower_ascii_class c) as [-> ->]. rewrite IH. done.
Qed.

Lemma sub_whitespace_spaced in_run text :
  single_spaced (sub_whitespace in_run text) = true /\
  (in_run = true -> starts_with_space (sub_whitespace in_run text) = false).
Proof.
  revert in_run. induction text as [|c rest IH]; intros in_run; cbn; [done|].
  destruct (isspace c) eqn:Hc.
  - destruct (IH true) as [Hs Hstart]. destruct in_run; [auto|].
    split; [|done]. cbn. by rewrite Hstart, Hs.
  - destruct (IH false) as [Hs _]. cbn. rewrite Hc. by split.
Qed.

Lemma sub_whitespace_ink in_run text : ink (sub_whitespace in_run text) = ink text.
Proof.
  revert in_run. induction text as [|c rest IH]; intros in_run; cbn; [done|].
  destruct (isspace c) eqn:Hc.
  - destruct in_run; cbn; by rewrite IH.
  - cbn. by rewrite Hc, IH.
Qed.

Lemma py_lstrip_spaced s :
  single_spaced s = true ->
  single_spaced (py_lstrip s) = true /\ starts_with_space (py_lstrip s) = false /\
  ink (py_lstrip s) = ink s.
Proof.
  induction s as [|c rest IH]; [done|].
  cbn [single_spaced py_lstrip ink]. intros [Hc Hrest]%andb_true_iff.
  destruct (isspace c) eqn:Hsp; [by apply IH|].
  cbn. rewrite Hsp, Hrest. done.
Qed.

Lemma py_rstrip_cons c rest :
  py_rstrip (String c rest)
  = if (isspace c && String.eqb (py_rstrip rest) "")%bool then EmptyString
    else String c (py_rstrip rest).
Proof. cbn. destruct (py_rstrip rest); by destruct (isspace c). Qed.

Lemma py_rstrip_start s :
  starts_with_space (py_rstrip s) = true -> starts_with_space s = true.
Proof.
  destruct s as [|c rest]; [done|]. rewrite py_rstrip_cons.
  by destruct (isspace c && _)%bool.
Qed.

Lemma py_rstrip_spaced s :
  single_spaced s = true ->
  single_spaced (py_rstrip s) = true /\ ends_with_space (py_rstrip s) = false /\
  ink (py_rstrip s) = ink s.
Proof.
  induction s as [|c rest IH]; [done|].
  cbn [single_spaced ink]. intros [Hc Hrest]%andb_true_iff.
  destruct (IH Hrest) as (Hs & He & Hi). rewrite py_rstrip_cons.
  destruct (isspace c) eqn:Hsp; cbn [andb].
  - destruct (String.eqb_spec (py_rstrip rest) "") as [Hnil|Hne].
    + split; [done|]. split; [done|]. by rewrite <- Hi, Hnil.
    + cbn [single_spaced ink]. rewrite Hsp, Hs, Hi.
      apply andb_true_iff in Hc as [Hc Hstart]. rewrite Hc.
      destruct (starts_with_space (py_rstrip rest)) eqn:Hstart'.
      { apply py_rstrip_start in Hstart'. by rewrite Hstart' in Hstart. }
      split; [done|]. split; [|done].
      cbn. by destruct (py_rstrip rest).
  - cbn [single_spaced ink]. rewrite Hsp, Hs, Hi.
    split; [done|]. split; [|done].
    cbn. destruct (py_rstrip rest); [done|done].
Qed.

Lemma sub_whitespace_fixed in_run s :
  single_spaced s = true -> (in_run = true -> starts_with_space s = false) ->
  sub_whitespace in_run s = s.
Proof.
  revert in_run. induction s as [|c rest IH]; intros in_run; [done|].
  cbn [single_spaced sub_whitespace starts_with_space].
  intros [Hc Hrest]%andb_true_iff Hrun.
  destruct (isspace c) eqn:Hsp.
  - destruct in_run; [by specialize (Hrun eq_refl)|].
    apply andb_true_iff in Hc as [Hc Hstart]. apply Ascii.eqb_eq in Hc as ->.
    f_equal. apply IH; [done|]. intros _. by apply negb_true_iff.
  - f_equal. by apply IH.
Qed.

Lemma py_lstrip_fixed s : starts_with_space s = false -> py_lstrip s = s.
Proof. destruct s as [|c rest]; [done|]. cbn. by intros ->. Qed.

Lemma py_rstrip_fixed s : ends_with_space s = false -> py_rstrip s = s.
Proof.
  induction s as [|c rest IH]; [done|]. rewrite py_rstrip_cons.
  destruct rest as [|c' rest'].
  - cbn. by intros ->.
  - intros He. rewrite IH by exact He. by rewrite andb_false_r.
Qed.

(** X20. [STRIP_WHITESPACE] touches nothing but whitespace, and leaves words
    separated by single spaces with nothing around them; such a text it
    returns as it is.  It returns the empty string (the one that
    [__call__] rejects) for texts of whitespace only, and for no other. *)
Theorem STRIP_WHITESPACE_tidy text :
  tidy (STRIP_WHITESPACE text) = true /\
  ink (STRIP_WHITESPACE text) = ink text /\
  STRIP_WHITESPACE (STRIP_WHITESPACE text) = STRIP_WHITESPACE text /\
  (STRIP_WHITESPACE text = "" <-> ink text = "").
Proof.
  assert (forall s, tidy s = true -> STRIP_WHITESPACE s = s) as Hfixed.
  { intros s [[Hs Hstart]%andb_true_iff Hend]%andb_true_iff.
    apply negb_true_iff in Hstart, Hend. unfold STRIP_WHITESPACE, py_strip.
    rewrite sub_whitespace_fixed by done.
    rewrite py_lstrip_fixed by done. by apply py_rstrip_fixed. }
  assert (tidy (STRIP_WHITESPACE text) = true /\
          ink (STRIP_WHITESPACE text) = ink text) as [Htidy Hink].
  { unfold STRIP_WHITESPACE, py_strip, tidy.
    destruct (sub_whitespace_spaced false text) as [Hs _].
    destruct (py_lstrip_spaced _ Hs) as (Hs1 & Hstart1 & Hi1).
    destruct (py_rstrip_spaced _ Hs1) as (Hs2 & Hend2 & Hi2).
    rewrite Hs2, Hend2, Hi2, Hi1, sub_whitespace_ink.
    destruct (starts_with_space (py_rstrip _)) eqn:Hstart2; [|done].
    apply py_rstrip_start in Hstart2. congruence. }
  split; [done|]. split; [done|]. split; [by apply Hfixed|].
  rewrite <- Hink. split; [by intros ->|].
  revert Htidy. unfold tidy. destruct (STRIP_WHITESPACE text) as [|c rest]; [done|].
  cbn. destruct (isspace c); [|done]. by rewrite andb_false_r.
Qed.

End Package.

(** * The reviewer *)

Section Reviewing.
Context `{PyValues} (unicode : string -> value) (alerts : string -> bool)
  (on_disk : nat -> string -> bool).







End Reviewing.

(** * In flight means pending *)

Section Accounted.
Context `{PyValues}.

Lemma covered_frame r r' : same_frame r r' -> covered r -> covered r'.
Proof. intros (Hb & _ & Hp & _) Hc. unfold covered. by rewrite Hb, Hp. Qed.

Lemma covered_in_flight t cbs r :
  consistent r -> covered r -> covered (in_flight t cbs r).
Proof.
  intros (_ & Hin & _) Hc p. unfold in_flight. cbn.
  rewrite elem_of_app, list_elem_of_singleton. intros [Hp| ->].
  - destruct (Hc p Hp) as (w & c & Hw & Hpath). exists w, c. split; [|done].
    rewrite lookup_insert_ne; [done|]. destruct (Hin _ _ Hw) as [_ Hle]. lia.
  - eexists _, _. split; [apply lookup_insert_eq|done].
Qed.

Lemma covered_signal w c r :
  consistent r -> covered r -> _callbacks (_pool r) !! w = Some c ->
  covered
    (set_pool (fun p => Pool (_next_id p) (delete w (_callbacks p)) (delete w (_workers p)))
       (set_busy (list_remove (c_path c)) r)).
Proof.
  intros (Hnd & _ & _) Hc Hw p. cbn.
  rewrite (elem_of_list_remove _ _ _ Hnd). intros [Hp Hne].
  destruct (Hc p Hp) as (w' & c' & Hw' & Hpath). exists w', c'. split; [|done].
  rewrite lookup_delete_ne; [done|]. intros ->. congruence.
Qed.

Lemma run_op_covered o r : consistent r -> covered r -> covered (final (run_op o r)).
Proof.
  intros Hr Hc.
  destruct o as [trait| |svc_id|svc_id|on_disk svc_id text options cbs|w exception].
  1-4: match goal with
       | |- context [run_op ?o ?x] =>
           pose proof (frame_registry_op x o I x (frame_refl x)) as [Hframe _]
       end; by eapply covered_frame.
  - cbn.
    destruct (parse_call on_disk svc_id text options r) as [[e|[t [|]]] r1 ev1] eqn:Hpc.
    + rewrite (call_fails _ _ _ _ cbs _ _ _ _ Hpc). cbn.
      destruct (parse_call_inl _ _ _ _ _ _ _ _ Hpc) as [Hframe _].
      by eapply covered_frame.
    + rewrite (call_hits _ _ _ _ cbs _ _ _ _ Hpc). cbn.
      destruct (parse_call_inr _ _ _ _ _ _ _ _ _ Hpc) as (_ & _ & _ & Hframe & _).
      by eapply covered_frame.
    + rewrite (call_misses _ _ _ _ cbs _ _ _ _ Hpc). cbn.
      destruct (parse_call_inr _ _ _ _ _ _ _ _ _ Hpc) as (_ & _ & _ & Hframe & _).
      apply covered_in_flight; [by eapply consistent_frame|by eapply covered_frame].
  - cbn. destruct (_callbacks (_pool r) !! w) as [c|] eqn:Hw.
    + pose proof Hr as (_ & Hin & _). destruct (Hin _ _ Hw) as [Hp _].
      rewrite (_on_signal_run _ _ _ _ Hw Hp). cbn.
      by apply covered_signal.
    + by rewrite _on_signal_unknown.
Qed.

Lemma run_ops_covered os r :
  consistent r -> covered r ->
  consistent (final (run_ops os r)) /\ covered (final (run_ops os r)).
Proof.
  revert r. induction os as [|o os IH]; intros r Hr Hc; [done|].
  rewrite run_ops_cons. cbn. apply IH; [by apply run_op_consistent|by apply run_op_covered].
Qed.

(** X22. Whatever has been asked of a router since it was made, the paths in
    flight are those of the pending workers: no path is listed twice, a
    path is listed exactly when a worker is pending for it, and no two
    pending workers are for the same path. *)
Theorem in_flight_iff_pending b cache_dir os :
  let r := final (run_ops os (__init__ b cache_dir)) in
  NoDup (_busy r) /\
  (forall p, p ∈ _busy r <->
     exists w c, _callbacks (_pool r) !! w = Some c /\ c_path c = p) /\
  (forall w1 w2 c1 c2,
     _callbacks (_pool r) !! w1 = Some c1 ->
     _callbacks (_pool r) !! w2 = Some c2 ->
     c_path c1 = c_path c2 -> w1 = w2).
Proof.
  cbn zeta.
  destruct (run_ops_covered os (__init__ b cache_dir)) as [(Hnd & Hin & Hinj) Hc].
  { apply consistent_init. }
  { by intros p ?%elem_of_nil. }
  split; [done|]. split; [|done].
  intros p. split; [apply Hc|].
  intros (w & c & Hw & <-). by destruct (Hin _ _ Hw).
Qed.

End Accounted.

(** * Workers *)

Section Workers.
Context `{PyValues}.

Lemma spawned_none evs : Forall (fun ev => ~ is_spawn ev) evs -> spawned evs = [].
Proof.
  induction 1 as [|ev evs Hev _ IH]; [done|].
  unfold spawned in *. cbn. rewrite IH. by destruct ev; cbn in *.
Qed.

Lemma spawned_registry evs : Forall is_registry evs -> spawned evs = [].
Proof.
  intros Hev. apply spawned_none. eapply Forall_impl; [exact Hev|].
  intros ev Hreg Hspawn. by destruct ev.
Qed.

Lemma spawned_completion c exception :
  spawned (done_events (c_callbacks c) ++ verdict (c_callbacks c) (c_path c) exception) = [].
Proof.
  apply spawned_none. apply Forall_app. split.
  - unfold done_events. destruct (cb_done _); repeat constructor; by intros ?.
  - unfold verdict. destruct exception as [e|]; [destruct (cb_fail_result _ e)|];
      repeat constructor; by intros ?.
Qed.

Lemma run_op_spawned o r :
  consistent r ->
  exists k,
    spawned (emitted (run_op o r)) = seq (S (_next_id (_pool r))) k /\
    _next_id (_pool (final (run_op o r))) = _next_id (_pool r) + k.
Proof.
  intros Hr.
  destruct o as [trait| |svc_id|svc_id|on_disk svc_id text options cbs|w exception].
  1-4: match goal with
       | |- context [run_op ?o ?x] =>
           pose proof (frame_registry_op x o I x (frame_refl x)) as [Hframe Hev]
       end; exists 0; rewrite (spawned_registry _ Hev);
         destruct Hframe as (_ & _ & -> & _); split; [done|lia].
  - cbn.
    destruct (parse_call on_disk svc_id text options r) as [[e|[t [|]]] r1 ev1] eqn:Hpc.
    + rewrite (call_fails _ _ _ _ cbs _ _ _ _ Hpc). cbn.
      destruct (parse_call_inl _ _ _ _ _ _ _ _ Hpc) as [(_ & _ & -> & _) Hev].
      exists 0. split; [|lia].
      unfold spawned. rewrite !omap_app. fold (spawned ev1).
      rewrite (spawned_registry _ Hev). unfold done_events. by destruct (cb_done cbs).
    + rewrite (call_hits _ _ _ _ cbs _ _ _ _ Hpc). cbn.
      destruct (parse_call_inr _ _ _ _ _ _ _ _ _ Hpc)
        as (_ & _ & _ & (_ & _ & -> & _) & pre & -> & Hpre).
      exists 0. split; [|lia].
      unfold spawned. rewrite !omap_app. fold (spawned pre).
      rewrite (spawned_registry _ Hpre). unfold done_events. by destruct (cb_done cbs).
    + rewrite (call_misses _ _ _ _ cbs _ _ _ _ Hpc). cbn.
      destruct (parse_call_inr _ _ _ _ _ _ _ _ _ Hpc)
        as (_ & _ & _ & (_ & _ & -> & _) & pre & -> & Hpre).
      exists 1. split; [|lia].
      unfold spawned. rewrite !omap_app. fold (spawned pre).
      by rewrite (spawned_registry _ Hpre).
  - cbn. destruct (_callbacks (_pool r) !! w) as [c|] eqn:Hw.
    + destruct Hr as (_ & Hin & _). destruct (Hin _ _ Hw) as [Hp _].
      rewrite (_on_signal_run _ _ _ _ Hw Hp), (call_completion_run _ _ _ Hp). cbn.
      exists 0. split; [|lia]. apply (spawned_completion c exception).
    + rewrite _on_signal_unknown by done. exists 0. split; [done|cbn; lia].
Qed.

Lemma run_ops_spawned os r :
  consistent r ->
  exists k,
    spawned (emitted (run_ops os r)) = seq (S (_next_id (_pool r))) k /\
    _next_id (_pool (final (run_ops os r))) = _next_id (_pool r) + k.
Proof.
  revert r. induction os as [|o os IH]; intros r Hr.
  - rewrite run_ops_nil. exists 0. split; [done|cbn; lia].
  - rewrite run_ops_cons. cbn.
    destruct (run_op_spawned o r Hr) as (k1 & Hev1 & Hid1).
    destruct (IH _ (run_op_consistent o r Hr)) as (k2 & Hev2 & Hid2).
    exists (k1 + k2). split; [|lia].
    unfold spawned in *. rewrite omap_app, Hev1, Hev2, Hid1, seq_app.
    do 2 f_equal; lia.
Qed.

(** X23. Workers are numbered in the order of their start, from one on,
    over the whole life of a router: no id is given twice, and the
    pool's [_next_id] is the number of workers started so far. *)
Theorem worker_ids_consecutive b cache_dir os :
  let o := run_ops os (__init__ b cache_dir) in
  spawned (emitted o) = seq 1 (_next_id (_pool (final o))).
Proof.
  cbn zeta.
  destruct (run_ops_spawned os (__init__ b cache_dir) (consistent_init b cache_dir))
    as (k & -> & ->).
  done.
Qed.

(** X24. What the caller of [__call__] hears when the worker is done,
    whatever went on in between: ['done'] if it gave one; then, when the
    task returned, ['okay'] with the path; when it raised, ['fail'] with
    the exception, and ['okay'] with the path after it unless what
    ['fail'] returned is true. *)
Theorem completion_calls on_disk svc_id text options cbs r w t os exception :
  consistent r ->
  EvSpawn w t ∈ emitted (__call__ on_disk svc_id text options cbs r) ->
  Forall (fun o => ~ is_signal w o) os ->
  let first := __call__ on_disk svc_id text options cbs r in
  emitted (_on_signal w exception (final (run_ops os (final first))))
  = (done_events cbs ++ verdict cbs (t_path t) exception)%list.
Proof.
  intros Hr Hspawn Hos. cbn zeta.
  destruct (spawned_then _ _ _ _ _ _ _ _ os Hr Hspawn Hos)
    as (_ & Hcons & Hpending & _).
  cbn zeta in Hcons, Hpending.
  destruct Hcons as (_ & Hin & _). destruct (Hin _ _ Hpending) as [Hp _].
  rewrite (_on_signal_run _ _ _ _ Hpending Hp), (call_completion_run _ _ _ Hp).
  done.
Qed.

End Workers.

(** * More of the [Acme] world *)

Module AcmeMore.
Import Acme.

(** Evaluate the trace of a run, then look the event up in it. *)
Ltac see_event :=
  lazymatch goal with
  | |- _ ∈ emitted ?o =>
      let evs := eval vm_compute in (emitted o) in
      change (emitted o) with evs;
      repeat first [apply list_elem_of_here | apply list_elem_of_further]
  end.

(** Evaluate the list, then look for the element. *)
Ltac not_among :=
  lazymatch goal with
  | |- _ ∉ ?l =>
      let v := eval vm_compute in l in change l with v;
      apply (bool_decide_unpack _); reflexivity
  end.

(** Evaluate the left-hand side, then compare. *)
Ltac evaluated :=
  lazymatch goal with
  | |- ?l = _ => let v := eval vm_compute in l in change l with v; reflexivity
  | |- ?l <> _ => let v := eval vm_compute in l in change l with v; discriminate
  end.

Lemma unknown_service_fails_witness :
  textize (_services fresh) "Hello" <> "" /\
  lookup (_services fresh) !! resolve_id fresh "ghost" = None /\
  __call__ cold "ghost" "Hello" hello (caller 1) fresh
  = Outcome (inr tt) fresh
      [EvLookup "ghost"; EvDone 1; EvFail 1 (ValueError "There is no 'ghost' service")].
Proof.
  assert (textize (_services fresh) "Hello" <> "") as Htext by evaluated.
  assert (lookup (_services fresh) !! resolve_id fresh "ghost" = None) as Hghost
    by reflexivity.
  split; [exact Htext|]. split; [exact Hghost|].
  exact (unknown_service_fails cold "ghost" "Hello" hello (caller 1) fresh Htext Hghost).
Defined.

Lemma unavailable_service_fails_witness :
  textize (_services broken_tried) "Hello" <> "" /\
  lookup (_services broken_tried) !! resolve_id broken_tried "broken" = Some broken_failed /\
  svc_instance broken_failed = Some None /\
  __call__ cold "broken" "Hello" hello (caller 1) broken_tried
  = Outcome (inr tt) broken_tried
      [EvLookup "broken"; EvDone 1;
       EvFail 1 (EnvironmentError "The Broken service is not currently available")].
Proof.
  assert (textize (_services broken_tried) "Hello" <> "") as Htext by evaluated.
  assert (lookup (_services broken_tried) !! resolve_id broken_tried "broken"
          = Some broken_failed) as Hbroken by evaluated.
  split; [exact Htext|]. split; [exact Hbroken|]. split; [reflexivity|].
  exact (unavailable_service_fails cold "broken" "Hello" hello (caller 1) broken_tried
           broken_failed Htext Hbroken eq_refl).
Defined.

Lemma completion_releases_witness :
  consistent fresh /\
  EvSpawn 1 hello_task ∈ emitted (__call__ cold "acme" "Hello" hello (caller 1) fresh) /\
  Forall (fun o => ~ is_signal 1 o) meanwhile /\
  (t_path hello_task
     ∉ _busy (final (_on_signal 1 None
                       (final (run_ops meanwhile
                                 (final (__call__ cold "acme" "Hello" hello (caller 1) fresh))))))).
Proof.
  assert (consistent fresh) as Hfresh by apply consistent_init.
  assert (EvSpawn 1 hello_task
          ∈ emitted (__call__ cold "acme" "Hello" hello (caller 1) fresh)) as Hspawn
    by see_event.
  assert (Forall (fun o => ~ is_signal 1 o) meanwhile) as Hmeanwhile
    by (repeat constructor; cbn; try tauto; lia).
  split; [exact Hfresh|]. split; [exact Hspawn|]. split; [exact Hmeanwhile|].
  exact (proj1 (proj2
    (completion_releases cold warm "acme" "Hello" hello (caller 1) (caller 2) fresh 1
       hello_task meanwhile None Hfresh Hspawn Hmeanwhile))).
Defined.

Lemma get_desc_memoized_witness :
  result (get_desc "acme" fresh) = inr "Acme TTS" /\
  get_desc "acme" (final (get_desc "acme" fresh))
  = Outcome (inr "Acme TTS") (final (get_desc "acme" fresh)) [EvLookup "acme"].
Proof.
  split; [reflexivity|].
  exact (get_desc_memoized "acme" fresh "Acme TTS" eq_refl).
Defined.

Lemma get_options_memoized_witness :
  result (get_options "acme" fresh) = inr acme_schema /\
  get_options "acme" (final (get_options "acme" fresh))
  = Outcome (inr acme_schema) (final (get_options "acme" fresh)) [EvLookup "acme"].
Proof.
  split; [reflexivity|].
  exact (get_options_memoized "acme" fresh acme_schema eq_refl).
Defined.

Lemma get_options_after_rejection_witness :
  lookup (_services half_started) !! resolve_id half_started "half" = Some half_loaded /\
  svc_instance half_loaded = Some (Some half_instance) /\
  svc_options half_loaded = None /\
  check_options (normalize (_services half_started)) (resolve_id half_started "half")
    (inst_options half_instance) []
  = (inl (AssertionError "missing pitch label for half"), [voice_checked]) /\
  result (get_options "half" half_started)
  = inl (AssertionError "missing pitch label for half") /\
  result (get_options "half" (final (get_options "half" half_started)))
  = inr [voice_checked].
Proof.
  assert (lookup (_services half_started) !! resolve_id half_started "half"
          = Some half_loaded) as Hhalf by evaluated.
  assert (check_options (normalize (_services half_started))
            (resolve_id half_started "half") (inst_options half_instance) []
          = (inl (AssertionError "missing pitch label for half"), [voice_checked]))
    as Hcheck by reflexivity.
  split; [exact Hhalf|]. split; [reflexivity|]. split; [reflexivity|].
  split; [exact Hcheck|].
  pose proof (get_options_after_rejection "half" half_started half_loaded half_instance
                _ _ Hhalf eq_refl eq_refl Hcheck) as [Hfirst Hsecond].
  split.
  - exact (f_equal result Hfirst).
  - refine (eq_trans _ (f_equal result Hsecond)). reflexivity.
Defined.


Lemma get_services_memoized_witness :
  result (get_services fresh)
  = inr [("acme", "Acme"); ("acme2", "acme2"); ("sloppy", "Sloppy")] /\
  get_services (final (get_services fresh))
  = Outcome (inr [("acme", "Acme"); ("acme2", "acme2"); ("sloppy", "Sloppy")])
      (final (get_services fresh)) [].
Proof.
  split; [reflexivity|].
  exact (get_services_memoized fresh
           [("acme", "Acme"); ("acme2", "acme2"); ("sloppy", "Sloppy")] eq_refl).
Defined.

Lemma task_options_match_schema_witness :
  EvSpawn 1 bonjour_task ∈ emitted (__call__ cold "acme2" "Hello" bonjour (caller 1) fresh) /\
  lookup (_services (final (__call__ cold "acme2" "Hello" bonjour (caller 1) fresh)))
    !! "acme2" = Some acme2_ready /\
  svc_options acme2_ready = Some acme2_schema /\
  NoDup (Dict.keys (t_options bonjour_task)).
Proof.
  assert (EvSpawn 1 bonjour_task
          ∈ emitted (__call__ cold "acme2" "Hello" bonjour (caller 1) fresh)) as Hspawn
    by see_event.
  assert (lookup (_services (final (__call__ cold "acme2" "Hello" bonjour (caller 1) fresh)))
            !! t_svc_id bonjour_task = Some acme2_ready) as Hready
    by evaluated.
  split; [exact Hspawn|]. split; [exact Hready|]. split; [reflexivity|].
  exact (proj1
    (task_options_match_schema cold "acme2" "Hello" bonjour (caller 1) fresh 1 bonjour_task
       acme2_ready acme2_schema Hspawn Hready eq_refl)).
Defined.

Lemma supplied_values_checked_witness :
  EvSpawn 1 hello_task ∈ emitted (__call__ cold "acme" "Hello" hello (caller 1) fresh) /\
  lookup (_services (final (__call__ cold "acme" "Hello" hello (caller 1) fresh)))
    !! "acme" = Some acme_ready /\
  svc_options acme_ready = Some acme_schema /\
  NoDup (map opt_key acme_schema) /\
  rate_checked ∈ acme_schema /\
  Dict.get "rate" (known_options (normalize (_services fresh)) acme_schema hello)
  = Some (PyStr "5") /\
  exists v,
    to_int (PyStr "5") = inr v /\ legal rate_checked v /\
    Dict.get "rate" (t_options hello_task) = Some v.
Proof.
  assert (EvSpawn 1 hello_task
          ∈ emitted (__call__ cold "acme" "Hello" hello (caller 1) fresh)) as Hspawn
    by see_event.
  assert (lookup (_services (final (__call__ cold "acme" "Hello" hello (caller 1) fresh)))
            !! t_svc_id hello_task = Some acme_ready) as Hready
    by evaluated.
  assert (NoDup (map opt_key acme_schema)) as Hkeys
    by (apply (bool_decide_unpack _); reflexivity).
  assert (rate_checked ∈ acme_schema) as Hrate
    by (apply list_elem_of_further, list_elem_of_here).
  assert (Dict.get (opt_key rate_checked)
            (known_options (normalize (_services fresh)) acme_schema hello)
          = Some (PyStr "5")) as Hgiven by reflexivity.
  split; [exact Hspawn|]. split; [exact Hready|]. split; [reflexivity|].
  split; [exact Hkeys|]. split; [exact Hrate|]. split; [exact Hgiven|].
  exact (supplied_values_checked cold "acme" "Hello" hello (caller 1) fresh 1 hello_task
           acme_ready acme_schema rate_checked (PyStr "5")
           Hspawn Hready eq_refl Hkeys Hrate Hgiven).
Defined.

Lemma missing_required_fails_witness :
  textize (_services acme_asked) "Hello" <> "" /\
  lookup (_services acme_asked) !! resolve_id acme_asked "acme" = Some acme_ready /\
  svc_instance acme_ready = Some (Some acme_instance) /\
  svc_options acme_ready = Some acme_schema /\
  NoDup (map opt_key acme_schema) /\
  rate_checked ∈ acme_schema /\
  opt_default rate_checked = None /\
  ("rate" ∉ map (fun kv : string * value => normalize (_services acme_asked) kv.1)
              hello_without_rate) /\
  exists e,
    __call__ cold "acme" "Hello" hello_without_rate (caller 1) acme_asked
    = Outcome (inr tt) acme_asked [EvLookup "acme"; EvDone 1; EvFail 1 e].
Proof.
  assert (textize (_services acme_asked) "Hello" <> "") as Htext by evaluated.
  assert (lookup (_services acme_asked) !! resolve_id acme_asked "acme" = Some acme_ready)
    as Hready by evaluated.
  assert (NoDup (map opt_key acme_schema)) as Hkeys
    by (apply (bool_decide_unpack _); reflexivity).
  assert (rate_checked ∈ acme_schema) as Hrate
    by (apply list_elem_of_further, list_elem_of_here).
  assert (opt_key rate_checked
          ∉ map (fun kv : string * value => normalize (_services acme_asked) kv.1)
              hello_without_rate) as Hmissing
    by not_among.
  split; [exact Htext|]. split; [exact Hready|]. split; [reflexivity|].
  split; [reflexivity|]. split; [exact Hkeys|]. split; [exact Hrate|].
  split; [reflexivity|]. split; [exact Hmissing|].
  destruct (missing_required_fails cold "acme" "Hello" hello_without_rate (caller 1)
              acme_asked acme_ready acme_instance acme_schema rate_checked
              Htext Hready eq_refl eq_refl Hkeys Hrate eq_refl Hmissing)
    as (e & Hcall & _).
  exists e. exact Hcall.
Defined.

Lemma request_up_to_spelling_witness :
  resolve_id fresh "a" = resolve_id fresh "ACME!" /\
  textize (_services fresh) "  Hello" = textize (_services fresh) "Hello" /\
  map (fun kv : string * value => (normalize (_services fresh) kv.1, kv.2)) hello_shouted
  = map (fun kv : string * value => (normalize (_services fresh) kv.1, kv.2)) hello /\
  __call__ cold "a" "  Hello" hello_shouted (caller 1) fresh
  = __call__ cold "ACME!" "Hello" hello (caller 1) fresh.
Proof.
  split; [reflexivity|]. split; [reflexivity|]. split; [reflexivity|].
  exact (request_up_to_spelling cold "a" "ACME!" "  Hello" "Hello" hello_shouted hello
           (caller 1) fresh eq_refl eq_refl eq_refl).
Defined.

Lemma undeclared_options_ignored_witness :
  lookup (_services acme_asked) !! resolve_id acme_asked "acme" = Some acme_ready /\
  svc_options acme_ready = Some acme_schema /\
  __call__ cold "acme" "Hello" hello_and_more (caller 1) acme_asked
  = __call__ cold "acme" "Hello" hello (caller 1) acme_asked.
Proof.
  assert (lookup (_services acme_asked) !! resolve_id acme_asked "acme" = Some acme_ready)
    as Hready by evaluated.
  split; [exact Hready|]. split; [reflexivity|].
  exact (undeclared_options_ignored cold "acme" "Hello" hello_and_more (caller 1)
           acme_asked acme_ready acme_schema Hready eq_refl).
Defined.

Lemma other_services_untouched_witness :
  names fresh (GetOptions "acme") <> Some "acme2" /\
  lookup (_services (final (run_op (GetOptions "acme") fresh))) !! "acme2"
  = lookup (_services fresh) !! "acme2".
Proof.
  assert (names fresh (GetOptions "acme") <> Some "acme2") as Hother by discriminate.
  split; [exact Hother|].
  exact (proj1 (other_services_untouched (GetOptions "acme") fresh "acme2" Hother)).
Defined.

Lemma options_read_once_witness :
  EvOptions "acme" ∈ emitted (run_op (GetOptions "acme") fresh) /\
  (EvOptions "acme"
     ∉ emitted (run_ops (meanwhile ++ [GetOptions "a"])
                  (final (run_op (GetOptions "acme") fresh)))).
Proof.
  assert (EvOptions "acme" ∈ emitted (run_op (GetOptions "acme") fresh)) as Hread
    by see_event.
  split; [exact Hread|].
  exact (options_read_once "acme" (GetOptions "acme") (meanwhile ++ [GetOptions "a"])
           fresh Hread).
Defined.


Lemma completion_calls_witness :
  consistent fresh /\
  EvSpawn 1 hello_task ∈ emitted (__call__ cold "acme" "Hello" hello (caller 1) fresh) /\
  Forall (fun o => ~ is_signal 1 o) meanwhile /\
  emitted (_on_signal 1 (Some (StandardError "boom"))
             (final (run_ops meanwhile
                       (final (__call__ cold "acme" "Hello" hello (caller 1) fresh)))))
  = [ EvDone 1; EvFail 1 (StandardError "boom"); EvOkay 1 (t_path hello_task) ].
Proof.
  assert (consistent fresh) as Hfresh by apply consistent_init.
  assert (EvSpawn 1 hello_task
          ∈ emitted (__call__ cold "acme" "Hello" hello (caller 1) fresh)) as Hspawn
    by see_event.
  assert (Forall (fun o => ~ is_signal 1 o) meanwhile) as Hmeanwhile
    by (repeat constructor; cbn; try tauto; lia).
  split; [exact Hfresh|]. split; [exact Hspawn|]. split; [exact Hmeanwhile|].
  exact (completion_calls cold "acme" "Hello" hello (caller 1) fresh 1 hello_task
           meanwhile (Some (StandardError "boom")) Hfresh Hspawn Hmeanwhile).
Defined.

End AcmeMore.
